(** * Change detection between two snapshots of a spreadsheet

    A shallow embedding of [ChangeDetector] (change-detector.ts): the value
    normalizer, the address formatter, the three matching phases and the
    per-sheet orchestration of [detectChanges], followed by the properties
    the specification states about them. *)

From Stdlib Require Import List String Ascii Arith PeanoNat ZArith Bool Lia.
From Stdlib Require Import DecimalString Permutation Sorted.
From Equations Require Import Equations.
Import ListNotations.

Local Open Scope string_scope.
Local Open Scope list_scope.
Local Open Scope nat_scope.

(* ------------------------------------------------------------------------- *)
(** ** Data model (types.ts) *)

(** A cell of [any[][]] as the Sheets API delivers it: JSON null, a boolean,
    a number or a string.  A string is a sequence of code units, here the
    ones below 256.  [VNum] carries an integral number of the safe range;
    fractions are outside the embedding.  The value [undefined] is never
    stored in a row: it is what an index past the end of an array yields,
    and is the [None] of [option value]. *)
Inductive value : Type :=
| VNull
| VBool (b : bool)
| VNum (n : Z)
| VStr (s : string).

Definition row := list value.
Definition table := list row.

(** [SheetData]: the own enumerable properties of the snapshot object, in the
    order [Object.keys] lists them.  Reading a name finds its first binding. *)
Definition SheetData := list (string * table).

Inductive ChangeType : Type :=
| EDIT | INSERT_ROW | INSERT_COLUMN | REMOVE_ROW | REMOVE_COLUMN
| INSERT_GRID | REMOVE_GRID | FORMAT | OTHER.

(** A JavaScript number that is either a natural number or [NaN]; only
    [Math.max] over a missing [length] produces the latter. *)
Inductive jsnum : Type :=
| Num (n : nat)
| NaN.

Record range : Type := mkRange {
  startRow : nat;
  endRow : jsnum;
  startColumn : nat;
  endColumn : nat;
  a1Notation : string
}.

(** [ChangeEvent] without its [timestamp], which is read from the wall clock
    at each [push] and takes no part in any comparison. *)
Record ChangeEvent : Type := mkEvent {
  changeType : ChangeType;
  sheetName : string;
  affectedRange : range;
  cellAddress : option string;
  oldValue : option value;
  newValue : option value;
  rowIndex : option nat;
  columnIndex : option nat;
  insertedData : option table;
  deletedData : option table
}.

(* ------------------------------------------------------------------------- *)
(** ** Exceptions *)

Inductive error : Type :=
| TypeError
| RangeError.

Inductive result (A : Type) : Type :=
| Ok (a : A)
| Throw (e : error).

Arguments Ok {A} a.
Arguments Throw {A} e.

Definition bind {A B} (r : result A) (k : A -> result B) : result B :=
  match r with
  | Ok a => k a
  | Throw e => Throw e
  end.

Notation "x <- c ;; k" := (bind c (fun x => k))
  (at level 61, c at next level, right associativity).

(** [for (const x of xs) body], the loop state threaded through [body]. *)
Fixpoint forOf {A St} (xs : list A) (body : A -> St -> result St) (s : St)
  : result St :=
  match xs with
  | [] => Ok s
  | x :: rest => s' <- body x s ;; forOf rest body s'
  end.

(** [changes.push(ev)], the elements written out as arguments. *)
Definition push {A} (changes : list A) (evs : list A) : list A :=
  changes ++ evs.

(** The engine that runs the code.  A call passes its arguments on the
    stack, and an engine bounds their number: a call [f(...xs)] that
    spreads more elements than the engine passes throws a [RangeError].
    The bound is the engine's own and is taken as a parameter. *)
Class Engine : Type := { argumentLimit : nat }.

(** An engine for the examples: it passes up to 1000 arguments. *)
Definition exampleEngine : Engine := {| argumentLimit := 1000 |}.

(** [f(...args)] *)
Definition spreadCall `{Engine} {A B} (f : list A -> B) (args : list A)
  : result B :=
  if List.length args <=? argumentLimit then Ok (f args) else Throw RangeError.

(** [changes.push(...evs)] *)
Definition pushAll `{Engine} {A} (changes : list A) (evs : list A)
  : result (list A) :=
  spreadCall (fun evs => changes ++ evs) evs.

(* ------------------------------------------------------------------------- *)
(** ** Strings *)

Definition natToString (n : nat) : string :=
  NilEmpty.string_of_uint (Nat.to_uint n).

Definition intToString (z : Z) : string :=
  NilEmpty.string_of_int (Z.to_int z).

(** [String(value)] on the values a cell can hold. *)
Definition ToString (v : value) : string :=
  match v with
  | VNull => "null"
  | VBool true => "true"
  | VBool false => "false"
  | VNum n => intToString n
  | VStr s => s
  end.

(** White space and line terminators of ECMAScript among the code units
    below 256: TAB, LF, VT, FF, CR, SP and NBSP. *)
Definition isWhiteSpace (c : ascii) : bool :=
  let n := nat_of_ascii c in
  ((9 <=? n) && (n <=? 13)) || (n =? 32) || (n =? 160).

Fixpoint trimStart (s : string) : string :=
  match s with
  | EmptyString => EmptyString
  | String c rest => if isWhiteSpace c then trimStart rest else s
  end.

Fixpoint trimEnd (s : string) : string :=
  match s with
  | EmptyString => EmptyString
  | String c rest =>
      match trimEnd rest with
      | EmptyString => if isWhiteSpace c then EmptyString else String c EmptyString
      | t => String c t
      end
  end.

(** [String.prototype.trim] *)
Definition trim (s : string) : string := trimEnd (trimStart s).

(** [normalizeValue]; [None] is [undefined]. *)
Definition normalizeValue (v : option value) : string :=
  match v with
  | None => ""
  | Some VNull => ""
  | Some v => trim (ToString v)
  end.

(** Truthiness of a string used as a condition ([primaryKey && ...]). *)
Definition truthyString (s : string) : bool :=
  negb (s =? "")%string.

(** [x || ''] on a cell read by index: every falsy value ([undefined],
    [null], [false], [0], the empty string) gives way to [''].  *)
Definition orEmpty (v : option value) : value :=
  match v with
  | None => VStr ""
  | Some VNull => VStr ""
  | Some (VBool false) => VStr ""
  | Some (VNum 0) => VStr ""
  | Some (VStr "") => VStr ""
  | Some v => v
  end.

(** [x !== undefined ? x : ''] *)
Definition definedOrEmpty (v : option value) : value :=
  match v with
  | Some x => x
  | None => VStr ""
  end.

(** [val !== ''] *)
Definition notEmptyString (v : value) : bool :=
  match v with
  | VStr "" => false
  | _ => true
  end.

(* ------------------------------------------------------------------------- *)
(** ** Address formatter *)

(** The [while (column > 0)] loop of [columnToLetter] on its two variables;
    in the second equation [c] is [column] after [column--]. *)
Equations? columnToLetter_loop (column : nat) (result : string) : string
  by wf column lt :=
columnToLetter_loop 0 result := result;
columnToLetter_loop (S c) result :=
  columnToLetter_loop (c / 26)
    (String (ascii_of_nat (65 + c mod 26)) EmptyString ++ result).
Proof.
  change (c / 26 < S c).
  assert (c / 26 <= c) by (apply Nat.Div0.div_le_upper_bound; lia).
  lia.
Qed.

Definition columnToLetter (column : nat) : string :=
  columnToLetter_loop column "".

(* ------------------------------------------------------------------------- *)
(** ** [Map<string, V>] and [Set<string>], both in insertion order *)

Module JsMap.
Section Ops.
Variable V : Type.

Definition t := list (string * V).

Definition empty : t := [].

Fixpoint get (m : t) (k : string) : option V :=
  match m with
  | [] => None
  | (k', v) :: rest => if (k' =? k)%string then Some v else get rest k
  end.

Definition has (m : t) (k : string) : bool :=
  match get m k with
  | Some _ => true
  | None => false
  end.

(** [set] overwrites the value of a key in place and appends a new key. *)
Fixpoint set (m : t) (k : string) (v : V) : t :=
  match m with
  | [] => [(k, v)]
  | (k', v') :: rest =>
      if (k' =? k)%string then (k', v) :: rest else (k', v') :: set rest k v
  end.

Definition entries (m : t) : list (string * V) := m.
End Ops.

Arguments empty {V}.
Arguments get {V} m k.
Arguments has {V} m k.
Arguments set {V} m k v.
Arguments entries {V} m.
End JsMap.

Module JsSet.
Definition t := list string.

Definition has (s : t) (x : string) : bool :=
  existsb (fun y => (y =? x)%string) s.

Definition add (s : t) (x : string) : t :=
  if has s x then s else s ++ [x].

(** [new Set(xs)] *)
Definition ofList (xs : list string) : t := fold_left add xs [].
End JsSet.

(** [xs.forEach((x, index) => ...)], the captured variables as state. *)
Fixpoint forEach {A St} (xs : list A) (f : A -> nat -> St -> St) (index : nat)
  (s : St) : St :=
  match xs with
  | [] => s
  | x :: rest => forEach rest f (S index) (f x index s)
  end.

(* ------------------------------------------------------------------------- *)
(** ** Reading a sheet out of a snapshot *)

(** What [data[sheetName]] can evaluate to.  A snapshot is an ordinary object,
    so a name it does not own is looked up in [Object.prototype]: the result
    is then one of the built-in methods (a function, whose [length] is its
    arity) or, for the accessor [__proto__], [Object.prototype] itself. *)
Inductive sheetRef : Type :=
| Rows (t : table)
| Fn (arity : nat)
| ProtoObject.

Definition objectPrototype : JsMap.t sheetRef :=
  [ ("constructor", Fn 1);
    ("__defineGetter__", Fn 2);
    ("__defineSetter__", Fn 2);
    ("hasOwnProperty", Fn 1);
    ("__lookupGetter__", Fn 1);
    ("__lookupSetter__", Fn 1);
    ("isPrototypeOf", Fn 1);
    ("propertyIsEnumerable", Fn 1);
    ("toString", Fn 0);
    ("valueOf", Fn 0);
    ("__proto__", ProtoObject);
    ("toLocaleString", Fn 0) ].

(** [data[sheetName]]; [None] is [undefined]. *)
Definition getProperty (data : SheetData) (sheetName : string)
  : option sheetRef :=
  match JsMap.get data sheetName with
  | Some t => Some (Rows t)
  | None => JsMap.get objectPrototype sheetName
  end.

(** [data[sheetName] || []]: arrays, functions and objects are all truthy. *)
Definition sheetOrEmpty (data : SheetData) (sheetName : string) : sheetRef :=
  match getProperty data sheetName with
  | Some o => o
  | None => Rows []
  end.

(** [o.length]; [None] is [undefined]. *)
Definition lengthOf (o : sheetRef) : option nat :=
  match o with
  | Rows t => Some (List.length t)
  | Fn arity => Some arity
  | ProtoObject => None
  end.

(** [len === 0] *)
Definition isZero (len : option nat) : bool :=
  match len with
  | Some 0 => true
  | _ => false
  end.

(** [len > n]; a comparison with [undefined] is false. *)
Definition greater (len : option nat) (n : nat) : bool :=
  match len with
  | Some k => n <? k
  | None => false
  end.

(** [Math.max(a, b)] of two lengths. *)
Definition mathMax2 (a b : option nat) : jsnum :=
  match a, b with
  | Some x, Some y => Num (Nat.max x y)
  | _, _ => NaN
  end.

(** What [Math.max] returns on the lengths [xs], a list that is never
    empty. *)
Definition mathMax (xs : list nat) : nat := fold_right Nat.max 0 xs.

Definition jsnumToString (n : jsnum) : string :=
  match n with
  | Num k => natToString k
  | NaN => "NaN"
  end.

(** [o[0]] *)
Definition firstRow (o : sheetRef) : option row :=
  match o with
  | Rows t => nth_error t 0
  | _ => None
  end.

(** [o.length > 0 ? o[0] : []] *)
Definition headerOf (o : sheetRef) : option row :=
  if greater (lengthOf o) 0 then firstRow o else Some [].

(** [o.slice(1)]; only an array has the method. *)
Definition slice1 (o : sheetRef) : result table :=
  match o with
  | Rows t => Ok (skipn 1 t)
  | _ => Throw TypeError
  end.

(** [o.length > 1 ? o.slice(1) : []] *)
Definition dataRowsOf (o : sheetRef) : result table :=
  if greater (lengthOf o) 1 then slice1 o else Ok [].

(* ------------------------------------------------------------------------- *)
(** ** The header and key maps *)

(** The body of the [forEach] that fills a header map. *)
Definition addHeader (headerName : value) (index : nat) (m : JsMap.t nat)
  : JsMap.t nat :=
  let normalizedName := normalizeValue (Some headerName) in
  if negb (JsMap.has m normalizedName) then JsMap.set m normalizedName index
  else m.

(** [header.forEach(...)] into a fresh map; throws on [undefined]. *)
Definition buildColMap (header : option row) : result (JsMap.t nat) :=
  match header with
  | Some h => Ok (forEach h addHeader 0 JsMap.empty)
  | None => Throw TypeError
  end.

(** The body of the [forEach] that fills a key map. *)
Definition addKey (r : row) (index : nat) (m : JsMap.t nat) : JsMap.t nat :=
  let primaryKey := normalizeValue (nth_error r 0) in
  if truthyString primaryKey && negb (JsMap.has m primaryKey)
  then JsMap.set m primaryKey index
  else m.

Definition buildRowMap (dataRows : table) : JsMap.t nat :=
  forEach dataRows addKey 0 JsMap.empty.

(* ------------------------------------------------------------------------- *)
(** ** Phase 1: column matching *)

(** [o.length > 1 ? o.slice(1).map(row => [row[idx] || ''])
                               .filter(([val]) => val !== '') : []] *)
Definition columnData (o : sheetRef) (idx : nat) : result table :=
  if greater (lengthOf o) 1 then
    rows <- slice1 o ;;
    Ok (filter
          (fun cell =>
             match nth_error cell 0 with
             | Some val => notEmptyString val
             | None => true
             end)
          (map (fun r : row => [orEmpty (nth_error r idx)]) rows))
  else Ok [].

Definition columnRange (colIdx : nat) (maxRow : jsnum) : range :=
  {| startRow := 1;
     endRow := maxRow;
     startColumn := colIdx + 1;
     endColumn := colIdx + 1;
     a1Notation := columnToLetter (colIdx + 1) ++ "1:"
                   ++ columnToLetter (colIdx + 1) ++ jsnumToString maxRow |}.

Definition insertColumnEvent (sheet : string) (colIdx : nat) (maxRow : jsnum)
  (data : table) : ChangeEvent :=
  {| changeType := INSERT_COLUMN;
     sheetName := sheet;
     affectedRange := columnRange colIdx maxRow;
     cellAddress := None;
     oldValue := None;
     newValue := None;
     rowIndex := None;
     columnIndex := Some (colIdx + 1);
     insertedData := Some data;
     deletedData := None |}.

Definition removeColumnEvent (sheet : string) (colIdx : nat) (maxRow : jsnum)
  (data : table) : ChangeEvent :=
  {| changeType := REMOVE_COLUMN;
     sheetName := sheet;
     affectedRange := columnRange colIdx maxRow;
     cellAddress := None;
     oldValue := None;
     newValue := None;
     rowIndex := None;
     columnIndex := Some (colIdx + 1);
     insertedData := None;
     deletedData := Some data |}.

Definition detectColumnChanges (previous current : sheetRef)
  (sheet : string) : result (list ChangeEvent) :=
  let changes : list ChangeEvent := [] in
  let prevHeader := headerOf previous in
  let currHeader := headerOf current in
  prevColMap <- buildColMap prevHeader ;;
  currColMap <- buildColMap currHeader ;;
  (* inserted columns: in current but not in previous *)
  changes <-
    forOf (JsMap.entries currColMap)
      (fun '(headerName, currColIdx) changes =>
         if negb (JsMap.has prevColMap headerName) then
           let maxRow := mathMax2 (lengthOf previous) (lengthOf current) in
           data <- columnData current currColIdx ;;
           Ok (push changes [insertColumnEvent sheet currColIdx maxRow data])
         else Ok changes)
      changes ;;
  (* deleted columns: in previous but not in current *)
  changes <-
    forOf (JsMap.entries prevColMap)
      (fun '(headerName, prevColIdx) changes =>
         if negb (JsMap.has currColMap headerName) then
           let maxRow := mathMax2 (lengthOf previous) (lengthOf current) in
           data <- columnData previous prevColIdx ;;
           Ok (push changes [removeColumnEvent sheet prevColIdx maxRow data])
         else Ok changes)
      changes ;;
  Ok changes.

(* ------------------------------------------------------------------------- *)
(** ** Phase 2: row matching *)

Definition rowRange (actualRowNum maxCol : nat) : range :=
  {| startRow := actualRowNum;
     endRow := Num actualRowNum;
     startColumn := 1;
     endColumn := maxCol;
     a1Notation := natToString actualRowNum ++ ":" ++ natToString actualRowNum |}.

Definition insertRowEvent (sheet : string) (actualRowNum maxCol : nat)
  (r : row) : ChangeEvent :=
  {| changeType := INSERT_ROW;
     sheetName := sheet;
     affectedRange := rowRange actualRowNum maxCol;
     cellAddress := None;
     oldValue := None;
     newValue := None;
     rowIndex := Some actualRowNum;
     columnIndex := None;
     insertedData := Some [r];
     deletedData := None |}.

Definition removeRowEvent (sheet : string) (actualRowNum maxCol : nat)
  (r : row) : ChangeEvent :=
  {| changeType := REMOVE_ROW;
     sheetName := sheet;
     affectedRange := rowRange actualRowNum maxCol;
     cellAddress := None;
     oldValue := None;
     newValue := None;
     rowIndex := Some actualRowNum;
     columnIndex := None;
     insertedData := None;
     deletedData := Some [r] |}.

(** The arguments of the call
    [Math.max(...prevDataRows.map(r => r.length),
              ...currDataRows.map(r => r.length), row.length)]:
    one for each data row of either side and one more. *)
Definition rowLengths (prevDataRows currDataRows : table) (r : row)
  : list nat :=
  map (@List.length value) prevDataRows
  ++ map (@List.length value) currDataRows
  ++ [List.length r].

(** What that call returns when the engine passes its arguments. *)
Definition maxColOf (prevDataRows currDataRows : table) (r : row) : nat :=
  mathMax (rowLengths prevDataRows currDataRows r).

Definition detectRowChanges `{Engine} (previous current : sheetRef)
  (sheet : string) : result (list ChangeEvent) :=
  let changes : list ChangeEvent := [] in
  prevDataRows <- dataRowsOf previous ;;
  currDataRows <- dataRowsOf current ;;
  let prevRowMap := buildRowMap prevDataRows in
  let currRowMap := buildRowMap currDataRows in
  (* inserted rows: in current but not in previous *)
  changes <-
    forOf (JsMap.entries currRowMap)
      (fun '(primaryKey, currRowIdx) changes =>
         if negb (JsMap.has prevRowMap primaryKey) then
           let actualRowNum := currRowIdx + 2 in
           match nth_error currDataRows currRowIdx with
           | Some r =>
               maxCol <- spreadCall mathMax
                           (rowLengths prevDataRows currDataRows r) ;;
               Ok (push changes [insertRowEvent sheet actualRowNum maxCol r])
           | None => Throw TypeError   (* [row.length] of [undefined] *)
           end
         else Ok changes)
      changes ;;
  (* deleted rows: in previous but not in current *)
  changes <-
    forOf (JsMap.entries prevRowMap)
      (fun '(primaryKey, prevRowIdx) changes =>
         if negb (JsMap.has currRowMap primaryKey) then
           let actualRowNum := prevRowIdx + 2 in
           match nth_error prevDataRows prevRowIdx with
           | Some r =>
               maxCol <- spreadCall mathMax
                           (rowLengths prevDataRows currDataRows r) ;;
               Ok (push changes [removeRowEvent sheet actualRowNum maxCol r])
           | None => Throw TypeError
           end
         else Ok changes)
      changes ;;
  Ok changes.

(* ------------------------------------------------------------------------- *)
(** ** Phase 3: cell edits *)

Definition editEvent (sheet : string) (actualRowNum currIdx : nat)
  (prevValue currValue : value) : ChangeEvent :=
  let colLetter := columnToLetter (currIdx + 1) in
  let address := (colLetter ++ natToString actualRowNum)%string in
  {| changeType := EDIT;
     sheetName := sheet;
     affectedRange :=
       {| startRow := actualRowNum;
          endRow := Num actualRowNum;
          startColumn := currIdx + 1;
          endColumn := currIdx + 1;
          a1Notation := address |};
     cellAddress := Some address;
     oldValue := Some prevValue;
     newValue := Some currValue;
     rowIndex := None;
     columnIndex := None;
     insertedData := None;
     deletedData := None |}.

(** The comparison of one mapped column of a matched pair of rows; a row
    read past the end of the data rows is [undefined] and cannot be indexed. *)
Definition scanCell (sheet : string) (prevRow currRow : option row)
  (actualRowNum : nat) (entry : string * (nat * nat))
  (changes : list ChangeEvent) : result (list ChangeEvent) :=
  let '(_, (prevIdx, currIdx)) := entry in
  (* the primary-key column is skipped *)
  if (prevIdx =? 0) && (currIdx =? 0) then Ok changes
  else
    match prevRow, currRow with
    | Some prevRow, Some currRow =>
        let prevValue := definedOrEmpty (nth_error prevRow prevIdx) in
        let currValue := definedOrEmpty (nth_error currRow currIdx) in
        let prevNormalized := normalizeValue (Some prevValue) in
        let currNormalized := normalizeValue (Some currValue) in
        if negb (prevNormalized =? currNormalized)%string then
          Ok (push changes
                [editEvent sheet actualRowNum currIdx prevValue currValue])
        else Ok changes
    | _, _ => Throw TypeError
    end.

Definition detectCellEdits (previous current : sheetRef) (sheet : string)
  : result (list ChangeEvent) :=
  let changes : list ChangeEvent := [] in
  prevDataRows <- dataRowsOf previous ;;
  currDataRows <- dataRowsOf current ;;
  let prevHeader := headerOf previous in
  let currHeader := headerOf current in
  prevColMap <- buildColMap prevHeader ;;
  currColMap <- buildColMap currHeader ;;
  (* columns that exist in both; a [get(...)!] that finds nothing counts
     as an error *)
  columnMapping <-
    forOf (JsMap.entries prevColMap)
      (fun '(headerName, prevIdx) (columnMapping : JsMap.t (nat * nat)) =>
         if JsMap.has currColMap headerName then
           match JsMap.get currColMap headerName with
           | Some currIdx =>
               Ok (JsMap.set columnMapping headerName (prevIdx, currIdx))
           | None => Throw TypeError
           end
         else Ok columnMapping)
      JsMap.empty ;;
  let prevRowMap := buildRowMap prevDataRows in
  let currRowMap := buildRowMap currDataRows in
  changes <-
    forOf (JsMap.entries prevRowMap)
      (fun '(primaryKey, prevRowIdx) changes =>
         if negb (JsMap.has currRowMap primaryKey) then Ok changes
         else
           match JsMap.get currRowMap primaryKey with
           | Some currRowIdx =>
               let prevRow := nth_error prevDataRows prevRowIdx in
               let currRow := nth_error currDataRows currRowIdx in
               let actualRowNum := currRowIdx + 2 in
               forOf (JsMap.entries columnMapping)
                 (scanCell sheet prevRow currRow actualRowNum) changes
           | None => Throw TypeError
           end)
      changes ;;
  Ok changes.

(* ------------------------------------------------------------------------- *)
(** ** Orchestration *)

(** [new Set([...Object.keys(previousData), ...Object.keys(currentData)])];
    the two spreads fill an array literal, they are not arguments of a
    call. *)
Definition allSheetNames (previousData currentData : SheetData) : JsSet.t :=
  JsSet.ofList (map fst previousData ++ map fst currentData).

(** The body of the loop over the sheet names. *)
Definition detectSheet `{Engine} (previousData currentData : SheetData)
  (sheet : string) (changes : list ChangeEvent)
  : result (list ChangeEvent) :=
  let previous := sheetOrEmpty previousData sheet in
  let current := sheetOrEmpty currentData sheet in
  (* sheets empty on both sides are skipped *)
  if isZero (lengthOf previous) && isZero (lengthOf current) then Ok changes
  else
    columnChanges <- detectColumnChanges previous current sheet ;;
    changes <- pushAll changes columnChanges ;;
    rowChanges <- detectRowChanges previous current sheet ;;
    changes <- pushAll changes rowChanges ;;
    cellChanges <- detectCellEdits previous current sheet ;;
    changes <- pushAll changes cellChanges ;;
    Ok changes.

Definition detectChanges `{Engine} (previousData currentData : SheetData)
  : result (list ChangeEvent) :=
  forOf (allSheetNames previousData currentData)
    (detectSheet previousData currentData) [].

(* ------------------------------------------------------------------------- *)
(** ** Notions used to state the properties *)

(** Row 0 of a table, or no columns at all. *)
Definition tableHeader (t : table) : row :=
  match t with
  | [] => []
  | h :: _ => h
  end.

(** Rows 1.. of a table. *)
Definition tableData (t : table) : table := skipn 1 t.

Definition headerKey (v : value) : option string :=
  Some (normalizeValue (Some v)).

Definition primaryKey (r : row) : string := normalizeValue (nth_error r 0).

(** The key under which a data row enters a key map, if it does. *)
Definition rowKey (r : row) : option string :=
  if truthyString (primaryKey r) then Some (primaryKey r) else None.

(** One step of either [forEach]: insert only when absent. *)
Definition addOpt (k : option string) (index : nat) (m : JsMap.t nat)
  : JsMap.t nat :=
  match k with
  | Some k => if JsMap.has m k then m else JsMap.set m k index
  | None => m
  end.

Fixpoint buildFrom (ks : list (option string)) (index : nat) (m : JsMap.t nat)
  : JsMap.t nat :=
  match ks with
  | [] => m
  | k :: rest => buildFrom rest (S index) (addOpt k index m)
  end.

Definition colMapOf (t : table) : JsMap.t nat :=
  forEach (tableHeader t) addHeader 0 JsMap.empty.

Definition rowMapOf (t : table) : JsMap.t nat := buildRowMap (tableData t).

Fixpoint replaceNth {A} (n : nat) (x : A) (l : list A) : list A :=
  match l, n with
  | [], _ => []
  | _ :: rest, 0 => x :: rest
  | y :: rest, S n' => y :: replaceNth n' x rest
  end.

(** The table [t] with the cell in row [r], column [c] replaced by [v]. *)
Definition setCell (t : table) (r c : nat) (v : value) : table :=
  match nth_error t r with
  | Some old => replaceNth r (replaceNth c v old) t
  | None => t
  end.

Definition isColumnEvent (e : ChangeEvent) : bool :=
  match changeType e with
  | INSERT_COLUMN | REMOVE_COLUMN => true
  | _ => false
  end.

Definition isRowEvent (e : ChangeEvent) : bool :=
  match changeType e with
  | INSERT_ROW | REMOVE_ROW => true
  | _ => false
  end.

Definition isEditEvent (e : ChangeEvent) : bool :=
  match changeType e with
  | EDIT => true
  | _ => false
  end.

(** The values of column [idx] in the data rows, missing cells as [None]. *)
Definition columnCells (t : table) (idx : nat) : list (option value) :=
  map (fun r : row => nth_error r idx) (tableData t).

(** What [columnData] collects for column [idx] of an array of rows. *)
Definition columnValues (t : table) (idx : nat) : table :=
  filter
    (fun cell =>
       match nth_error cell 0 with
       | Some val => notEmptyString val
       | None => true
       end)
    (map (fun r : row => [orEmpty (nth_error r idx)]) (tableData t)).

Definition maxRowOf (p c : table) : jsnum :=
  Num (Nat.max (List.length p) (List.length c)).

(** The events of phase 1 on two arrays of rows, as list comprehensions. *)
Definition insertedColumns (p c : table) (sheet : string) : list ChangeEvent :=
  flat_map
    (fun '(h, i) =>
       if JsMap.has (colMapOf p) h then []
       else [insertColumnEvent sheet i (maxRowOf p c) (columnValues c i)])
    (colMapOf c).

Definition removedColumns (p c : table) (sheet : string) : list ChangeEvent :=
  flat_map
    (fun '(h, i) =>
       if JsMap.has (colMapOf c) h then []
       else [removeColumnEvent sheet i (maxRowOf p c) (columnValues p i)])
    (colMapOf p).

(** The events of phase 2. *)
Definition insertedRows (p c : table) (sheet : string) : list ChangeEvent :=
  flat_map
    (fun '(k, i) =>
       if JsMap.has (rowMapOf p) k then []
       else
         match nth_error (tableData c) i with
         | Some r =>
             [insertRowEvent sheet (i + 2)
                (maxColOf (tableData p) (tableData c) r) r]
         | None => []
         end)
    (rowMapOf c).

Definition removedRows (p c : table) (sheet : string) : list ChangeEvent :=
  flat_map
    (fun '(k, i) =>
       if JsMap.has (rowMapOf c) k then []
       else
         match nth_error (tableData p) i with
         | Some r =>
             [removeRowEvent sheet (i + 2)
                (maxColOf (tableData p) (tableData c) r) r]
         | None => []
         end)
    (rowMapOf p).

(** The events of phase 3. *)
Definition columnMappingOf (p c : table) : JsMap.t (nat * nat) :=
  flat_map
    (fun '(h, prevIdx) =>
       match JsMap.get (colMapOf c) h with
       | Some currIdx => [(h, (prevIdx, currIdx))]
       | None => []
       end)
    (colMapOf p).

Definition cellEdit (sheet : string) (prevRow currRow : row)
  (actualRowNum : nat) (entry : string * (nat * nat)) : list ChangeEvent :=
  let '(_, (prevIdx, currIdx)) := entry in
  if (prevIdx =? 0) && (currIdx =? 0) then []
  else
    let prevValue := definedOrEmpty (nth_error prevRow prevIdx) in
    let currValue := definedOrEmpty (nth_error currRow currIdx) in
    if (normalizeValue (Some prevValue) =? normalizeValue (Some currValue))%string
    then []
    else [editEvent sheet actualRowNum currIdx prevValue currValue].

Definition rowEdits (p c : table) (sheet : string) (entry : string * nat)
  : list ChangeEvent :=
  let '(k, prevRowIdx) := entry in
  match JsMap.get (rowMapOf c) k with
  | Some currRowIdx =>
      match nth_error (tableData p) prevRowIdx,
            nth_error (tableData c) currRowIdx with
      | Some prevRow, Some currRow =>
          flat_map (cellEdit sheet prevRow currRow (currRowIdx + 2))
            (columnMappingOf p c)
      | _, _ => []
      end
  | None => []
  end.

Definition editedCells (p c : table) (sheet : string) : list ChangeEvent :=
  flat_map (rowEdits p c sheet) (rowMapOf p).

(** Everything one sheet contributes when both sides are arrays of rows. *)
Definition sheetEvents (p c : table) (sheet : string) : list ChangeEvent :=
  (insertedColumns p c sheet ++ removedColumns p c sheet)
  ++ (insertedRows p c sheet ++ removedRows p c sheet)
  ++ editedCells p c sheet.

(** The rows a snapshot yields for a name, when it yields rows. *)
Definition tableOf (data : SheetData) (sheet : string) : table :=
  match sheetOrEmpty data sheet with
  | Rows t => t
  | _ => []
  end.

(** Whether reading the name yields an array of rows: the snapshot owns it,
    or [Object.prototype] does not know it. *)
Definition readsRows (data : SheetData) (sheet : string) : bool :=
  match sheetOrEmpty data sheet with
  | Rows _ => true
  | _ => false
  end.

(** The letter of the digit [r], for [1 <= r <= 26]: A for 1, Z for 26. *)
Definition letter (r : nat) : string :=
  String (ascii_of_nat (64 + r)) EmptyString.

(** Whether every code unit of the string is one of A..Z. *)
Fixpoint upperCase (s : string) : bool :=
  match s with
  | EmptyString => true
  | String ch rest =>
      (65 <=? nat_of_ascii ch) && (nat_of_ascii ch <=? 90) && upperCase rest
  end.

Fixpoint allWhiteSpace (s : string) : bool :=
  match s with
  | EmptyString => true
  | String ch rest => isWhiteSpace ch && allWhiteSpace rest
  end.

Definition startsWithWhiteSpace (s : string) : bool :=
  match s with
  | EmptyString => false
  | String ch _ => isWhiteSpace ch
  end.

Fixpoint endsWithWhiteSpace (s : string) : bool :=
  match s with
  | EmptyString => false
  | String ch EmptyString => isWhiteSpace ch
  | String _ rest => endsWithWhiteSpace rest
  end.

(** The elements of a list in the order of their first occurrence, those
    in [seen] left out. *)
Fixpoint firsts (seen : list string) (xs : list string) : list string :=
  match xs with
  | [] => []
  | x :: rest =>
      if JsSet.has seen x then firsts seen rest
      else x :: firsts (seen ++ [x]) rest
  end.

Definition firstOccurrences (xs : list string) : list string := firsts [] xs.

(** The shape of what one sheet contributes to the result: its column
    events, then its row events, then its edits, all under its name. *)
Definition sheetBlock (sheet : string) (block : list ChangeEvent) : Prop :=
  exists cols rows edits,
    block = cols ++ rows ++ edits
    /\ Forall (fun e => isColumnEvent e = true) cols
    /\ Forall (fun e => isRowEvent e = true) rows
    /\ Forall (fun e => isEditEvent e = true) edits
    /\ Forall (fun e => sheetName e = sheet) block.

(** Data row [i] is [r], its key is not empty and no data row above it has
    the same key. *)
Definition firstWithKey (rows : table) (i : nat) (r : row) : Prop :=
  nth_error rows i = Some r
  /\ primaryKey r <> ""
  /\ forall j r', j < i -> nth_error rows j = Some r' ->
                  primaryKey r' <> primaryKey r.

(** No data row has the key [k]. *)
Definition keyAbsent (rows : table) (k : string) : Prop :=
  forall r', In r' rows -> primaryKey r' <> k.

(** Column [j] of the header row holds [v] and no column to its left has
    the same normalized text. *)
Definition firstWithHeader (header : row) (j : nat) (v : value) : Prop :=
  nth_error header j = Some v
  /\ forall j' v', j' < j -> nth_error header j' = Some v' ->
                   normalizeValue (Some v') <> normalizeValue (Some v).

(** No column of the header row has the normalized text [h]. *)
Definition headerAbsent (header : row) (h : string) : Prop :=
  forall v', In v' header -> normalizeValue (Some v') <> h.

(** The event seen from the other side: an insertion becomes the removal
    of the same rows or column and the other way round. *)
Definition mirrorType (k : ChangeType) : ChangeType :=
  match k with
  | INSERT_ROW => REMOVE_ROW
  | REMOVE_ROW => INSERT_ROW
  | INSERT_COLUMN => REMOVE_COLUMN
  | REMOVE_COLUMN => INSERT_COLUMN
  | other => other
  end.

Definition mirror (e : ChangeEvent) : ChangeEvent :=
  {| changeType := mirrorType (changeType e);
     sheetName := sheetName e;
     affectedRange := affectedRange e;
     cellAddress := cellAddress e;
     oldValue := oldValue e;
     newValue := newValue e;
     rowIndex := rowIndex e;
     columnIndex := columnIndex e;
     insertedData := deletedData e;
     deletedData := insertedData e |}.

(** What the coordinates of an event satisfy: they count from 1, the
    header row being row 1, and the notation and the index fields say the
    same as the numbers. *)
Definition wellPlaced (e : ChangeEvent) : Prop :=
  let g := affectedRange e in
  1 <= startRow g
  /\ 1 <= startColumn g
  /\ startColumn g <= endColumn g
  /\ (exists n, endRow g = Num n /\ startRow g <= n)
  /\ match changeType e with
     | INSERT_ROW | REMOVE_ROW =>
         2 <= startRow g
         /\ endRow g = Num (startRow g)
         /\ startColumn g = 1
         /\ rowIndex e = Some (startRow g)
         /\ a1Notation g
            = (natToString (startRow g) ++ ":" ++ natToString (startRow g))%string
     | INSERT_COLUMN | REMOVE_COLUMN =>
         startRow g = 1
         /\ startColumn g = endColumn g
         /\ columnIndex e = Some (startColumn g)
         /\ a1Notation g
            = (columnToLetter (startColumn g) ++ "1:"
               ++ columnToLetter (startColumn g)
               ++ jsnumToString (endRow g))%string
     | EDIT =>
         2 <= startRow g
         /\ endRow g = Num (startRow g)
         /\ startColumn g = endColumn g
         /\ cellAddress e = Some (a1Notation g)
         /\ a1Notation g
            = (columnToLetter (startColumn g) ++ natToString (startRow g))%string
     | _ => False
     end.

(** An entry of a map with its index moved up by [n]. *)
Definition shiftEntry (n : nat) (kv : string * nat) : string * nat :=
  (fst kv, n + snd kv).

(** Where column [j] is found once a column has been inserted at [n]. *)
Definition shiftIndex (n j : nat) : nat := if j <? n then j else S j.

(** The row [cr] is the row [pr] with one cell more at column [n]: every
    other cell, present or missing, is found one place to the right from
    [n] on. *)
Definition columnInsertedInRow (n : nat) (pr cr : row) : Prop :=
  forall j, nth_error cr (shiftIndex n j) = nth_error pr j.

(** Two cells that the detector cannot tell apart. *)
Definition sameNormalized (a b : value) : Prop :=
  normalizeValue (Some a) = normalizeValue (Some b).

(** Two data rows that agree, column by column, once a missing cell is read
    as the empty string and the cells are normalized. *)
Definition sameNormalizedRow (pr cr : row) : Prop :=
  forall j,
    normalizeValue (Some (definedOrEmpty (nth_error pr j)))
    = normalizeValue (Some (definedOrEmpty (nth_error cr j))).

(** What a snapshot answers under a name is a function that declares
    parameters: its [length] is positive while its element 0 is [undefined]. *)
Definition wantsArguments (o : sheetRef) : bool :=
  match o with
  | Fn (S _) => true
  | _ => false
  end.

(** The rows that the phases read out of an answer that is no such function:
    a function without parameters and [Object.prototype] itself are read as
    a sheet without rows. *)
Definition asTable (o : sheetRef) : table :=
  match o with
  | Rows t => t
  | _ => []
  end.

(* ------------------------------------------------------------------------- *)
(** ** Sizes the engine passes *)

(** The call of [Math.max] in the row matcher passes: it has one argument
    for each data row of either table and one more. *)
Definition rowsFit `{Engine} (p c : table) : Prop :=
  List.length (tableData p) + List.length (tableData c) + 1 <= argumentLimit.

(** The spread calls made for one sheet pass: the three [push] calls, and
    the calls of [Math.max] if there is a row event to make. *)
Definition sheetWithinLimit `{Engine} (p c : table) (sheet : string) : Prop :=
  (insertedRows p c sheet ++ removedRows p c sheet = [] \/ rowsFit p c)
  /\ List.length (insertedColumns p c sheet ++ removedColumns p c sheet)
     <= argumentLimit
  /\ List.length (insertedRows p c sheet ++ removedRows p c sheet)
     <= argumentLimit
  /\ List.length (editedCells p c sheet) <= argumentLimit.

(** Sizes of two tables under which every spread call of their comparison
    passes, whatever the tables hold: the data rows of both and one more,
    the columns of both header rows, and the cells under the previous
    header are each within the engine's bound. *)
Definition tableFits `{Engine} (p c : table) : Prop :=
  rowsFit p c
  /\ List.length (tableHeader p) + List.length (tableHeader c) <= argumentLimit
  /\ List.length (tableData p) * List.length (tableHeader p) <= argumentLimit.

(* ------------------------------------------------------------------------- *)
(** ** The monitor *)

(** The two module variables of the webhook server. *)
Record monitorState : Type := mkMonitor {
  previousSheetData : SheetData;
  isInitialized : bool
}.

(** What [await sheetsClient.getAllSheetData()] came to: a snapshot, or a
    rejection. *)
Inductive fetched : Type :=
| Fetched (data : SheetData)
| FetchFailed.

(** One run of [processChange], not interleaved with another one: the new
    state, and the events handed to [displayChanges] if it was called.
    Everything sits in one [try]: an exception of the fetch or of
    [detectChanges] is caught and logged, and the assignments to the
    module variables, which come after them, are then not reached. *)
Definition processChange `{Engine} (st : monitorState) (f : fetched)
  : monitorState * option (list ChangeEvent) :=
  match f with
  | FetchFailed => (st, None)
  | Fetched currentData =>
      if isInitialized st then
        match detectChanges (previousSheetData st) currentData with
        | Ok changes =>
            (mkMonitor currentData true,
             if 0 <? List.length changes then Some changes else None)
        | Throw _ => (st, None)
        end
      else (mkMonitor currentData true, None)
  end.

(** The runs for a sequence of notifications, one after the other. *)
Fixpoint processChanges `{Engine} (st : monitorState) (fs : list fetched)
  : monitorState * list (option (list ChangeEvent)) :=
  match fs with
  | [] => (st, [])
  | f :: rest =>
      let '(st1, shown) := processChange st f in
      let '(st2, shownRest) := processChanges st1 rest in
      (st2, shown :: shownRest)
  end.

(** Whether a fetch outcome, when it is a snapshot, owns the sheet name. *)
Definition ownsIfFetched (sheet : string) (f : fetched) : Prop :=
  match f with
  | Fetched data => In sheet (map fst data)
  | FetchFailed => True
  end.

(* ------------------------------------------------------------------------- *)
(** ** Reading column letters back *)

(** The number that a string of letters A..Z denotes in bijective base 26,
    on top of the number [acc] of the letters before it. *)
Fixpoint lettersValue (acc : nat) (s : string) : nat :=
  match s with
  | EmptyString => acc
  | String ch rest => lettersValue (26 * acc + (nat_of_ascii ch - 64)) rest
  end.

Definition columnOfLetters (s : string) : nat := lettersValue 0 s.

(* ------------------------------------------------------------------------- *)
(** ** Loops *)

(** A loop whose body only appends what [f] yields is a [flat_map]. *)
Lemma forOf_emit {A E} (f : A -> list E)
  (body : A -> list E -> result (list E)) (xs : list A) :
  (forall x s, In x xs -> body x s = Ok (s ++ f x)) ->
  forall s, forOf xs body s = Ok (s ++ flat_map f xs).
Proof.
  induction xs as [|x xs IH]; intros Hbody s; simpl.
  - now rewrite app_nil_r.
  - rewrite Hbody by now left. simpl.
    rewrite IH by (intros; apply Hbody; now right).
    now rewrite app_assoc.
Qed.

Lemma flat_map_nil {A E} (f : A -> list E) (xs : list A) :
  (forall x, In x xs -> f x = []) -> flat_map f xs = [].
Proof.
  induction xs as [|x xs IH]; intros H; simpl; [reflexivity|].
  rewrite H by now left. apply IH. intros; apply H; now right.
Qed.

(** When a single element of the list yields something, the [flat_map] is
    what that element yields. *)
Lemma flat_map_single {A E} (f : A -> list E) (xs ys : list A) (x : A) :
  (forall y, In y xs -> f y = []) ->
  (forall y, In y ys -> f y = []) ->
  flat_map f (xs ++ x :: ys) = f x.
Proof.
  intros Hxs Hys. rewrite flat_map_app. simpl.
  rewrite (flat_map_nil f xs Hxs), (flat_map_nil f ys Hys).
  now rewrite app_nil_r.
Qed.

Lemma flat_map_nil_inv {A E} (f : A -> list E) (xs : list A) :
  flat_map f xs = [] -> forall x, In x xs -> f x = [].
Proof.
  induction xs as [|y xs IH]; simpl; [contradiction|].
  intros H x [<-|Hin]; apply app_eq_nil in H; destruct H as [Hy Hxs]; auto.
Qed.

Lemma flat_map_length_le {A E} (f : A -> list E) (xs : list A) (n : nat) :
  (forall x, In x xs -> List.length (f x) <= n) ->
  List.length (flat_map f xs) <= List.length xs * n.
Proof.
  induction xs as [|y xs IH]; intros H; simpl; [lia|].
  rewrite length_app.
  assert (List.length (f y) <= n) by (apply H; now left).
  assert (List.length (flat_map f xs) <= List.length xs * n)
    by (apply IH; intros; apply H; now right).
  lia.
Qed.

(** A spread call within the engine's bound is the call. *)
Lemma spreadCall_passes {engine : Engine} {X Y} (f : list X -> Y) (args : list X) :
  List.length args <= argumentLimit -> spreadCall f args = Ok (f args).
Proof.
  intros Hle. unfold spreadCall.
  destruct (Nat.leb_spec (List.length args) argumentLimit);
    [reflexivity | lia].
Qed.

Lemma spreadCall_exceeds {engine : Engine} {X Y} (f : list X -> Y) (args : list X) :
  argumentLimit < List.length args -> spreadCall f args = Throw RangeError.
Proof.
  intros Hlt. unfold spreadCall.
  destruct (Nat.leb_spec (List.length args) argumentLimit);
    [lia | reflexivity].
Qed.

Lemma pushAll_passes {engine : Engine} {X} (changes evs : list X) :
  List.length evs <= argumentLimit -> pushAll changes evs = Ok (changes ++ evs).
Proof. intros Hle. unfold pushAll. now rewrite spreadCall_passes. Qed.

Lemma pushAll_Ok {engine : Engine} {X} (changes evs out : list X) :
  pushAll changes evs = Ok out -> out = changes ++ evs.
Proof.
  unfold pushAll, spreadCall.
  destruct (List.length evs <=? argumentLimit); [|discriminate].
  now intros [= <-].
Qed.

Lemma pushAll_nil {engine : Engine} {X} (changes : list X) :
  pushAll changes [] = Ok changes.
Proof. rewrite pushAll_passes; [now rewrite app_nil_r | simpl; lia]. Qed.

Lemma rowLengths_length (p c : table) (r : row) :
  List.length (rowLengths p c r) = List.length p + List.length c + 1.
Proof.
  unfold rowLengths. rewrite !length_app, !length_map.
  change (List.length [List.length r]) with 1. unfold row. lia.
Qed.

Lemma flat_map_ext_in {A E} (f g : A -> list E) (xs : list A) :
  (forall x, In x xs -> f x = g x) -> flat_map f xs = flat_map g xs.
Proof.
  induction xs as [|x xs IH]; intros H; simpl; [reflexivity|].
  rewrite H by now left. f_equal. apply IH. intros; apply H; now right.
Qed.

(* ------------------------------------------------------------------------- *)
(** ** Insertion-ordered maps *)

Section MapFacts.
Context {V : Type}.
Implicit Types (m : JsMap.t V) (k : string) (v : V).

Lemma get_In m k v : JsMap.get m k = Some v -> In (k, v) m.
Proof.
  induction m as [|[k' v'] m IH]; simpl; [discriminate|].
  destruct (String.eqb_spec k' k) as [->|Hne].
  - intros [= ->]. now left.
  - intros H. right. auto.
Qed.

Lemma has_true_iff m k : JsMap.has m k = true <-> In k (map fst m).
Proof.
  unfold JsMap.has. induction m as [|[k' v'] m IH]; simpl.
  - split; [discriminate | tauto].
  - destruct (String.eqb_spec k' k) as [->|Hne].
    + split; auto.
    + rewrite IH. split; [auto | intros [H|H]; [contradiction | exact H]].
Qed.

Lemma has_false_iff m k : JsMap.has m k = false <-> ~ In k (map fst m).
Proof.
  rewrite <- has_true_iff. destruct (JsMap.has m k); split; congruence.
Qed.

Lemma has_In m k v : In (k, v) m -> JsMap.has m k = true.
Proof.
  intros H. apply has_true_iff. apply (in_map fst) in H. exact H.
Qed.

Lemma has_get m k : JsMap.has m k = true -> exists v, JsMap.get m k = Some v.
Proof.
  unfold JsMap.has. destruct (JsMap.get m k) as [v|]; [eauto | discriminate].
Qed.

Lemma get_has m k v : JsMap.get m k = Some v -> JsMap.has m k = true.
Proof. unfold JsMap.has. now intros ->. Qed.

(** With distinct keys every entry is the one [get] finds. *)
Lemma get_NoDup m k v :
  NoDup (map fst m) -> In (k, v) m -> JsMap.get m k = Some v.
Proof.
  induction m as [|[k' v'] m IH]; simpl; [tauto|].
  intros Hnd [H|H].
  - injection H as -> ->. now rewrite String.eqb_refl.
  - inversion Hnd as [|? ? Hnotin Hnd']; subst.
    destruct (String.eqb_spec k' k) as [->|Hne].
    + exfalso. apply Hnotin. apply (in_map fst) in H. exact H.
    + auto.
Qed.

Lemma set_fresh m k v : JsMap.has m k = false -> JsMap.set m k v = m ++ [(k, v)].
Proof.
  unfold JsMap.has. induction m as [|[k' v'] m IH]; simpl; [reflexivity|].
  destruct (String.eqb_spec k' k) as [->|Hne]; [discriminate|].
  intros H. now rewrite IH.
Qed.

Lemma has_app m m' k :
  JsMap.has (m ++ m') k = JsMap.has m k || JsMap.has m' k.
Proof.
  unfold JsMap.has. induction m as [|[k' v'] m IH]; simpl; [reflexivity|].
  destruct (String.eqb_spec k' k); [reflexivity | exact IH].
Qed.

Lemma has_single k k' v : JsMap.has [(k', v)] k = (k' =? k)%string.
Proof. unfold JsMap.has. simpl. now destruct (k' =? k)%string. Qed.
End MapFacts.

(* ------------------------------------------------------------------------- *)
(** ** First-occurrence-wins maps *)

Section KeyMapFacts.
Implicit Types (m : JsMap.t nat) (k : string) (ks : list (option string)).

Lemma addHeader_addOpt h i m : addHeader h i m = addOpt (headerKey h) i m.
Proof.
  unfold addHeader, addOpt, headerKey.
  destruct (JsMap.has m (normalizeValue (Some h))); reflexivity.
Qed.

Lemma addKey_addOpt r i m : addKey r i m = addOpt (rowKey r) i m.
Proof.
  unfold addKey, addOpt, rowKey, primaryKey.
  set (pk := normalizeValue (nth_error r 0)).
  destruct (truthyString pk); [|reflexivity].
  destruct (JsMap.has m pk); reflexivity.
Qed.

Lemma forEach_addHeader (h : row) i m :
  forEach h addHeader i m = buildFrom (map headerKey h) i m.
Proof.
  revert i m. induction h as [|x h IH]; intros i m; simpl; [reflexivity|].
  now rewrite IH, addHeader_addOpt.
Qed.

Lemma forEach_addKey (rows : table) i m :
  forEach rows addKey i m = buildFrom (map rowKey rows) i m.
Proof.
  revert i m. induction rows as [|x rows IH]; intros i m; simpl;
    [reflexivity|].
  now rewrite IH, addKey_addOpt.
Qed.

Lemma addOpt_fresh k i m :
  JsMap.has m k = false -> addOpt (Some k) i m = m ++ [(k, i)].
Proof. intros H. simpl. rewrite H. now apply set_fresh. Qed.

Lemma addOpt_present k i m :
  JsMap.has m k = true -> addOpt (Some k) i m = m.
Proof. intros H. simpl. now rewrite H. Qed.

Lemma buildFrom_app ks1 ks2 i m :
  buildFrom (ks1 ++ ks2) i m
  = buildFrom ks2 (i + List.length ks1) (buildFrom ks1 i m).
Proof.
  revert i m. induction ks1 as [|k ks1 IH]; intros i m; simpl.
  - now rewrite Nat.add_0_r.
  - rewrite IH. f_equal. lia.
Qed.

(** What a run of the loop appends depends on the map it starts from
    only through the membership of the keys it meets. *)
Lemma buildFrom_agree ks : forall i m m',
  (forall k, In (Some k) ks -> JsMap.has m k = JsMap.has m' k) ->
  exists ext, buildFrom ks i m = m ++ ext /\ buildFrom ks i m' = m' ++ ext.
Proof.
  induction ks as [|[k|] ks IH]; intros i m m' Hagree.
  - exists []. simpl. now rewrite !app_nil_r.
  - assert (Hk : JsMap.has m k = JsMap.has m' k) by (apply Hagree; now left).
    destruct (JsMap.has m k) eqn:Hm.
    + cbn [buildFrom]. rewrite !addOpt_present by congruence.
      apply IH. intros; apply Hagree; now right.
    + cbn [buildFrom]. rewrite !addOpt_fresh by congruence.
      destruct (IH (S i) (m ++ [(k, i)]) (m' ++ [(k, i)])) as (ext & E1 & E2).
      { intros k' Hin. rewrite !has_app. f_equal. apply Hagree. now right. }
      exists ((k, i) :: ext). rewrite E1, E2, <- !app_assoc. auto.
  - simpl. apply IH. intros; apply Hagree; now right.
Qed.

Lemma buildFrom_extends ks i m : exists ext, buildFrom ks i m = m ++ ext.
Proof.
  destruct (buildFrom_agree ks i m m) as (ext & E & _); eauto.
Qed.

Lemma buildFrom_incl ks i m e : In e m -> In e (buildFrom ks i m).
Proof.
  destruct (buildFrom_extends ks i m) as (ext & ->). intros. apply in_or_app.
  now left.
Qed.

Lemma addOpt_NoDup ko i m :
  NoDup (map fst m) -> NoDup (map fst (addOpt ko i m)).
Proof.
  intros Hnd. destruct ko as [k|]; [|exact Hnd].
  destruct (JsMap.has m k) eqn:Hm.
  - now rewrite addOpt_present.
  - rewrite addOpt_fresh by assumption. rewrite map_app. simpl.
    apply NoDup_app; [assumption | repeat constructor; intros [] |].
    intros a Ha [<-|[]]. apply has_false_iff in Hm. contradiction.
Qed.

Lemma buildFrom_NoDup ks : forall i m,
  NoDup (map fst m) -> NoDup (map fst (buildFrom ks i m)).
Proof.
  induction ks as [|k ks IH]; intros i m H; simpl; [exact H|].
  apply IH. now apply addOpt_NoDup.
Qed.

Lemma addOpt_has ko i m k :
  JsMap.has (addOpt ko i m) k = true
  <-> JsMap.has m k = true \/ ko = Some k.
Proof.
  destruct ko as [k'|]; simpl.
  - destruct (JsMap.has m k') eqn:Hm.
    + split; [auto | intros [H|[= ->]]; auto].
    + rewrite set_fresh by assumption. rewrite has_app, has_single.
      rewrite orb_true_iff. rewrite String.eqb_eq.
      split; intros [H|H]; auto; [subst; auto | injection H as ->; auto].
  - split; [auto | intros [H|H]; [auto | discriminate]].
Qed.

Lemma buildFrom_has ks : forall i m k,
  JsMap.has (buildFrom ks i m) k = true
  <-> JsMap.has m k = true \/ In (Some k) ks.
Proof.
  induction ks as [|ko ks IH]; intros i m k; simpl.
  - tauto.
  - rewrite IH, addOpt_has. split; intros H; intuition auto.
Qed.

Lemma addOpt_entry ko i m k j :
  In (k, j) (addOpt ko i m) -> In (k, j) m \/ (j = i /\ ko = Some k).
Proof.
  destruct ko as [k'|]; simpl; [|auto].
  destruct (JsMap.has m k') eqn:Hm; [auto|].
  rewrite set_fresh by assumption. intros H. apply in_app_or in H.
  destruct H as [H|[H|[]]]; [auto|]. injection H as -> ->. auto.
Qed.

(** An entry made by the loop records the position of its key. *)
Lemma buildFrom_entry ks : forall i m k j,
  In (k, j) (buildFrom ks i m) ->
  In (k, j) m \/ (i <= j /\ nth_error ks (j - i) = Some (Some k)).
Proof.
  induction ks as [|ko ks IH]; intros i m k j H; simpl in H; [auto|].
  apply IH in H. destruct H as [H|[Hle Hn]].
  - apply addOpt_entry in H. destruct H as [H|[-> ->]]; [auto|].
    right. split; [lia|]. now rewrite Nat.sub_diag.
  - right. split; [lia|].
    replace (j - i) with (S (j - S i)) by lia. exact Hn.
Qed.

(** The first position of a key that the map does not hold yet is the one
    recorded for it. *)
Lemma buildFrom_first ks : forall i m k j,
  nth_error ks j = Some (Some k) ->
  (forall j', j' < j -> nth_error ks j' <> Some (Some k)) ->
  JsMap.has m k = false ->
  In (k, i + j) (buildFrom ks i m).
Proof.
  induction ks as [|ko ks IH]; intros i m k j Hn Hfirst Hm.
  - destruct j; discriminate.
  - destruct j as [|j]; simpl in Hn.
    + injection Hn as ->. cbn [buildFrom]. apply buildFrom_incl.
      rewrite addOpt_fresh by assumption. rewrite Nat.add_0_r.
      apply in_or_app. right. now left.
    + cbn [buildFrom]. replace (i + S j) with (S i + j) by lia.
      apply IH; [assumption | |].
      * intros j' Hlt. apply (Hfirst (S j')). lia.
      * destruct (JsMap.has (addOpt ko i m) k) eqn:E; [|reflexivity].
        apply addOpt_has in E. destruct E as [E|E]; [congruence|].
        exfalso. apply (Hfirst 0); [lia | now subst].
Qed.
End KeyMapFacts.

(* ------------------------------------------------------------------------- *)
(** ** The phases on two arrays of rows *)

Section OnRows.
Implicit Types (p c t : table) (sheet : string).

Lemma headerOf_Rows t : headerOf (Rows t) = Some (tableHeader t).
Proof. now destruct t. Qed.

Lemma dataRowsOf_Rows t : dataRowsOf (Rows t) = Ok (tableData t).
Proof. destruct t as [|h [|r t]]; reflexivity. Qed.

Lemma buildColMap_Rows t : buildColMap (headerOf (Rows t)) = Ok (colMapOf t).
Proof. now rewrite headerOf_Rows. Qed.

Lemma columnData_Rows t idx : columnData (Rows t) idx = Ok (columnValues t idx).
Proof. destruct t as [|h [|r t]]; reflexivity. Qed.

Lemma colMapOf_eq t : colMapOf t = buildFrom (map headerKey (tableHeader t)) 0 [].
Proof. apply forEach_addHeader. Qed.

Lemma rowMapOf_eq t : rowMapOf t = buildFrom (map rowKey (tableData t)) 0 [].
Proof. apply forEach_addKey. Qed.

Lemma colMapOf_NoDup t : NoDup (map fst (colMapOf t)).
Proof. rewrite colMapOf_eq. apply buildFrom_NoDup. constructor. Qed.

Lemma rowMapOf_NoDup t : NoDup (map fst (rowMapOf t)).
Proof. rewrite rowMapOf_eq. apply buildFrom_NoDup. constructor. Qed.

(** Every index a header map holds is a column of the header row. *)
Lemma colMapOf_entry t h i :
  In (h, i) (colMapOf t) ->
  exists v, nth_error (tableHeader t) i = Some v
            /\ normalizeValue (Some v) = h.
Proof.
  rewrite colMapOf_eq. intros H. apply buildFrom_entry in H.
  destruct H as [[]|[_ H]]. rewrite Nat.sub_0_r, nth_error_map in H.
  destruct (nth_error (tableHeader t) i) as [v|]; [|discriminate].
  exists v. split; [reflexivity|]. now injection H.
Qed.

(** Every index a key map holds is a data row, and the row has that key. *)
Lemma rowMapOf_entry t k i :
  In (k, i) (rowMapOf t) ->
  exists r, nth_error (tableData t) i = Some r /\ rowKey r = Some k.
Proof.
  rewrite rowMapOf_eq. intros H. apply buildFrom_entry in H.
  destruct H as [[]|[_ H]]. rewrite Nat.sub_0_r, nth_error_map in H.
  destruct (nth_error (tableData t) i) as [r|]; [|discriminate].
  exists r. split; [reflexivity|]. now injection H.
Qed.

Lemma detectColumnChanges_Rows p c sheet :
  detectColumnChanges (Rows p) (Rows c) sheet
  = Ok (insertedColumns p c sheet ++ removedColumns p c sheet).
Proof.
  unfold detectColumnChanges. rewrite !buildColMap_Rows. cbn [bind].
  unfold JsMap.entries.
  rewrite forOf_emit with
    (f := fun '(h, i) =>
            if JsMap.has (colMapOf p) h then []
            else [insertColumnEvent sheet i (maxRowOf p c) (columnValues c i)]).
  2:{ intros [h i] s _. destruct (JsMap.has (colMapOf p) h); simpl.
      - now rewrite app_nil_r.
      - now rewrite columnData_Rows. }
  cbn [bind].
  rewrite forOf_emit with
    (f := fun '(h, i) =>
            if JsMap.has (colMapOf c) h then []
            else [removeColumnEvent sheet i (maxRowOf p c) (columnValues p i)]).
  2:{ intros [h i] s _. destruct (JsMap.has (colMapOf c) h); simpl.
      - now rewrite app_nil_r.
      - now rewrite columnData_Rows. }
  reflexivity.
Qed.

(** Within the engine's bound the row matcher makes its events. *)
Lemma detectRowChanges_fit {engine : Engine} p c sheet :
  rowsFit p c ->
  detectRowChanges (Rows p) (Rows c) sheet
  = Ok (insertedRows p c sheet ++ removedRows p c sheet).
Proof.
  intros Hfit. unfold rowsFit in Hfit.
  unfold detectRowChanges. rewrite !dataRowsOf_Rows. cbn [bind].
  unfold JsMap.entries. fold (rowMapOf p). fold (rowMapOf c).
  assert (Hmax : forall r,
            spreadCall mathMax (rowLengths (tableData p) (tableData c) r)
            = Ok (maxColOf (tableData p) (tableData c) r)).
  { intros r. unfold maxColOf. apply spreadCall_passes.
    rewrite rowLengths_length. lia. }
  rewrite forOf_emit with
    (f := fun '(k, i) =>
            if JsMap.has (rowMapOf p) k then []
            else match nth_error (tableData c) i with
                 | Some r => [insertRowEvent sheet (i + 2)
                                (maxColOf (tableData p) (tableData c) r) r]
                 | None => []
                 end).
  2:{ intros [k i] s Hin. destruct (JsMap.has (rowMapOf p) k); simpl.
      - now rewrite app_nil_r.
      - apply rowMapOf_entry in Hin. destruct Hin as (r & -> & _).
        now rewrite Hmax. }
  cbn [bind].
  rewrite forOf_emit with
    (f := fun '(k, i) =>
            if JsMap.has (rowMapOf c) k then []
            else match nth_error (tableData p) i with
                 | Some r => [removeRowEvent sheet (i + 2)
                                (maxColOf (tableData p) (tableData c) r) r]
                 | None => []
                 end).
  2:{ intros [k i] s Hin. destruct (JsMap.has (rowMapOf c) k); simpl.
      - now rewrite app_nil_r.
      - apply rowMapOf_entry in Hin. destruct Hin as (r & -> & _).
        now rewrite Hmax. }
  reflexivity.
Qed.

(** With no row event to make, [Math.max] is never called. *)
Lemma detectRowChanges_none {engine : Engine} p c sheet :
  insertedRows p c sheet = [] -> removedRows p c sheet = [] ->
  detectRowChanges (Rows p) (Rows c) sheet = Ok [].
Proof.
  intros Hins Hrem.
  unfold detectRowChanges. rewrite !dataRowsOf_Rows. cbn [bind].
  unfold JsMap.entries. fold (rowMapOf p). fold (rowMapOf c).
  rewrite forOf_emit with (f := fun _ => @nil ChangeEvent).
  2:{ intros [k i] s Hin. rewrite app_nil_r.
      pose proof (flat_map_nil_inv _ _ Hins (k, i) Hin) as Hnil.
      cbn beta iota in Hnil.
      destruct (JsMap.has (rowMapOf p) k); simpl; [reflexivity|].
      apply rowMapOf_entry in Hin. destruct Hin as (r & Hr & _).
      rewrite Hr in Hnil. discriminate. }
  cbn [bind].
  rewrite forOf_emit with (f := fun _ => @nil ChangeEvent).
  2:{ intros [k i] s Hin. rewrite app_nil_r.
      pose proof (flat_map_nil_inv _ _ Hrem (k, i) Hin) as Hnil.
      cbn beta iota in Hnil.
      destruct (JsMap.has (rowMapOf c) k); simpl; [reflexivity|].
      apply rowMapOf_entry in Hin. destruct Hin as (r & Hr & _).
      rewrite Hr in Hnil. discriminate. }
  cbn [bind app]. f_equal.
  rewrite !flat_map_nil; auto.
Qed.

Lemma detectRowChanges_Rows {engine : Engine} p c sheet :
  insertedRows p c sheet ++ removedRows p c sheet = [] \/ rowsFit p c ->
  detectRowChanges (Rows p) (Rows c) sheet
  = Ok (insertedRows p c sheet ++ removedRows p c sheet).
Proof.
  intros [Hnil|Hfit]; [|now apply detectRowChanges_fit].
  rewrite Hnil. apply app_eq_nil in Hnil. destruct Hnil.
  now apply detectRowChanges_none.
Qed.
End OnRows.

Section EditsOnRows.
Implicit Types (p c t : table) (sheet : string).

(** The loop that intersects the two header maps appends one entry for
    each header of the previous map that the current map holds too. *)
Lemma columnMapping_loop (currColMap : JsMap.t nat) (es : list (string * nat)) :
  forall cm0 : JsMap.t (nat * nat),
  NoDup (map fst es) ->
  (forall h, In h (map fst es) -> ~ In h (map fst cm0)) ->
  forOf es
    (fun '(headerName, prevIdx) (columnMapping : JsMap.t (nat * nat)) =>
       if JsMap.has currColMap headerName then
         match JsMap.get currColMap headerName with
         | Some currIdx =>
             Ok (JsMap.set columnMapping headerName (prevIdx, currIdx))
         | None => Throw TypeError
         end
       else Ok columnMapping)
    cm0
  = Ok (cm0 ++ flat_map
                 (fun '(h, prevIdx) =>
                    match JsMap.get currColMap h with
                    | Some currIdx => [(h, (prevIdx, currIdx))]
                    | None => []
                    end) es).
Proof.
  induction es as [|[h pi] es IH]; intros cm0 Hnd Hdisj; simpl.
  - now rewrite app_nil_r.
  - inversion Hnd as [|? ? Hnotin Hnd']; subst.
    unfold JsMap.has at 1.
    destruct (JsMap.get currColMap h) as [ci|] eqn:Hget; simpl.
    + rewrite set_fresh.
      2:{ apply has_false_iff. apply Hdisj. now left. }
      rewrite IH; [now rewrite <- app_assoc | assumption |].
      intros h' Hin. rewrite map_app, in_app_iff. simpl.
      intros [H|[<-|[]]]; [|contradiction].
      revert H. apply Hdisj. now right.
    + apply IH; [assumption|]. intros h' Hin. apply Hdisj. now right.
Qed.

Lemma scanCell_emit sheet (prevRow currRow : row) n entry changes :
  scanCell sheet (Some prevRow) (Some currRow) n entry changes
  = Ok (changes ++ cellEdit sheet prevRow currRow n entry).
Proof.
  destruct entry as [h [pi ci]]. unfold scanCell, cellEdit.
  destruct ((pi =? 0) && (ci =? 0)); [now rewrite app_nil_r|].
  destruct (String.eqb _ _); simpl; [now rewrite app_nil_r | reflexivity].
Qed.

Lemma detectCellEdits_Rows p c sheet :
  detectCellEdits (Rows p) (Rows c) sheet = Ok (editedCells p c sheet).
Proof.
  unfold detectCellEdits. rewrite !dataRowsOf_Rows. cbn [bind].
  rewrite !buildColMap_Rows. cbn [bind]. unfold JsMap.entries.
  rewrite columnMapping_loop;
    [| apply colMapOf_NoDup | intros h _ []].
  cbn [bind app]. fold (columnMappingOf p c).
  fold (rowMapOf p). fold (rowMapOf c).
  rewrite forOf_emit with (f := rowEdits p c sheet); [reflexivity|].
  intros [k pi] s Hin. unfold rowEdits, JsMap.has.
  destruct (JsMap.get (rowMapOf c) k) as [ci|] eqn:Hget; simpl.
  - apply rowMapOf_entry in Hin. destruct Hin as (pr & -> & _).
    apply get_In, rowMapOf_entry in Hget. destruct Hget as (cr & -> & _).
    apply forOf_emit. intros e s' _. apply scanCell_emit.
  - now rewrite app_nil_r.
Qed.

(** With nothing to report, every spread call passes. *)
Lemma sheetWithinLimit_nil {engine : Engine} p c sheet :
  sheetEvents p c sheet = [] -> sheetWithinLimit p c sheet.
Proof.
  unfold sheetEvents, sheetWithinLimit. intros H.
  apply app_eq_nil in H. destruct H as [Hcols H].
  apply app_eq_nil in H. destruct H as [Hrows Hedits].
  rewrite Hcols, Hrows, Hedits. simpl. repeat split; auto; lia.
Qed.

(** One sheet, read as arrays of rows on both sides. *)
Lemma detectSheet_Rows {engine : Engine} (A B : SheetData) sheet p c changes :
  sheetOrEmpty A sheet = Rows p ->
  sheetOrEmpty B sheet = Rows c ->
  sheetWithinLimit p c sheet ->
  detectSheet A B sheet changes = Ok (changes ++ sheetEvents p c sheet).
Proof.
  intros Hp Hc (Hmax & Hcols & Hrows & Hedits).
  unfold detectSheet, sheetEvents. rewrite Hp, Hc.
  destruct (isZero (lengthOf (Rows p)) && isZero (lengthOf (Rows c))) eqn:E.
  - apply andb_true_iff in E. destruct E as [Ep Ec].
    destruct p; [|discriminate]. destruct c; [|discriminate].
    now rewrite app_nil_r.
  - rewrite detectColumnChanges_Rows. cbn [bind].
    rewrite pushAll_passes by assumption. cbn [bind].
    rewrite detectRowChanges_Rows by assumption. cbn [bind].
    rewrite pushAll_passes by assumption. cbn [bind].
    rewrite detectCellEdits_Rows. cbn [bind].
    rewrite pushAll_passes by assumption. cbn [bind].
    now rewrite <- !app_assoc.
Qed.
End EditsOnRows.

(* ------------------------------------------------------------------------- *)
(** ** Sheet names and snapshots *)

Section Snapshots.
Implicit Types (A B : SheetData) (sheet : string).

Lemma JsSet_has_iff (s : JsSet.t) x : JsSet.has s x = true <-> In x s.
Proof.
  unfold JsSet.has. rewrite existsb_exists. split.
  - intros (y & Hin & Heq). apply String.eqb_eq in Heq. now subst.
  - intros H. exists x. split; [assumption | apply String.eqb_refl].
Qed.

Lemma JsSet_add_In (s : JsSet.t) x y : In y (JsSet.add s x) <-> In y s \/ y = x.
Proof.
  unfold JsSet.add. destruct (JsSet.has s x) eqn:E.
  - apply JsSet_has_iff in E. split; [auto | intros [H| ->]; auto].
  - rewrite in_app_iff. simpl. split; intros [H|H]; auto.
    + destruct H as [<-|[]]. auto.
Qed.

Lemma JsSet_fold_In xs : forall (s : JsSet.t) y,
  In y (fold_left JsSet.add xs s) <-> In y s \/ In y xs.
Proof.
  induction xs as [|x xs IH]; intros s y; simpl.
  - tauto.
  - rewrite IH, JsSet_add_In. split; intros H; intuition auto.
Qed.

Lemma JsSet_ofList_In xs y : In y (JsSet.ofList xs) <-> In y xs.
Proof. unfold JsSet.ofList. rewrite JsSet_fold_In. simpl. tauto. Qed.

Lemma JsSet_add_NoDup (s : JsSet.t) x : NoDup s -> NoDup (JsSet.add s x).
Proof.
  intros H. unfold JsSet.add. destruct (JsSet.has s x) eqn:E; [assumption|].
  apply NoDup_app; [assumption | repeat constructor; intros [] |].
  intros a Ha [<-|[]]. apply JsSet_has_iff in Ha. congruence.
Qed.

Lemma JsSet_ofList_NoDup xs : NoDup (JsSet.ofList xs).
Proof.
  unfold JsSet.ofList. assert (H : NoDup (@nil string)) by constructor.
  revert H. generalize (@nil string). induction xs as [|x xs IH]; intros s H.
  - exact H.
  - simpl. apply IH. now apply JsSet_add_NoDup.
Qed.

Lemma allSheetNames_In A B sheet :
  In sheet (allSheetNames A B)
  <-> In sheet (map fst A) \/ In sheet (map fst B).
Proof. unfold allSheetNames. now rewrite JsSet_ofList_In, in_app_iff. Qed.

(** A name the snapshot owns reads as its rows. *)
Lemma sheetOrEmpty_own A sheet :
  In sheet (map fst A) ->
  exists t, JsMap.get A sheet = Some t /\ sheetOrEmpty A sheet = Rows t.
Proof.
  intros H. apply has_true_iff, has_get in H. destruct H as (t & Ht).
  exists t. split; [assumption|]. unfold sheetOrEmpty, getProperty.
  now rewrite Ht.
Qed.

Lemma readsRows_own A sheet : In sheet (map fst A) -> readsRows A sheet = true.
Proof.
  intros H. apply sheetOrEmpty_own in H. destruct H as (t & _ & E).
  unfold readsRows. now rewrite E.
Qed.

Lemma readsRows_tableOf A sheet :
  readsRows A sheet = true -> sheetOrEmpty A sheet = Rows (tableOf A sheet).
Proof.
  unfold readsRows, tableOf. now destruct (sheetOrEmpty A sheet).
Qed.

(** When every name reads as rows on both sides the result is the
    concatenation, name by name, of what each sheet contributes. *)
Lemma detectChanges_rows {engine : Engine} A B :
  (forall sheet, In sheet (allSheetNames A B) ->
     readsRows A sheet = true /\ readsRows B sheet = true
     /\ sheetWithinLimit (tableOf A sheet) (tableOf B sheet) sheet) ->
  detectChanges A B
  = Ok (flat_map (fun sheet => sheetEvents (tableOf A sheet) (tableOf B sheet) sheet)
          (allSheetNames A B)).
Proof.
  intros H. unfold detectChanges.
  rewrite forOf_emit with
    (f := fun sheet => sheetEvents (tableOf A sheet) (tableOf B sheet) sheet);
    [reflexivity|].
  intros sheet s Hin. destruct (H sheet Hin) as (HA & HB & Hfit).
  apply detectSheet_Rows; [now apply readsRows_tableOf .. | exact Hfit].
Qed.
End Snapshots.

(* ------------------------------------------------------------------------- *)
(** ** Tables that agree on their header or on their keys *)

Section Agreement.
Implicit Types (p c t : table) (sheet : string).

Lemma colMapOf_header p c : tableHeader p = tableHeader c -> colMapOf p = colMapOf c.
Proof. unfold colMapOf. now intros ->. Qed.

Lemma rowMapOf_keys p c :
  map rowKey (tableData p) = map rowKey (tableData c) -> rowMapOf p = rowMapOf c.
Proof. rewrite !rowMapOf_eq. now intros ->. Qed.

Lemma columns_same_header p c sheet :
  tableHeader p = tableHeader c ->
  insertedColumns p c sheet ++ removedColumns p c sheet = [].
Proof.
  intros H. apply colMapOf_header in H.
  unfold insertedColumns, removedColumns. rewrite H.
  rewrite !flat_map_nil; [reflexivity | |];
    intros [h i] Hin; now rewrite (has_In _ _ _ Hin).
Qed.

Lemma rows_same_keys p c sheet :
  map rowKey (tableData p) = map rowKey (tableData c) ->
  insertedRows p c sheet ++ removedRows p c sheet = [].
Proof.
  intros H. apply rowMapOf_keys in H.
  unfold insertedRows, removedRows. rewrite H.
  rewrite !flat_map_nil; [reflexivity | |];
    intros [k i] Hin; now rewrite (has_In _ _ _ Hin).
Qed.

(** With equal header rows every shared column keeps its index. *)
Lemma columnMappingOf_same_header p c :
  tableHeader p = tableHeader c ->
  columnMappingOf p c = map (fun '(h, i) => (h, (i, i))) (colMapOf p).
Proof.
  intros H. apply colMapOf_header in H. unfold columnMappingOf.
  rewrite <- H. pose proof (colMapOf_NoDup p) as Hnd.
  transitivity (flat_map (fun '(h, i) => [(h, (i, i))]) (colMapOf p)).
  - apply flat_map_ext_in. intros [h i] Hin.
    now rewrite (get_NoDup _ _ _ Hnd Hin).
  - clear Hnd H. induction (colMapOf p) as [|[h i] l IH]; simpl;
      [reflexivity | now f_equal].
Qed.

Lemma cellEdit_same sheet (r : row) n h i : cellEdit sheet r r n (h, (i, i)) = [].
Proof.
  unfold cellEdit. destruct ((i =? 0) && (i =? 0)); [reflexivity|].
  now rewrite String.eqb_refl.
Qed.

Lemma cellEdits_same_row p c sheet (r : row) n :
  tableHeader p = tableHeader c ->
  flat_map (cellEdit sheet r r n) (columnMappingOf p c) = [].
Proof.
  intros H. rewrite (columnMappingOf_same_header _ _ H).
  apply flat_map_nil. intros [h [a b]] Hin. apply in_map_iff in Hin.
  destruct Hin as ([h' i] & [= <- <- <-] & _). apply cellEdit_same.
Qed.

Lemma sheetEvents_same t sheet : sheetEvents t t sheet = [].
Proof.
  unfold sheetEvents.
  rewrite columns_same_header, rows_same_keys by reflexivity. simpl.
  unfold editedCells. apply flat_map_nil. intros [k i] Hin.
  unfold rowEdits. rewrite (get_NoDup _ _ _ (rowMapOf_NoDup t) Hin).
  apply rowMapOf_entry in Hin. destruct Hin as (r & -> & _).
  now apply cellEdits_same_row.
Qed.
End Agreement.

(* ------------------------------------------------------------------------- *)
(** ** How many events a sheet can give *)

Section Sizes.
Implicit Types (p c t : table) (sheet : string).

Lemma addOpt_length (ko : option string) i (m : JsMap.t nat) :
  List.length (addOpt ko i m) <= S (List.length m).
Proof.
  destruct ko as [k|]; [|simpl; lia].
  destruct (JsMap.has m k) eqn:E.
  - rewrite addOpt_present by assumption. lia.
  - rewrite addOpt_fresh, length_app by assumption. simpl. lia.
Qed.

Lemma buildFrom_length (ks : list (option string)) : forall i (m : JsMap.t nat),
  List.length (buildFrom ks i m) <= List.length m + List.length ks.
Proof.
  induction ks as [|k ks IH]; intros i m; cbn [buildFrom]; [simpl; lia|].
  pose proof (IH (S i) (addOpt k i m)). pose proof (addOpt_length k i m).
  simpl. lia.
Qed.

Lemma colMapOf_length t : List.length (colMapOf t) <= List.length (tableHeader t).
Proof.
  rewrite colMapOf_eq.
  pose proof (buildFrom_length (map headerKey (tableHeader t)) 0 []) as H.
  rewrite length_map in H. exact H.
Qed.

Lemma rowMapOf_length t : List.length (rowMapOf t) <= List.length (tableData t).
Proof.
  rewrite rowMapOf_eq.
  pose proof (buildFrom_length (map rowKey (tableData t)) 0 []) as H.
  rewrite length_map in H. exact H.
Qed.

Lemma flat_map_length_le1 {X E} (f : X -> list E) (xs : list X) :
  (forall x, In x xs -> List.length (f x) <= 1) ->
  List.length (flat_map f xs) <= List.length xs.
Proof.
  intros H. pose proof (flat_map_length_le f xs 1 H). lia.
Qed.

Lemma columnEvents_length p c sheet :
  List.length (insertedColumns p c sheet ++ removedColumns p c sheet)
  <= List.length (tableHeader p) + List.length (tableHeader c).
Proof.
  rewrite length_app. pose proof (colMapOf_length p). pose proof (colMapOf_length c).
  assert (List.length (insertedColumns p c sheet) <= List.length (colMapOf c)).
  { apply flat_map_length_le1. intros [h i] _.
    destruct (JsMap.has (colMapOf p) h); simpl; lia. }
  assert (List.length (removedColumns p c sheet) <= List.length (colMapOf p)).
  { apply flat_map_length_le1. intros [h i] _.
    destruct (JsMap.has (colMapOf c) h); simpl; lia. }
  lia.
Qed.

Lemma rowEvents_length p c sheet :
  List.length (insertedRows p c sheet ++ removedRows p c sheet)
  <= List.length (tableData p) + List.length (tableData c).
Proof.
  rewrite length_app. pose proof (rowMapOf_length p). pose proof (rowMapOf_length c).
  assert (List.length (insertedRows p c sheet) <= List.length (rowMapOf c)).
  { apply flat_map_length_le1. intros [k i] _.
    destruct (JsMap.has (rowMapOf p) k); [simpl; lia|].
    destruct (nth_error (tableData c) i); simpl; lia. }
  assert (List.length (removedRows p c sheet) <= List.length (rowMapOf p)).
  { apply flat_map_length_le1. intros [k i] _.
    destruct (JsMap.has (rowMapOf c) k); [simpl; lia|].
    destruct (nth_error (tableData p) i); simpl; lia. }
  lia.
Qed.

Lemma columnMappingOf_length p c :
  List.length (columnMappingOf p c) <= List.length (tableHeader p).
Proof.
  pose proof (colMapOf_length p).
  assert (List.length (columnMappingOf p c) <= List.length (colMapOf p)).
  { apply flat_map_length_le1. intros [h i] _.
    destruct (JsMap.get (colMapOf c) h); simpl; lia. }
  lia.
Qed.

Lemma editedCells_length p c sheet :
  List.length (editedCells p c sheet)
  <= List.length (tableData p) * List.length (tableHeader p).
Proof.
  unfold editedCells.
  pose proof (rowMapOf_length p) as Hrows.
  pose proof (columnMappingOf_length p c) as Hcols.
  assert (H : List.length (flat_map (rowEdits p c sheet) (rowMapOf p))
              <= List.length (rowMapOf p) * List.length (columnMappingOf p c)).
  { apply flat_map_length_le. intros [k i] _. unfold rowEdits.
    destruct (JsMap.get (rowMapOf c) k) as [ci|]; [|simpl; lia].
    destruct (nth_error (tableData p) i) as [pr|]; [|simpl; lia].
    destruct (nth_error (tableData c) ci) as [cr|]; [|simpl; lia].
    apply flat_map_length_le1. intros [h [pj cj]] _. unfold cellEdit.
    destruct ((pj =? 0) && (cj =? 0)); [simpl; lia|].
    destruct (String.eqb _ _); simpl; lia. }
  pose proof (Nat.mul_le_mono _ _ _ _ Hrows Hcols). lia.
Qed.

(** Tables of these sizes keep every spread call within the bound. *)
Lemma tableFits_within {engine : Engine} p c sheet :
  tableFits p c -> sheetWithinLimit p c sheet.
Proof.
  intros (Hrows & Hcols & Hcells). unfold sheetWithinLimit.
  pose proof (columnEvents_length p c sheet).
  pose proof (rowEvents_length p c sheet).
  pose proof (editedCells_length p c sheet).
  unfold rowsFit in Hrows.
  split; [right; exact Hrows|]. repeat split; lia.
Qed.
End Sizes.

(* ------------------------------------------------------------------------- *)
(** ** Idempotence *)

(** C1.  Comparing a snapshot with itself yields the empty event list:
    [detectChanges A A] returns, and returns no event of any kind, for
    every snapshot [A]. *)
Theorem detectChanges_idempotent {engine : Engine} (A : SheetData) : detectChanges A A = Ok [].
Proof.
  rewrite detectChanges_rows.
  - f_equal. apply flat_map_nil. intros sheet _. apply sheetEvents_same.
  - intros sheet Hin. apply allSheetNames_In in Hin.
    assert (H : In sheet (map fst A)) by tauto.
    split; [now apply readsRows_own|]. split; [now apply readsRows_own|].
    apply sheetWithinLimit_nil, sheetEvents_same.
Qed.

(* ------------------------------------------------------------------------- *)
(** ** The address formatter *)

Section ColumnLetters.
Local Open Scope string_scope.

Lemma append_assoc (a b c : string) : (a ++ b) ++ c = a ++ (b ++ c).
Proof. induction a as [|ch a IH]; simpl; [reflexivity | now rewrite IH]. Qed.

Lemma append_snoc_inj (a b : string) (x y : ascii) :
  a ++ String x "" = b ++ String y "" -> a = b /\ x = y.
Proof.
  revert b. induction a as [|ch a IH]; intros [|ch' b] H; simpl in H.
  - now injection H.
  - injection H as _ H. destruct b; discriminate.
  - injection H as _ H. destruct a; discriminate.
  - injection H as -> H. apply IH in H. destruct H as [-> ->]. auto.
Qed.

Lemma upperCase_app (a b : string) :
  upperCase (a ++ b) = upperCase a && upperCase b.
Proof.
  induction a as [|ch a IH]; simpl; [reflexivity|].
  now rewrite IH, andb_assoc.
Qed.

(** The loop prepends the letters of [column] to what it is given. *)
Lemma columnToLetter_loop_acc (column : nat) : forall acc,
  columnToLetter_loop column acc = columnToLetter_loop column "" ++ acc.
Proof.
  induction column as [column IH] using lt_wf_ind. intros acc.
  destruct column as [|c].
  - now rewrite !columnToLetter_loop_equation_1.
  - rewrite !columnToLetter_loop_equation_2.
    assert (Hlt : c / 26 < S c).
    { assert (c / 26 <= c) by (apply Nat.Div0.div_le_upper_bound; lia). lia. }
    rewrite (IH _ Hlt (_ ++ acc)), (IH _ Hlt (_ ++ "")).
    now rewrite append_assoc, append_assoc.
Qed.

Lemma columnToLetter_zero : columnToLetter 0 = "".
Proof. unfold columnToLetter. now rewrite columnToLetter_loop_equation_1. Qed.

(** One turn of the loop: the last letter is the digit [r], the letters
    before it are those of the quotient. *)
Lemma columnToLetter_step (q r : nat) :
  1 <= r <= 26 ->
  columnToLetter (26 * q + r) = columnToLetter q ++ letter r.
Proof.
  intros Hr. unfold columnToLetter.
  replace (26 * q + r) with (S (q * 26 + (r - 1))) by lia.
  rewrite columnToLetter_loop_equation_2.
  assert (Hd : (q * 26 + (r - 1)) / 26 = q)
    by (symmetry; apply Nat.div_unique with (r := r - 1); lia).
  assert (Hm : (q * 26 + (r - 1)) mod 26 = r - 1)
    by (symmetry; apply Nat.mod_unique with (q := q); lia).
  rewrite Hd, Hm.
  rewrite columnToLetter_loop_acc. unfold letter.
  replace (65 + (r - 1)) with (64 + r) by lia. reflexivity.
Qed.

Lemma columnToLetter_positive (n : nat) :
  0 < n -> exists q r, 1 <= r <= 26 /\ n = 26 * q + r /\ q < n.
Proof.
  intros Hn. exists ((n - 1) / 26), (S ((n - 1) mod 26)).
  pose proof (Nat.Div0.div_mod (n - 1) 26).
  pose proof (Nat.mod_upper_bound (n - 1) 26).
  repeat split; lia.
Qed.

Lemma columnToLetter_upperCase (n : nat) : upperCase (columnToLetter n) = true.
Proof.
  induction n as [n IH] using lt_wf_ind.
  destruct (Nat.eq_dec n 0) as [->|Hn];
    [now rewrite columnToLetter_zero|].
  destruct (columnToLetter_positive n) as (q & r & Hr & -> & Hq); [lia|].
  rewrite columnToLetter_step, upperCase_app, IH by assumption.
  unfold letter. cbn [upperCase andb].
  rewrite nat_ascii_embedding by lia.
  rewrite andb_true_r. apply andb_true_iff.
  split; apply Nat.leb_le; lia.
Qed.

Lemma columnToLetter_inj (n : nat) : forall m,
  columnToLetter n = columnToLetter m -> n = m.
Proof.
  induction n as [n IH] using lt_wf_ind. intros m H.
  destruct (Nat.eq_dec n 0) as [->|Hn], (Nat.eq_dec m 0) as [->|Hm];
    [reflexivity | | |].
  - destruct (columnToLetter_positive m) as (q & r & Hr & -> & _); [lia|].
    rewrite columnToLetter_step in H by assumption.
    destruct (columnToLetter q); discriminate.
  - destruct (columnToLetter_positive n) as (q & r & Hr & -> & _); [lia|].
    rewrite columnToLetter_step in H by assumption.
    destruct (columnToLetter q); discriminate.
  - destruct (columnToLetter_positive n) as (q & r & Hr & -> & Hq); [lia|].
    destruct (columnToLetter_positive m) as (q' & r' & Hr' & -> & _); [lia|].
    rewrite !columnToLetter_step in H by assumption.
    apply append_snoc_inj in H. destruct H as [Hq' Hch].
    apply IH in Hq'; [|assumption]. subst q'.
    apply (f_equal nat_of_ascii) in Hch.
    rewrite !nat_ascii_embedding in Hch by lia. lia.
Qed.
End ColumnLetters.

(** C5.  [columnToLetter] is the bijective base-26 numeral of a column
    number: 1 is A, 26 is Z, 27 is AA, zero has no letters, the numeral of
    [26 * q + r] with [1 <= r <= 26] is the numeral of [q] followed by the
    letter of [r]; the numerals use the letters A..Z only and different
    numbers have different numerals. *)
Theorem columnToLetter_bijective_base26 :
  columnToLetter 1 = "A"
  /\ columnToLetter 26 = "Z"
  /\ columnToLetter 27 = "AA"
  /\ columnToLetter 0 = ""
  /\ (forall q r, 1 <= r <= 26 ->
        columnToLetter (26 * q + r) = (columnToLetter q ++ letter r)%string)
  /\ (forall n, upperCase (columnToLetter n) = true)
  /\ (forall n m, columnToLetter n = columnToLetter m -> n = m).
Proof.
  split; [vm_compute; reflexivity|].
  split; [vm_compute; reflexivity|].
  split; [vm_compute; reflexivity|].
  split; [apply columnToLetter_zero|].
  split; [intros q r Hr; now apply columnToLetter_step|].
  split; [apply columnToLetter_upperCase | apply columnToLetter_inj].
Qed.

Lemma columnToLetter_bijective_base26_witness :
  1 <= 2 <= 26
  /\ columnToLetter (26 * 27 + 2) = (columnToLetter 27 ++ letter 2)%string
  /\ columnToLetter (26 * 27 + 2) = "AAB".
Proof.
  split; [lia|]. split; [|vm_compute; reflexivity].
  destruct columnToLetter_bijective_base26 as (_ & _ & _ & _ & Hstep & _).
  apply (Hstep 27 2). lia.
Defined.

(* ------------------------------------------------------------------------- *)
(** ** The value normalizer *)

Section Normalizer.
Local Open Scope string_scope.

Lemma trimStart_spec (s : string) :
  exists l, s = l ++ trimStart s
            /\ allWhiteSpace l = true
            /\ startsWithWhiteSpace (trimStart s) = false.
Proof.
  induction s as [|ch s (l & Hs & Hl & Hstart)]; simpl.
  - exists "". auto.
  - destruct (isWhiteSpace ch) eqn:E.
    + exists (String ch l). simpl. rewrite E, Hl, <- Hs. auto.
    + exists "". simpl. auto.
Qed.

Lemma trimEnd_spec (t : string) :
  exists r, t = trimEnd t ++ r
            /\ allWhiteSpace r = true
            /\ endsWithWhiteSpace (trimEnd t) = false.
Proof.
  induction t as [|ch t (r & Ht & Hr & Hend)]; simpl.
  - exists "". auto.
  - destruct (trimEnd t) as [|d t'] eqn:E.
    + simpl in Ht. subst r. destruct (isWhiteSpace ch) eqn:Ec.
      * exists (String ch t). simpl. rewrite Ec, Hr. auto.
      * exists t. simpl. auto.
    + exists r. simpl in *. rewrite <- Ht. auto.
Qed.

Lemma trimEnd_start (t : string) :
  startsWithWhiteSpace t = false ->
  startsWithWhiteSpace (trimEnd t) = false.
Proof.
  destruct t as [|ch t]; simpl; [auto|]. intros E.
  destruct (trimEnd t); [rewrite E|]; simpl; auto.
Qed.

(** [trim] removes a run of white space at either end and nothing else,
    and leaves none at either end. *)
Lemma trim_spec (s : string) :
  exists l r, s = l ++ trim s ++ r
              /\ allWhiteSpace l = true
              /\ allWhiteSpace r = true
              /\ startsWithWhiteSpace (trim s) = false
              /\ endsWithWhiteSpace (trim s) = false.
Proof.
  destruct (trimStart_spec s) as (l & Hs & Hl & Hstart).
  destruct (trimEnd_spec (trimStart s)) as (r & Ht & Hr & Hend).
  exists l, r. unfold trim. rewrite <- Ht.
  repeat split; auto using trimEnd_start.
Qed.

End Normalizer.



(* ------------------------------------------------------------------------- *)
(** ** What the column and row matchers report *)

Section Reported.
Implicit Types (p c t : table) (sheet : string) (e : ChangeEvent).

Lemma insertedColumns_In p c sheet e :
  In e (insertedColumns p c sheet)
  <-> exists h i, In (h, i) (colMapOf c)
                  /\ JsMap.has (colMapOf p) h = false
                  /\ e = insertColumnEvent sheet i (maxRowOf p c)
                           (columnValues c i).
Proof.
  unfold insertedColumns. rewrite in_flat_map. split.
  - intros ([h i] & Hin & He).
    destruct (JsMap.has (colMapOf p) h) eqn:E; [destruct He|].
    destruct He as [<-|[]]. eauto.
  - intros (h & i & Hin & Hhas & ->). exists (h, i). split; [assumption|].
    rewrite Hhas. now left.
Qed.

Lemma removedColumns_In p c sheet e :
  In e (removedColumns p c sheet)
  <-> exists h i, In (h, i) (colMapOf p)
                  /\ JsMap.has (colMapOf c) h = false
                  /\ e = removeColumnEvent sheet i (maxRowOf p c)
                           (columnValues p i).
Proof.
  unfold removedColumns. rewrite in_flat_map. split.
  - intros ([h i] & Hin & He).
    destruct (JsMap.has (colMapOf c) h) eqn:E; [destruct He|].
    destruct He as [<-|[]]. eauto.
  - intros (h & i & Hin & Hhas & ->). exists (h, i). split; [assumption|].
    rewrite Hhas. now left.
Qed.

Lemma insertedRows_In p c sheet e :
  In e (insertedRows p c sheet)
  <-> exists k i r, In (k, i) (rowMapOf c)
                    /\ JsMap.has (rowMapOf p) k = false
                    /\ nth_error (tableData c) i = Some r
                    /\ e = insertRowEvent sheet (i + 2)
                             (maxColOf (tableData p) (tableData c) r) r.
Proof.
  unfold insertedRows. rewrite in_flat_map. split.
  - intros ([k i] & Hin & He).
    destruct (JsMap.has (rowMapOf p) k) eqn:E; [destruct He|].
    destruct (nth_error (tableData c) i) as [r|] eqn:Er; [|destruct He].
    destruct He as [<-|[]]. exists k, i, r. auto.
  - intros (k & i & r & Hin & Hhas & Hr & ->). exists (k, i).
    split; [assumption|]. rewrite Hhas, Hr. now left.
Qed.

Lemma removedRows_In p c sheet e :
  In e (removedRows p c sheet)
  <-> exists k i r, In (k, i) (rowMapOf p)
                    /\ JsMap.has (rowMapOf c) k = false
                    /\ nth_error (tableData p) i = Some r
                    /\ e = removeRowEvent sheet (i + 2)
                             (maxColOf (tableData p) (tableData c) r) r.
Proof.
  unfold removedRows. rewrite in_flat_map. split.
  - intros ([k i] & Hin & He).
    destruct (JsMap.has (rowMapOf c) k) eqn:E; [destruct He|].
    destruct (nth_error (tableData p) i) as [r|] eqn:Er; [|destruct He].
    destruct He as [<-|[]]. exists k, i, r. auto.
  - intros (k & i & r & Hin & Hhas & Hr & ->). exists (k, i).
    split; [assumption|]. rewrite Hhas, Hr. now left.
Qed.

(** A row enters a key map under a key that is not empty. *)
Lemma rowKey_not_empty (r : row) k : rowKey r = Some k -> primaryKey r <> "".
Proof.
  unfold rowKey, truthyString. intros H E. rewrite E in H. discriminate.
Qed.

Lemma rowMapOf_no_empty_key t : JsMap.has (rowMapOf t) "" = false.
Proof.
  destruct (JsMap.has (rowMapOf t) "") eqn:E; [|reflexivity].
  apply has_get in E. destruct E as (i & Hi).
  apply get_In, rowMapOf_entry in Hi. destruct Hi as (r & _ & Hk).
  unfold rowKey in Hk. destruct (truthyString (primaryKey r)) eqn:Ht;
    [|discriminate].
  injection Hk as Hk. rewrite Hk in Ht. discriminate.
Qed.

End Reported.

(* ------------------------------------------------------------------------- *)
(** ** Rows with an empty primary key *)

(** X22.  What the row matcher does with an empty key.  A data row whose
    primary-key cell normalizes to the empty string enters neither key map,
    and the row matcher never reports it: for tables within the engine's
    bound [detectRowChanges] returns, no [INSERT_ROW] event carries the
    row number of such a row of the current table, and no [REMOVE_ROW] event
    that of such a row of the previous table. *)
Theorem empty_key_rows_unreported {engine : Engine} (p c : table) (sheet : string) :
  rowsFit p c ->
  JsMap.has (rowMapOf p) "" = false
  /\ JsMap.has (rowMapOf c) "" = false
  /\ exists evs,
       detectRowChanges (Rows p) (Rows c) sheet = Ok evs
       /\ (forall i r e,
             nth_error (tableData c) i = Some r -> primaryKey r = "" ->
             In e evs -> changeType e = INSERT_ROW -> rowIndex e <> Some (i + 2))
       /\ (forall i r e,
             nth_error (tableData p) i = Some r -> primaryKey r = "" ->
             In e evs -> changeType e = REMOVE_ROW -> rowIndex e <> Some (i + 2)).
Proof.
  intros Hfit.
  split; [apply rowMapOf_no_empty_key|].
  split; [apply rowMapOf_no_empty_key|].
  exists (insertedRows p c sheet ++ removedRows p c sheet).
  split; [now apply detectRowChanges_fit|].
  split; intros i r e Hr Hkey Hin Hty Hidx; apply in_app_or in Hin;
    destruct Hin as [Hin|Hin].
  - apply insertedRows_In in Hin.
    destruct Hin as (k & j & r' & Hmap & _ & Hr' & ->). simpl in Hidx.
    assert (j = i) by (injection Hidx; lia). subst j.
    apply rowMapOf_entry in Hmap. destruct Hmap as (r'' & Hr'' & Hk).
    assert (r'' = r) by congruence. subst r''.
    now apply rowKey_not_empty in Hk.
  - apply removedRows_In in Hin.
    destruct Hin as (k & j & r' & _ & _ & _ & ->). discriminate.
  - apply insertedRows_In in Hin.
    destruct Hin as (k & j & r' & _ & _ & _ & ->). discriminate.
  - apply removedRows_In in Hin.
    destruct Hin as (k & j & r' & Hmap & _ & Hr' & ->). simpl in Hidx.
    assert (j = i) by (injection Hidx; lia). subst j.
    apply rowMapOf_entry in Hmap. destruct Hmap as (r'' & Hr'' & Hk).
    assert (r'' = r) by congruence. subst r''.
    now apply rowKey_not_empty in Hk.
Qed.

Lemma empty_key_rows_unreported_witness :
  let engine := exampleEngine in
  let p := [[VStr "id"; VStr "note"]; [VStr "a"; VStr "x"]] in
  let c := [[VStr "id"; VStr "note"]; [VStr "a"; VStr "x"];
            [VStr "  "; VStr "y"]; [VStr "b"; VStr "z"]] in
  nth_error (tableData c) 1 = Some [VStr "  "; VStr "y"]
  /\ primaryKey [VStr "  "; VStr "y"] = ""
  /\ exists evs,
       detectRowChanges (Rows p) (Rows c) "Sheet1" = Ok evs
       /\ List.length evs = 1
       /\ forall e, In e evs -> changeType e = INSERT_ROW ->
            rowIndex e <> Some (1 + 2).
Proof.
  intros engine p c. split; [reflexivity|]. split; [reflexivity|].
  assert (Hfit : rowsFit p c) by (vm_compute; lia).
  destruct (empty_key_rows_unreported p c "Sheet1" Hfit)
    as (_ & _ & evs & Hev & Hins & _).
  exists evs. split; [exact Hev|]. split.
  - assert (E : Ok evs
                = Ok [insertRowEvent "Sheet1" 4 2 [VStr "b"; VStr "z"]])
      by (rewrite <- Hev; vm_compute; reflexivity).
    injection E as ->. reflexivity.
  - intros e. apply (Hins 1 [VStr "  "; VStr "y"] e); reflexivity.
Defined.

(** C2 at a row with an empty key.  The comments in the row matcher say
    that such a row may appear as inserted and deleted on every change
    detection.  On every engine the code reports a row with an empty key
    that is present and identical in both snapshots neither as inserted
    nor as removed, and a new one is not reported as inserted either. *)
Theorem empty_key_row_does_not_flap {engine : Engine} :
  let t := [[VStr "id"; VStr "note"]; [VStr ""; VStr "x"]] in
  let t0 := [[VStr "id"; VStr "note"]] in
  primaryKey [VStr ""; VStr "x"] = ""
  /\ In [VStr ""; VStr "x"] (tableData t)
  /\ detectRowChanges (Rows t) (Rows t) "Sheet1" = Ok []
  /\ detectChanges [("Sheet1", t)] [("Sheet1", t)] = Ok []
  /\ detectChanges [("Sheet1", t0)] [("Sheet1", t)] = Ok [].
Proof.
  cbv zeta. repeat split; try (vm_compute; reflexivity).
  now left.
Qed.

(* ------------------------------------------------------------------------- *)
(** ** Inserted and removed columns *)

Section Columns.
Implicit Types (p c t : table) (sheet : string).


Lemma colMapOf_has t h :
  JsMap.has (colMapOf t) h = true
  <-> exists v, In v (tableHeader t) /\ normalizeValue (Some v) = h.
Proof.
  rewrite colMapOf_eq, buildFrom_has, in_map_iff. unfold headerKey. split.
  - intros [H|(v & Hv & Hin)]; [discriminate|]. exists v.
    split; [assumption | now injection Hv].
  - intros (v & Hin & <-). right. eauto.
Qed.



(** What [columnValues] keeps: the cells of the column that are present
    and truthy, each wrapped in an array of its own. *)
Lemma columnValues_truthy t idx :
  columnValues t idx
  = flat_map
      (fun cell : option value =>
         match orEmpty cell with
         | VStr "" => []
         | v => [[v]]
         end)
      (columnCells t idx).
Proof.
  unfold columnValues, columnCells.
  induction (tableData t) as [|r rows IH]; [reflexivity|].
  simpl in *.
  destruct (orEmpty (nth_error r idx)) as [| | |[|]]; simpl; now rewrite IH.
Qed.
End Columns.



(** C6 at a column that holds the number 0.  The inserted column "qty" has
    the data-row values 0 and 7, neither of them the empty string, and the
    event carries 7 alone: [row[i] || ''] turns every falsy cell into the
    empty string before the filter runs.  [detectChanges] hands the event
    on, on every engine that passes one argument to [push]. *)
Theorem inserted_column_drops_zero {engine : Engine} :
  let p := [[VStr "id"]; [VStr "a"]; [VStr "b"]] in
  let c := [[VStr "id"; VStr "qty"]; [VStr "a"; VNum 0]; [VStr "b"; VNum 7]] in
  columnCells c 1 = [Some (VNum 0); Some (VNum 7)]
  /\ detectColumnChanges (Rows p) (Rows c) "Sheet1"
     = Ok [insertColumnEvent "Sheet1" 1 (Num 3) [[VNum 7]]]
  /\ detectChanges [("Sheet1", p)] [("Sheet1", c)]
     = (if 1 <=? argumentLimit
        then Ok [insertColumnEvent "Sheet1" 1 (Num 3) [[VNum 7]]]
        else Throw RangeError)
  /\ changeType (insertColumnEvent "Sheet1" 1 (Num 3) [[VNum 7]])
     = INSERT_COLUMN
  /\ insertedData (insertColumnEvent "Sheet1" 1 (Num 3) [[VNum 7]])
     = Some [[VNum 7]].
Proof.
  cbv zeta. destruct engine as [[|limit]];
    repeat split; vm_compute; reflexivity.
Qed.

(* ------------------------------------------------------------------------- *)
(** ** The order of the events *)

Section Order.
Implicit Types (A B : SheetData) (sheet : string) (e : ChangeEvent).

Lemma forOf_invariant {X St} (P : St -> Prop) (xs : list X)
  (body : X -> St -> result St) :
  (forall x s s', In x xs -> P s -> body x s = Ok s' -> P s') ->
  forall s s', P s -> forOf xs body s = Ok s' -> P s'.
Proof.
  induction xs as [|x xs IH]; intros Hbody s s' Hs H; simpl in H.
  - now injection H as <-.
  - destruct (body x s) as [s1|] eqn:E; [|discriminate]. simpl in H.
    apply (IH (fun y t t' Hy => Hbody y t t' (or_intror Hy)) s1 s');
      [|assumption].
    apply (Hbody x s s1); auto. now left.
Qed.

(** A loop whose body appends one block per element yields the blocks in
    the order of the elements. *)
Lemma forOf_blocks {X E} (Q : X -> list E -> Prop) (xs : list X)
  (body : X -> list E -> result (list E)) :
  (forall x s s', In x xs -> body x s = Ok s' ->
     exists b, s' = s ++ b /\ Q x b) ->
  forall s s', forOf xs body s = Ok s' ->
  exists blocks, s' = s ++ List.concat blocks /\ Forall2 Q xs blocks.
Proof.
  induction xs as [|x xs IH]; intros Hbody s s' H; simpl in H.
  - injection H as <-. exists []. split; [now rewrite app_nil_r | constructor].
  - destruct (body x s) as [s1|] eqn:Hx; [|discriminate]. simpl in H.
    destruct (Hbody x s s1 (or_introl eq_refl) Hx) as (b & -> & Hb).
    destruct (IH (fun y t t' Hy => Hbody y t t' (or_intror Hy)) _ _ H)
      as (blocks & -> & Hblocks).
    exists (b :: blocks). split; [simpl; now rewrite app_assoc|].
    now constructor.
Qed.

Lemma Forall_push {E} (P : E -> Prop) (changes : list E) (e : E) :
  Forall P changes -> P e -> Forall P (push changes [e]).
Proof.
  intros H He. unfold push. apply Forall_app. split; [assumption|].
  now constructor.
Qed.

Lemma detectColumnChanges_kind (previous current : sheetRef) sheet evs :
  detectColumnChanges previous current sheet = Ok evs ->
  Forall (fun e => isColumnEvent e = true /\ sheetName e = sheet) evs.
Proof.
  unfold detectColumnChanges.
  destruct (buildColMap (headerOf previous)) as [pm|]; [|discriminate].
  destruct (buildColMap (headerOf current)) as [cm|]; [|discriminate].
  cbn [bind]. intros H.
  match type of H with
  | bind ?loop1 _ = _ => destruct loop1 as [ch1|] eqn:E1; [|discriminate]
  end.
  cbn [bind] in H.
  match type of H with
  | bind ?loop2 _ = _ => destruct loop2 as [ch2|] eqn:E2; [|discriminate]
  end.
  cbn [bind] in H. injection H as <-.
  eapply forOf_invariant in E2; [exact E2 | |].
  - intros [h i] s s' _ Hs Hb.
    destruct (negb (JsMap.has cm h)); [|now injection Hb as <-].
    destruct (columnData previous i) as [d|]; [|discriminate].
    injection Hb as <-. apply Forall_push; [assumption | now split].
  - eapply forOf_invariant in E1; [exact E1 | | constructor].
    intros [h i] s s' _ Hs Hb.
    destruct (negb (JsMap.has pm h)); [|now injection Hb as <-].
    destruct (columnData current i) as [d|]; [|discriminate].
    injection Hb as <-. apply Forall_push; [assumption | now split].
Qed.

Lemma detectRowChanges_kind {engine : Engine} (previous current : sheetRef) sheet evs :
  detectRowChanges previous current sheet = Ok evs ->
  Forall (fun e => isRowEvent e = true /\ sheetName e = sheet) evs.
Proof.
  unfold detectRowChanges.
  destruct (dataRowsOf previous) as [pd|]; [|discriminate].
  destruct (dataRowsOf current) as [cd|]; [|discriminate].
  cbn [bind]. intros H.
  match type of H with
  | bind ?loop1 _ = _ => destruct loop1 as [ch1|] eqn:E1; [|discriminate]
  end.
  cbn [bind] in H.
  match type of H with
  | bind ?loop2 _ = _ => destruct loop2 as [ch2|] eqn:E2; [|discriminate]
  end.
  cbn [bind] in H. injection H as <-.
  eapply forOf_invariant in E2; [exact E2 | |].
  - intros [k i] s s' _ Hs Hb.
    destruct (negb (JsMap.has (buildRowMap cd) k)); [|now injection Hb as <-].
    destruct (nth_error pd i) as [r|]; [|discriminate].
    destruct (spreadCall mathMax _) as [maxCol|]; [|discriminate].
    injection Hb as <-. apply Forall_push; [assumption | now split].
  - eapply forOf_invariant in E1; [exact E1 | | constructor].
    intros [k i] s s' _ Hs Hb.
    destruct (negb (JsMap.has (buildRowMap pd) k)); [|now injection Hb as <-].
    destruct (nth_error cd i) as [r|]; [|discriminate].
    destruct (spreadCall mathMax _) as [maxCol|]; [|discriminate].
    injection Hb as <-. apply Forall_push; [assumption | now split].
Qed.

Lemma scanCell_kind sheet (prevRow currRow : option row) n entry
  (s s' : list ChangeEvent) :
  Forall (fun e => isEditEvent e = true /\ sheetName e = sheet) s ->
  scanCell sheet prevRow currRow n entry s = Ok s' ->
  Forall (fun e => isEditEvent e = true /\ sheetName e = sheet) s'.
Proof.
  intros Hs. destruct entry as [h [pi ci]]. unfold scanCell.
  destruct ((pi =? 0) && (ci =? 0)); [now intros [= <-]|].
  destruct prevRow as [pr|]; [|discriminate].
  destruct currRow as [cr|]; [|discriminate].
  destruct (negb _); intros [= <-]; [|assumption].
  apply Forall_push; [assumption | now split].
Qed.

Lemma detectCellEdits_kind (previous current : sheetRef) sheet evs :
  detectCellEdits previous current sheet = Ok evs ->
  Forall (fun e => isEditEvent e = true /\ sheetName e = sheet) evs.
Proof.
  unfold detectCellEdits.
  destruct (dataRowsOf previous) as [pd|]; [|discriminate].
  destruct (dataRowsOf current) as [cd|]; [|discriminate].
  cbn [bind].
  destruct (buildColMap (headerOf previous)) as [pm|]; [|discriminate].
  destruct (buildColMap (headerOf current)) as [cm|]; [|discriminate].
  cbn [bind]. intros H.
  match type of H with
  | bind ?loop1 _ = _ => destruct loop1 as [mapping|] eqn:E1; [|discriminate]
  end.
  cbn [bind] in H.
  match type of H with
  | bind ?loop2 _ = _ => destruct loop2 as [ch2|] eqn:E2; [|discriminate]
  end.
  cbn [bind] in H. injection H as <-.
  eapply forOf_invariant in E2; [exact E2 | | constructor].
  intros [k i] s s' _ Hs Hb.
  destruct (negb (JsMap.has (buildRowMap cd) k)); [now injection Hb as <-|].
  destruct (JsMap.get (buildRowMap cd) k) as [ci|]; [|discriminate].
  eapply forOf_invariant in Hb; [exact Hb | | exact Hs].
  intros entry t t' _ Ht Hscan. eapply scanCell_kind; eassumption.
Qed.

Lemma Forall_fst_snd {E} (P Q : E -> Prop) (l : list E) :
  Forall (fun x => P x /\ Q x) l -> Forall P l /\ Forall Q l.
Proof. intros H. apply Forall_and_inv in H. exact H. Qed.

(** What one turn of the loop over the sheet names appends. *)
Lemma detectSheet_block {engine : Engine} A B sheet (s s' : list ChangeEvent) :
  detectSheet A B sheet s = Ok s' ->
  exists b, s' = s ++ b /\ sheetBlock sheet b.
Proof.
  unfold detectSheet.
  set (previous := sheetOrEmpty A sheet). set (current := sheetOrEmpty B sheet).
  destruct (isZero (lengthOf previous) && isZero (lengthOf current)).
  - intros [= <-]. exists []. split; [now rewrite app_nil_r|].
    exists [], [], []. repeat split; constructor.
  - destruct (detectColumnChanges previous current sheet) as [cols|] eqn:Ec;
      [|discriminate].
    cbn [bind]. destruct (pushAll s cols) as [s1|] eqn:E1; [|discriminate].
    apply pushAll_Ok in E1. subst s1. cbn [bind].
    destruct (detectRowChanges previous current sheet) as [rows|] eqn:Er;
      [|discriminate].
    cbn [bind]. destruct (pushAll _ rows) as [s2|] eqn:E2; [|discriminate].
    apply pushAll_Ok in E2. subst s2. cbn [bind].
    destruct (detectCellEdits previous current sheet) as [edits|] eqn:Ee;
      [|discriminate].
    cbn [bind]. destruct (pushAll _ edits) as [s3|] eqn:E3; [|discriminate].
    apply pushAll_Ok in E3. subst s3. cbn [bind]. intros [= <-].
    apply detectColumnChanges_kind, Forall_fst_snd in Ec.
    apply detectRowChanges_kind, Forall_fst_snd in Er.
    apply detectCellEdits_kind, Forall_fst_snd in Ee.
    exists (cols ++ rows ++ edits). split; [now rewrite <- !app_assoc|].
    exists cols, rows, edits. repeat split; try tauto.
    rewrite !Forall_app. tauto.
Qed.

Lemma JsSet_fold_firsts xs : forall s : JsSet.t,
  fold_left JsSet.add xs s = s ++ firsts s xs.
Proof.
  induction xs as [|x xs IH]; intros s; simpl.
  - now rewrite app_nil_r.
  - unfold JsSet.add at 2. destruct (JsSet.has s x); [apply IH|].
    rewrite IH. now rewrite <- app_assoc.
Qed.

Lemma allSheetNames_firstOccurrences A B :
  allSheetNames A B = firstOccurrences (map fst A ++ map fst B).
Proof. unfold allSheetNames, JsSet.ofList. now rewrite JsSet_fold_firsts. Qed.

(** [detectChanges] returns whenever every name reads as rows and the
    tables are of sizes the engine's bound allows. *)
Lemma detectChanges_total {engine : Engine} A B :
  (forall sheet, In sheet (allSheetNames A B) ->
     readsRows A sheet = true /\ readsRows B sheet = true
     /\ tableFits (tableOf A sheet) (tableOf B sheet)) ->
  exists evs, detectChanges A B = Ok evs.
Proof.
  intros H. rewrite (detectChanges_rows A B); [eauto|].
  intros sheet Hin. destruct (H sheet Hin) as (HA & HB & Hfit).
  split; [exact HA|]. split; [exact HB|]. now apply tableFits_within.
Qed.

Lemma readsRows_not_inherited A sheet :
  JsMap.has objectPrototype sheet = false -> readsRows A sheet = true.
Proof.
  unfold readsRows, sheetOrEmpty, getProperty, JsMap.has.
  destruct (JsMap.get A sheet); [reflexivity|].
  now destruct (JsMap.get objectPrototype sheet).
Qed.

(** In particular it returns, whatever the tables hold, when no sheet is
    named after a member of [Object.prototype]. *)
Lemma detectChanges_total_names {engine : Engine} A B :
  (forall sheet, In sheet (map fst A ++ map fst B) ->
     JsMap.has objectPrototype sheet = false
     /\ tableFits (tableOf A sheet) (tableOf B sheet)) ->
  exists evs, detectChanges A B = Ok evs.
Proof.
  intros H. apply detectChanges_total. intros sheet Hin.
  apply allSheetNames_In in Hin. rewrite <- in_app_iff in Hin.
  destruct (H sheet Hin) as [Hname Hfit].
  split; [now apply readsRows_not_inherited|].
  split; [now apply readsRows_not_inherited | exact Hfit].
Qed.
End Order.

(** C9.  The sheet names are visited in the order of their first occurrence
    among the keys of the previous snapshot followed by those of the current
    one, each once; the list [detectChanges] returns is the concatenation,
    in that order, of one block per name, and a block holds the column
    events of its sheet, then its row events, then its edits, and events of
    no other sheet.  The list is returned whenever every name reads as an
    array of rows in both snapshots and the two tables under it are of
    sizes the engine's bound allows. *)
Theorem events_ordered_by_sheet_then_phase {engine : Engine} (A B : SheetData) :
  allSheetNames A B = firstOccurrences (map fst A ++ map fst B)
  /\ NoDup (allSheetNames A B)
  /\ ((forall sheet, In sheet (allSheetNames A B) ->
         readsRows A sheet = true /\ readsRows B sheet = true
         /\ tableFits (tableOf A sheet) (tableOf B sheet)) ->
      exists evs, detectChanges A B = Ok evs)
  /\ forall evs,
       detectChanges A B = Ok evs ->
       exists blocks,
         evs = List.concat blocks
         /\ Forall2 sheetBlock (allSheetNames A B) blocks.
Proof.
  split; [apply allSheetNames_firstOccurrences|].
  split; [apply JsSet_ofList_NoDup|].
  split; [apply detectChanges_total|].
  intros evs H. unfold detectChanges in H.
  apply (forOf_blocks sheetBlock) in H; [exact H|].
  intros sheet s s' _. apply detectSheet_block.
Qed.

Lemma events_ordered_by_sheet_then_phase_witness :
  let engine := exampleEngine in
  let A := [("Orders", [[VStr "id"; VStr "qty"];
                        [VStr "a"; VStr "1"]; [VStr "b"; VStr "2"]]);
            ("Old", [[VStr "x"]])] in
  let B := [("Orders", [[VStr "id"; VStr "qty"; VStr "note"];
                        [VStr "a"; VStr "5"];
                        [VStr "c"; VStr "3"; VStr "n"]]);
            ("New", [[VStr "y"]; [VStr "k"]])] in
  allSheetNames A B = ["Orders"; "Old"; "New"]
  /\ exists evs,
       detectChanges A B = Ok evs
       /\ map changeType evs
          = [INSERT_COLUMN; INSERT_ROW; REMOVE_ROW; EDIT;
             REMOVE_COLUMN; INSERT_COLUMN; INSERT_ROW]
       /\ exists blocks,
            evs = List.concat blocks
            /\ Forall2 sheetBlock (allSheetNames A B) blocks.
Proof.
  intros engine A B. split; [vm_compute; reflexivity|].
  destruct (events_ordered_by_sheet_then_phase A B) as (_ & _ & Htotal & Hord).
  destruct Htotal as (evs & Hev).
  - intros sheet Hin.
    assert (Hnames : allSheetNames A B = ["Orders"; "Old"; "New"])
      by (vm_compute; reflexivity).
    rewrite Hnames in Hin.
    destruct Hin as [<-|[<-|[<-|[]]]];
      (split; [vm_compute; reflexivity|]);
      (split; [vm_compute; reflexivity|]);
      repeat split; vm_compute; lia.
  - exists evs. split; [exact Hev|]. split; [|exact (Hord evs Hev)].
    assert (E : option_map (map changeType)
                  (match detectChanges A B with
                   | Ok l => Some l
                   | Throw _ => None
                   end)
                = Some [INSERT_COLUMN; INSERT_ROW; REMOVE_ROW; EDIT;
                        REMOVE_COLUMN; INSERT_COLUMN; INSERT_ROW])
      by (vm_compute; reflexivity).
    rewrite Hev in E. simpl in E. now injection E.
Defined.

(* ------------------------------------------------------------------------- *)
(** ** Sheet names that [Object.prototype] knows *)

(** C3 at a sheet named [constructor] that only one snapshot owns.  The
    other snapshot answers the name with the function [Object], whose
    [length] is 1 and whose element 0 is [undefined]; the header map is
    then built over [undefined] and [detectChanges] throws.  Under any name
    that [Object.prototype] does not know the same tables give a list,
    on every engine that passes two arguments. *)
Theorem sheet_named_constructor_throws {engine : Engine} :
  let t := [[VStr "id"]; [VStr "a"]] in
  sheetOrEmpty [] "constructor" = Fn 1
  /\ detectChanges [] [("constructor", t)] = Throw TypeError
  /\ detectChanges [("constructor", t)] [] = Throw TypeError
  /\ detectChanges [("Sheet1", t)] [("Sheet1", t); ("hasOwnProperty", t)]
     = Throw TypeError
  /\ detectChanges [] [("Sheet1", t)]
     = if 2 <=? argumentLimit
       then Ok [insertColumnEvent "Sheet1" 0 (Num 2) [[VStr "a"]];
                insertRowEvent "Sheet1" 2 1 [VStr "a"]]
       else Throw RangeError.
Proof.
  cbv zeta. destruct engine as [[|[|limit]]];
    repeat split; vm_compute; reflexivity.
Qed.

(* ------------------------------------------------------------------------- *)
(** ** Short lists of events *)

Section ShortLists.
Implicit Types (p c : table) (sheet : string).

Lemma rowEvents_isRowEvent p c sheet :
  Forall (fun e => isRowEvent e = true)
    (insertedRows p c sheet ++ removedRows p c sheet).
Proof.
  apply Forall_forall. intros e Hin. apply in_app_or in Hin.
  destruct Hin as [Hin|Hin].
  - apply insertedRows_In in Hin. now destruct Hin as (k & i & r & _ & _ & _ & ->).
  - apply removedRows_In in Hin. now destruct Hin as (k & i & r & _ & _ & _ & ->).
Qed.

Lemma rowEvents_nil p c sheet :
  Forall (fun e => isRowEvent e = false) (sheetEvents p c sheet) ->
  insertedRows p c sheet ++ removedRows p c sheet = [].
Proof.
  intros H. unfold sheetEvents in H.
  apply Forall_app in H. destruct H as [_ H].
  apply Forall_app in H. destruct H as [H _].
  pose proof (rowEvents_isRowEvent p c sheet) as Hrow.
  destruct (insertedRows p c sheet ++ removedRows p c sheet) as [|e l];
    [reflexivity|].
  inversion H; inversion Hrow; subst. congruence.
Qed.

(** A list of events short enough for one [push], whose row events, if
    it has any, come from tables within the bound. *)
Lemma sheetWithinLimit_events {engine : Engine} p c sheet :
  List.length (sheetEvents p c sheet) <= argumentLimit ->
  Forall (fun e => isRowEvent e = false) (sheetEvents p c sheet)
  \/ rowsFit p c ->
  sheetWithinLimit p c sheet.
Proof.
  intros Hlen Hrows.
  assert (Hmax : insertedRows p c sheet ++ removedRows p c sheet = []
                 \/ rowsFit p c).
  { destruct Hrows as [H|H]; [left; now apply rowEvents_nil | now right]. }
  unfold sheetEvents in Hlen. unfold sheetWithinLimit.
  rewrite !length_app in *. split; [exact Hmax|]. repeat split; lia.
Qed.
End ShortLists.

(* ------------------------------------------------------------------------- *)
(** ** Snapshots that differ in one sheet *)

Section OneSheet.
Implicit Types (A : SheetData) (sheet : string) (t : table).

Lemma set_keys {V} (m : JsMap.t V) k (v v' : V) :
  JsMap.get m k = Some v -> map fst (JsMap.set m k v') = map fst m.
Proof.
  induction m as [|[k0 v0] m IH]; simpl; [discriminate|].
  destruct (String.eqb_spec k0 k); [reflexivity|].
  intros H. simpl. now rewrite IH.
Qed.

Lemma get_set_same {V} (m : JsMap.t V) k (v : V) :
  JsMap.get (JsMap.set m k v) k = Some v.
Proof.
  induction m as [|[k0 v0] m IH]; simpl.
  - now rewrite String.eqb_refl.
  - destruct (String.eqb_spec k0 k) as [->|Hne]; simpl.
    + now rewrite String.eqb_refl.
    + destruct (String.eqb_spec k0 k); [contradiction | exact IH].
Qed.

Lemma get_set_other {V} (m : JsMap.t V) k k' (v : V) :
  k' <> k -> JsMap.get (JsMap.set m k v) k' = JsMap.get m k'.
Proof.
  intros Hne. induction m as [|[k0 v0] m IH]; simpl.
  - destruct (String.eqb_spec k k'); [congruence | reflexivity].
  - destruct (String.eqb_spec k0 k) as [->|Hne0]; simpl.
    + destruct (String.eqb_spec k k'); [congruence | reflexivity].
    + destruct (String.eqb_spec k0 k'); [reflexivity | exact IH].
Qed.

Lemma tableOf_get A sheet t : JsMap.get A sheet = Some t -> tableOf A sheet = t.
Proof. unfold tableOf, sheetOrEmpty, getProperty. now intros ->. Qed.

Lemma tableOf_set_other A sheet sheet' t :
  sheet' <> sheet -> tableOf (JsMap.set A sheet t) sheet' = tableOf A sheet'.
Proof.
  intros Hne. unfold tableOf, sheetOrEmpty, getProperty.
  now rewrite get_set_other.
Qed.

(** Replacing the rows of one sheet: the result is what that sheet
    contributes, every other sheet being compared with itself. *)
Lemma detectChanges_one_sheet {engine : Engine} A sheet t t' :
  JsMap.get A sheet = Some t ->
  sheetWithinLimit t t' sheet ->
  detectChanges A (JsMap.set A sheet t') = Ok (sheetEvents t t' sheet).
Proof.
  intros Hget Hfit. set (B := JsMap.set A sheet t').
  assert (Hkeys : map fst B = map fst A) by (eapply set_keys; eassumption).
  assert (Hin : In sheet (map fst A))
    by (apply has_true_iff; eapply get_has; eassumption).
  rewrite detectChanges_rows.
  2:{ intros name Hname. apply allSheetNames_In in Hname.
      rewrite Hkeys in Hname.
      split; [apply readsRows_own; tauto|].
      split; [apply readsRows_own; rewrite Hkeys; tauto|].
      destruct (String.eqb_spec name sheet) as [->|Hne].
      - rewrite (tableOf_get _ _ _ Hget). unfold B.
        now rewrite (tableOf_get _ _ _ (get_set_same A sheet t')).
      - unfold B. rewrite tableOf_set_other by assumption.
        apply sheetWithinLimit_nil, sheetEvents_same. }
  f_equal.
  assert (Hnames : In sheet (allSheetNames A B))
    by (apply allSheetNames_In; now left).
  pose proof (JsSet_ofList_NoDup (map fst A ++ map fst B)) as Hnd.
  fold (allSheetNames A B) in Hnd.
  apply in_split in Hnames. destruct Hnames as (l1 & l2 & Hsplit).
  rewrite Hsplit in Hnd |- *. apply NoDup_remove_2 in Hnd.
  rewrite flat_map_single.
  - rewrite (tableOf_get _ _ _ Hget). unfold B.
    rewrite (tableOf_get _ _ _ (get_set_same A sheet t')). reflexivity.
  - intros name Hname. unfold B. rewrite tableOf_set_other.
    + apply sheetEvents_same.
    + intros ->. apply Hnd, in_or_app. now left.
  - intros name Hname. unfold B. rewrite tableOf_set_other.
    + apply sheetEvents_same.
    + intros ->. apply Hnd, in_or_app. now right.
Qed.

(** Replacing the rows of one sheet by rows that give no event. *)
Lemma detectChanges_one_sheet_nil {engine : Engine} A sheet t t' :
  JsMap.get A sheet = Some t ->
  sheetEvents t t' sheet = [] ->
  detectChanges A (JsMap.set A sheet t') = Ok [].
Proof.
  intros Hget Hnil. rewrite <- Hnil.
  apply detectChanges_one_sheet; [exact Hget|].
  now apply sheetWithinLimit_nil.
Qed.

(** Replacing the rows of one sheet by rows that give column events and
    edits only, few enough for one [push]. *)
Lemma detectChanges_one_sheet_short {engine : Engine} A sheet t t' evs :
  JsMap.get A sheet = Some t ->
  sheetEvents t t' sheet = evs ->
  Forall (fun e => isRowEvent e = false) evs ->
  List.length evs <= argumentLimit ->
  detectChanges A (JsMap.set A sheet t') = Ok evs.
Proof.
  intros Hget Hev Hkind Hlen. rewrite <- Hev.
  apply detectChanges_one_sheet; [exact Hget|].
  apply sheetWithinLimit_events; rewrite Hev; auto.
Qed.
End OneSheet.

(* ------------------------------------------------------------------------- *)
(** ** Tables that differ in one cell *)

Section OneCell.
Implicit Types (t : table) (sheet : string) (v : value).

Lemma nth_error_replaceNth_same {X} (l : list X) n (x y : X) :
  nth_error l n = Some y -> nth_error (replaceNth n x l) n = Some x.
Proof.
  revert n. induction l as [|z l IH]; intros [|n]; simpl; try discriminate; auto.
Qed.

Lemma nth_error_replaceNth_other {X} (l : list X) n i (x : X) :
  i <> n -> nth_error (replaceNth n x l) i = nth_error l i.
Proof.
  revert n i. induction l as [|z l IH]; intros [|n] [|i] H; simpl; auto;
    try congruence.
Qed.

Lemma map_replaceNth {X Y} (f : X -> Y) (l : list X) n (x : X) :
  map f (replaceNth n x l) = replaceNth n (f x) (map f l).
Proof.
  revert n. induction l as [|z l IH]; intros [|n]; simpl; auto.
  now rewrite IH.
Qed.

Lemma replaceNth_id {X} (l : list X) n (x : X) :
  nth_error l n = Some x -> replaceNth n x l = l.
Proof.
  revert n. induction l as [|z l IH]; intros [|n]; simpl; try discriminate.
  - now intros [= ->].
  - intros H. now rewrite IH.
Qed.

Lemma replaceNth_middle {X} (l1 l2 : list X) (x y : X) :
  replaceNth (List.length l1) x (l1 ++ y :: l2) = l1 ++ x :: l2.
Proof. induction l1 as [|z l1 IH]; simpl; [reflexivity | now rewrite IH]. Qed.

Lemma tableHeader_setCell t r c v :
  1 <= r -> tableHeader (setCell t r c v) = tableHeader t.
Proof.
  intros Hr. unfold setCell. destruct (nth_error t r); [|reflexivity].
  destruct r as [|r]; [lia|]. now destruct t.
Qed.

Lemma tableData_setCell t r c v (old : row) :
  1 <= r -> nth_error t r = Some old ->
  tableData (setCell t r c v)
  = replaceNth (r - 1) (replaceNth c v old) (tableData t).
Proof.
  intros Hr Hold. unfold setCell. rewrite Hold.
  destruct r as [|r]; [lia|]. destruct t as [|h t]; [discriminate|].
  simpl. now rewrite Nat.sub_0_r.
Qed.

Lemma nth_error_tableData t r :
  1 <= r -> nth_error (tableData t) (r - 1) = nth_error t r.
Proof.
  intros Hr. unfold tableData. rewrite nth_error_skipn. f_equal. lia.
Qed.

(** Replacing a cell other than the first leaves the key of the row. *)
Lemma rowKey_replaceNth (old : row) c v :
  0 < c -> rowKey (replaceNth c v old) = rowKey old.
Proof.
  intros Hc. unfold rowKey, primaryKey.
  now rewrite nth_error_replaceNth_other by lia.
Qed.

(** In a map with distinct keys an entry is the only one with its index,
    provided indices determine keys. *)
Lemma entry_split (m : JsMap.t nat) k i :
  NoDup (map fst m) ->
  (forall k' , In (k', i) m -> k' = k) ->
  In (k, i) m ->
  exists m1 m2, m = m1 ++ (k, i) :: m2
                /\ (forall k' j, In (k', j) (m1 ++ m2) -> j <> i /\ k' <> k).
Proof.
  intros Hnd Huniq Hin. apply in_split in Hin. destruct Hin as (m1 & m2 & ->).
  exists m1, m2. split; [reflexivity|]. intros k' j Hin'.
  rewrite map_app in Hnd. simpl in Hnd. apply NoDup_remove_2 in Hnd.
  assert (Hk : k' <> k).
  { intros ->. apply Hnd. rewrite <- map_app.
    apply (in_map fst) in Hin'. exact Hin'. }
  split; [|exact Hk]. intros ->. apply Hk, Huniq.
  apply in_app_or in Hin'. apply in_or_app. simpl. tauto.
Qed.

Lemma rowMapOf_index_key t k k' i :
  In (k, i) (rowMapOf t) -> In (k', i) (rowMapOf t) -> k' = k.
Proof.
  intros H H'. apply rowMapOf_entry in H, H'.
  destruct H as (r & Hr & Hk), H' as (r' & Hr' & Hk'). congruence.
Qed.

Lemma colMapOf_index_key t h h' i :
  In (h, i) (colMapOf t) -> In (h', i) (colMapOf t) -> h' = h.
Proof.
  intros H H'. apply colMapOf_entry in H, H'.
  destruct H as (v & Hv & Hh), H' as (v' & Hv' & Hh'). congruence.
Qed.

(** The scan of a matched pair of rows that differ in column [c] alone,
    a column the header map records. *)
Lemma cellEdits_one_cell t t' sheet (old : row) n c v v' h :
  tableHeader t = tableHeader t' ->
  0 < c ->
  nth_error old c = Some v ->
  normalizeValue (Some v) <> normalizeValue (Some v') ->
  In (h, c) (colMapOf t) ->
  flat_map (cellEdit sheet old (replaceNth c v' old) n) (columnMappingOf t t')
  = [editEvent sheet n c v v'].
Proof.
  intros Hhdr Hc Hv Hne Hin.
  rewrite (columnMappingOf_same_header _ _ Hhdr).
  destruct (entry_split (colMapOf t) h c (colMapOf_NoDup t)) as (m1 & m2 & E & Hrest);
    [intros h' Hh'; eapply colMapOf_index_key; eassumption | assumption |].
  rewrite E, map_app, flat_map_app. cbn [map flat_map].
  assert (Hnil : forall m, (forall k' j, In (k', j) m -> j <> c) ->
            flat_map (cellEdit sheet old (replaceNth c v' old) n)
              (map (fun '(h0, i) => (h0, (i, i))) m) = []).
  { intros m Hm. apply flat_map_nil. intros [h0 [a b]] Hx.
    apply in_map_iff in Hx. destruct Hx as ([h1 i] & [= <- <- <-] & Hi).
    unfold cellEdit. destruct ((i =? 0) && (i =? 0)); [reflexivity|].
    rewrite nth_error_replaceNth_other by (eapply Hm; eassumption).
    now rewrite String.eqb_refl. }
  rewrite !Hnil.
  - cbn [flat_map app]. rewrite app_nil_r. unfold cellEdit.
    destruct (Nat.eqb_spec c 0); [lia|]. cbn [andb].
    rewrite (nth_error_replaceNth_same _ _ _ _ Hv), Hv. cbn [definedOrEmpty].
    destruct (String.eqb_spec (normalizeValue (Some v)) (normalizeValue (Some v')));
      [contradiction | reflexivity].
  - intros k' j Hj. apply (Hrest k' j). apply in_or_app. now right.
  - intros k' j Hj. apply (Hrest k' j). apply in_or_app. now left.
Qed.
End OneCell.

Section EditIsolation.
Implicit Types (t : table) (sheet : string).

Lemma primaryKey_changes_at_0 (r : row) (old new : value) :
  nth_error r 0 = Some old ->
  primaryKey (replaceNth 0 new r) = normalizeValue (Some new).
Proof. destruct r; [discriminate | reflexivity]. Qed.

(** The three phases on a table and the same table with one cell of a
    matched data row, in a matched column, set to a value that normalizes
    differently. *)
Lemma sheetEvents_one_cell t sheet r c (old : row) (v v' hv : value) :
  1 <= r ->
  0 < c ->
  nth_error t r = Some old ->
  nth_error old c = Some v ->
  normalizeValue (Some v) <> normalizeValue (Some v') ->
  JsMap.get (rowMapOf t) (primaryKey old) = Some (r - 1) ->
  nth_error (tableHeader t) c = Some hv ->
  JsMap.get (colMapOf t) (normalizeValue (Some hv)) = Some c ->
  sheetEvents t (setCell t r c v') sheet = [editEvent sheet (r + 1) c v v'].
Proof.
  intros Hr Hc Hold Hv Hne Hrow Hhv Hcol.
  set (t' := setCell t r c v').
  assert (Hhdr : tableHeader t = tableHeader t')
    by (symmetry; now apply tableHeader_setCell).
  assert (Hdata : tableData t'
                  = replaceNth (r - 1) (replaceNth c v' old) (tableData t))
    by now apply tableData_setCell.
  assert (Hold' : nth_error (tableData t) (r - 1) = Some old)
    by now rewrite nth_error_tableData.
  assert (Hkeys : map rowKey (tableData t) = map rowKey (tableData t')).
  { rewrite Hdata, map_replaceNth, rowKey_replaceNth by assumption.
    symmetry. apply replaceNth_id. now apply map_nth_error. }
  unfold sheetEvents.
  rewrite (columns_same_header _ _ sheet Hhdr), (rows_same_keys _ _ sheet Hkeys).
  cbn [app]. unfold editedCells.
  pose proof (rowMapOf_keys _ _ Hkeys) as Hmaps.
  apply get_In in Hrow. apply get_In in Hcol.
  destruct (entry_split (rowMapOf t) (primaryKey old) (r - 1) (rowMapOf_NoDup t))
    as (m1 & m2 & E & Hrest);
    [intros k' Hk'; eapply rowMapOf_index_key; eassumption | assumption |].
  assert (Hother : forall k j, In (k, j) (m1 ++ m2) ->
                     rowEdits t t' sheet (k, j) = []).
  { intros k j Hin. destruct (Hrest k j Hin) as [Hj _].
    assert (Hin' : In (k, j) (rowMapOf t)).
    { rewrite E. apply in_app_or in Hin. apply in_or_app. simpl. tauto. }
    unfold rowEdits. rewrite <- Hmaps.
    rewrite (get_NoDup _ _ _ (rowMapOf_NoDup t) Hin').
    rewrite Hdata, nth_error_replaceNth_other by assumption.
    apply rowMapOf_entry in Hin'. destruct Hin' as (pr & -> & _).
    now apply cellEdits_same_row. }
  rewrite E, flat_map_single.
  - unfold rowEdits. rewrite <- Hmaps.
    rewrite (get_NoDup _ _ _ (rowMapOf_NoDup t) Hrow).
    rewrite Hdata, (nth_error_replaceNth_same _ _ _ _ Hold'), Hold'.
    replace (r - 1 + 2) with (r + 1) by lia.
    now apply (cellEdits_one_cell t t' sheet old (r + 1) c v v'
                 (normalizeValue (Some hv))).
  - intros [k j] Hin. apply Hother, in_or_app. now left.
  - intros [k j] Hin. apply Hother, in_or_app. now right.
Qed.
End EditIsolation.

(** C7.  When the current snapshot is the previous one with a single cell
    replaced, the cell lying in a data row that its primary key matches
    and in a column that its header matches, the key of the row unchanged
    and the new value normalizing differently from the old one, then
    [detectChanges] returns exactly one event: an [EDIT] under the name of
    the sheet, at the row and the column of the cell counted from 1, whose
    [oldValue] is the previous value of the cell and whose [newValue] is
    its current value, both as they are, and whose address is the letters
    of the column followed by the number of the row.  The engine is one
    that passes at least one argument to [push]. *)
Theorem single_cell_edit_isolated {engine : Engine} (A : SheetData) (sheet : string)
  (t : table) (r c : nat) (old : row) (v v' hv : value) :
  1 <= argumentLimit ->
  JsMap.get A sheet = Some t ->
  1 <= r ->
  nth_error t r = Some old ->
  nth_error old c = Some v ->
  normalizeValue (Some v) <> normalizeValue (Some v') ->
  primaryKey (replaceNth c v' old) = primaryKey old ->
  JsMap.get (rowMapOf t) (primaryKey old) = Some (r - 1) ->
  nth_error (tableHeader t) c = Some hv ->
  JsMap.get (colMapOf t) (normalizeValue (Some hv)) = Some c ->
  detectChanges A (JsMap.set A sheet (setCell t r c v'))
  = Ok [ {| changeType := EDIT;
            sheetName := sheet;
            affectedRange :=
              {| startRow := r + 1;
                 endRow := Num (r + 1);
                 startColumn := c + 1;
                 endColumn := c + 1;
                 a1Notation :=
                   (columnToLetter (c + 1) ++ natToString (r + 1))%string |};
            cellAddress :=
              Some (columnToLetter (c + 1) ++ natToString (r + 1))%string;
            oldValue := Some v;
            newValue := Some v';
            rowIndex := None;
            columnIndex := None;
            insertedData := None;
            deletedData := None |} ].
Proof.
  intros Hlimit Hget Hr Hold Hv Hne Hkey Hrow Hhv Hcol.
  assert (Hc : 0 < c).
  { destruct c as [|c]; [|lia]. exfalso. apply Hne.
    rewrite (primaryKey_changes_at_0 old v v' Hv) in Hkey.
    unfold primaryKey in Hkey. now rewrite Hv in Hkey. }
  pose proof (sheetEvents_one_cell t sheet r c old v v' hv
                Hr Hc Hold Hv Hne Hrow Hhv Hcol) as Hev.
  rewrite (detectChanges_one_sheet A sheet t _ Hget).
  - rewrite Hev. reflexivity.
  - apply sheetWithinLimit_events; rewrite Hev;
      [exact Hlimit | left; repeat constructor].
Qed.

Lemma single_cell_edit_isolated_witness :
  let engine := exampleEngine in
  let t := [[VStr "Name"; VStr "Age"];
            [VStr "alice"; VStr "30"]; [VStr "bob"; VStr "41"]] in
  let A := [("Other", [[VStr "k"]; [VStr ""]]); ("People", t)] in
  JsMap.set A "People" (setCell t 1 1 (VStr "31"))
  = [("Other", [[VStr "k"]; [VStr ""]]);
     ("People", [[VStr "Name"; VStr "Age"];
                 [VStr "alice"; VStr "31"]; [VStr "bob"; VStr "41"]])]
  /\ exists e,
       detectChanges A (JsMap.set A "People" (setCell t 1 1 (VStr "31")))
       = Ok [e]
       /\ changeType e = EDIT
       /\ cellAddress e = Some "B2"
       /\ oldValue e = Some (VStr "30")
       /\ newValue e = Some (VStr "31").
Proof.
  intros engine t A. split; [reflexivity|].
  eexists. split.
  - apply (single_cell_edit_isolated A "People" t 1 1
             [VStr "alice"; VStr "30"] (VStr "30") (VStr "31") (VStr "Age"));
      try reflexivity; try (vm_compute; lia).
    vm_compute. discriminate.
  - repeat split; vm_compute; reflexivity.
Defined.

(* ------------------------------------------------------------------------- *)
(** ** Tables that differ in the key of one row *)

Section KeyChange.
Implicit Types (t : table) (sheet : string) (ks : list (option string)).

(** Replacing, at position [n], a key that occurs nowhere else by a key
    that occurs nowhere at all changes one entry of the map and leaves the
    others, and their order, as they are. *)
Lemma buildFrom_key_change ks n kold knew :
  nth_error ks n = Some (Some kold) ->
  (forall i, i <> n -> nth_error ks i <> Some (Some kold)) ->
  ~ In (Some knew) ks ->
  exists m1 ext,
    buildFrom ks 0 [] = m1 ++ (kold, n) :: ext
    /\ buildFrom (replaceNth n (Some knew) ks) 0 [] = m1 ++ (knew, n) :: ext.
Proof.
  intros Hn Huniq Hnew.
  destruct (nth_error_split ks n Hn) as (l1 & l2 & -> & Hlen).
  assert (Hold1 : ~ In (Some kold) l1).
  { intros Hin. apply In_nth_error in Hin. destruct Hin as (i & Hi).
    assert (Hlt : i < List.length l1)
      by (apply nth_error_Some; congruence).
    apply (Huniq i); [lia|]. now rewrite nth_error_app1. }
  assert (Hold2 : ~ In (Some kold) l2).
  { intros Hin. apply In_nth_error in Hin. destruct Hin as (i & Hi).
    apply (Huniq (List.length l1 + S i)); [lia|].
    rewrite nth_error_app2 by lia.
    replace (List.length l1 + S i - List.length l1) with (S i) by lia.
    exact Hi. }
  assert (Hnew1 : ~ In (Some knew) l1)
    by (intros H; apply Hnew, in_or_app; now left).
  assert (Hnew2 : ~ In (Some knew) l2)
    by (intros H; apply Hnew, in_or_app; right; now right).
  rewrite <- Hlen, replaceNth_middle, !buildFrom_app. cbn [buildFrom].
  set (m1 := buildFrom l1 0 []).
  assert (Hm1 : forall k, ~ In (Some k) l1 -> JsMap.has m1 k = false).
  { intros k Hk. destruct (JsMap.has m1 k) eqn:E; [|reflexivity].
    apply buildFrom_has in E. destruct E as [E|E]; [discriminate | contradiction]. }
  rewrite !addOpt_fresh by auto.
  destruct (buildFrom_agree l2 (S (0 + List.length l1))
              (m1 ++ [(kold, 0 + List.length l1)])
              (m1 ++ [(knew, 0 + List.length l1)])) as (ext & E1 & E2).
  { intros k Hk. rewrite !has_app, !has_single. f_equal.
    destruct (String.eqb_spec kold k) as [->|_],
             (String.eqb_spec knew k) as [->|_];
      try contradiction; reflexivity. }
  exists m1, ext. rewrite E1, E2, <- !app_assoc. simpl. auto.
Qed.

Lemma rowKey_Some (r : row) k :
  primaryKey r = k -> k <> "" -> rowKey r = Some k.
Proof.
  intros <- Hk. unfold rowKey, truthyString.
  destruct (String.eqb_spec (primaryKey r) ""); [contradiction | reflexivity].
Qed.

Lemma rowKey_primaryKey (r : row) k : rowKey r = Some k -> primaryKey r = k.
Proof.
  unfold rowKey. destruct (truthyString (primaryKey r)); [|discriminate].
  now intros [= <-].
Qed.

Lemma rowMapOf_has t k :
  JsMap.has (rowMapOf t) k = true <-> In (Some k) (map rowKey (tableData t)).
Proof.
  rewrite rowMapOf_eq, buildFrom_has. split; [|auto].
  intros [H|H]; [discriminate | exact H].
Qed.

(** The three phases on a table and the same table with the key cell of
    one data row replaced, the old key being that of no other row and the
    new key that of no row. *)
Lemma sheetEvents_key_change t sheet r (old : row) (v v' : value) :
  1 <= r ->
  nth_error t r = Some old ->
  nth_error old 0 = Some v ->
  normalizeValue (Some v) <> "" ->
  normalizeValue (Some v') <> "" ->
  (forall i r', nth_error (tableData t) i = Some r' -> i <> r - 1 ->
                primaryKey r' <> normalizeValue (Some v)) ->
  (forall r', In r' (tableData t) -> primaryKey r' <> normalizeValue (Some v')) ->
  insertedColumns t (setCell t r 0 v') sheet
  ++ removedColumns t (setCell t r 0 v') sheet = []
  /\ insertedRows t (setCell t r 0 v') sheet
     ++ removedRows t (setCell t r 0 v') sheet
     = [insertRowEvent sheet (r + 1)
          (maxColOf (tableData t) (tableData (setCell t r 0 v'))
             (replaceNth 0 v' old))
          (replaceNth 0 v' old);
        removeRowEvent sheet (r + 1)
          (maxColOf (tableData t) (tableData (setCell t r 0 v')) old) old]
  /\ editedCells t (setCell t r 0 v') sheet = [].
Proof.
  intros Hr Hold Hv Hkold Hknew Huniq Hfresh.
  set (t' := setCell t r 0 v'). set (new := replaceNth 0 v' old).
  set (kold := normalizeValue (Some v)) in *.
  set (knew := normalizeValue (Some v')) in *.
  assert (Hhdr : tableHeader t = tableHeader t')
    by (symmetry; now apply tableHeader_setCell).
  assert (Hdata : tableData t' = replaceNth (r - 1) new (tableData t))
    by now apply tableData_setCell.
  assert (Hold' : nth_error (tableData t) (r - 1) = Some old)
    by now rewrite nth_error_tableData.
  assert (Hnew' : nth_error (tableData t') (r - 1) = Some new)
    by (rewrite Hdata; eapply nth_error_replaceNth_same; eassumption).
  assert (Hrkold : rowKey old = Some kold).
  { apply rowKey_Some; [|assumption]. unfold primaryKey. now rewrite Hv. }
  assert (Hrknew : rowKey new = Some knew).
  { apply rowKey_Some; [|assumption].
    apply (primaryKey_changes_at_0 old v v' Hv). }
  destruct (buildFrom_key_change (map rowKey (tableData t)) (r - 1) kold knew)
    as (m1 & ext & EP & EC).
  { rewrite nth_error_map, Hold'. simpl. now rewrite Hrkold. }
  { intros i Hi Hnth. rewrite nth_error_map in Hnth.
    destruct (nth_error (tableData t) i) as [r'|] eqn:Er'; [|discriminate].
    simpl in Hnth. injection Hnth as Hnth.
    apply (Huniq i r' Er' Hi). now apply rowKey_primaryKey. }
  { intros Hin. apply in_map_iff in Hin. destruct Hin as (r' & Hk & Hin).
    apply (Hfresh r' Hin). now apply rowKey_primaryKey. }
  rewrite <- rowMapOf_eq in EP.
  assert (EC' : rowMapOf t' = m1 ++ (knew, r - 1) :: ext).
  { rewrite rowMapOf_eq, Hdata, map_replaceNth, Hrknew. exact EC. }
  clear EC. rename EC' into EC.
  (* membership of the two keys in the two maps *)
  assert (HPnew : JsMap.has (rowMapOf t) knew = false).
  { apply has_false_iff. rewrite EP, map_app, in_app_iff. simpl.
    pose proof (rowMapOf_NoDup t') as Hnd.
    rewrite EC, map_app in Hnd. simpl in Hnd. apply NoDup_remove_2 in Hnd.
    rewrite in_app_iff in Hnd.
    intros [H|[H|H]]; [tauto | | tauto].
    assert (Hin : In (Some knew) (map rowKey (tableData t))).
    { rewrite <- H. apply in_map_iff. exists old. split; [assumption|].
      eapply nth_error_In; eassumption. }
    apply in_map_iff in Hin. destruct Hin as (r' & Hk & Hin).
    apply (Hfresh r' Hin). now apply rowKey_primaryKey. }
  assert (Hne : kold <> knew).
  { intros E. rewrite <- E in HPnew. apply has_false_iff in HPnew.
    apply HPnew. rewrite EP, map_app, in_app_iff. simpl. tauto. }
  assert (HCold : JsMap.has (rowMapOf t') kold = false).
  { apply has_false_iff. rewrite EC, map_app, in_app_iff. simpl.
    pose proof (rowMapOf_NoDup t) as Hnd.
    rewrite EP, map_app in Hnd. simpl in Hnd. apply NoDup_remove_2 in Hnd.
    rewrite in_app_iff in Hnd.
    intros [H|[H|H]]; [tauto | congruence | tauto]. }
  assert (Hshared : forall k i, In (k, i) (m1 ++ ext) ->
            In (k, i) (rowMapOf t) /\ In (k, i) (rowMapOf t')).
  { intros k i Hin. rewrite EP, EC. apply in_app_or in Hin.
    split; apply in_or_app; simpl; tauto. }
  split; [exact (columns_same_header _ _ sheet Hhdr)|].
  (* the row matcher *)
  assert (Hins : insertedRows t t' sheet
                 = [insertRowEvent sheet (r + 1)
                      (maxColOf (tableData t) (tableData t') new) new]).
  { unfold insertedRows. rewrite EC. rewrite flat_map_single.
    - rewrite HPnew, Hnew'. now replace (r - 1 + 2) with (r + 1) by lia.
    - intros [k i] Hin. destruct (Hshared k i) as [HP _];
        [apply in_or_app; now left|]. now rewrite (has_In _ _ _ HP).
    - intros [k i] Hin. destruct (Hshared k i) as [HP _];
        [apply in_or_app; now right|]. now rewrite (has_In _ _ _ HP). }
  assert (Hrem : removedRows t t' sheet
                 = [removeRowEvent sheet (r + 1)
                      (maxColOf (tableData t) (tableData t') old) old]).
  { unfold removedRows. rewrite EP. rewrite flat_map_single.
    - rewrite HCold, Hold'. now replace (r - 1 + 2) with (r + 1) by lia.
    - intros [k i] Hin. destruct (Hshared k i) as [_ HC];
        [apply in_or_app; now left|]. now rewrite (has_In _ _ _ HC).
    - intros [k i] Hin. destruct (Hshared k i) as [_ HC];
        [apply in_or_app; now right|]. now rewrite (has_In _ _ _ HC). }
  (* the cell edit scanner *)
  assert (Hedit : editedCells t t' sheet = []).
  { unfold editedCells. apply flat_map_nil. intros [k i] Hin.
    unfold rowEdits. rewrite EP in Hin. apply in_app_or in Hin.
    destruct Hin as [Hin|[Hin|Hin]].
    2:{ injection Hin as <- <-. unfold JsMap.has in HCold.
        destruct (JsMap.get (rowMapOf t') kold); [discriminate | reflexivity]. }
    all: destruct (Hshared k i) as [HP HC];
      [apply in_or_app; tauto|];
      rewrite (get_NoDup _ _ _ (rowMapOf_NoDup t') HC);
      assert (Hi : i <> r - 1);
      [ intros ->;
        assert (k = kold)
          by (eapply rowMapOf_index_key; [|exact HP];
              rewrite EP; apply in_or_app; simpl; tauto);
        subst k; pose proof (rowMapOf_NoDup t) as Hnd;
        rewrite EP, map_app in Hnd; simpl in Hnd;
        apply NoDup_remove_2 in Hnd; apply Hnd;
        rewrite in_app_iff;
        first [ left; apply (in_map fst) in Hin; exact Hin
              | right; apply (in_map fst) in Hin; exact Hin ]
      | rewrite Hdata, nth_error_replaceNth_other by assumption;
        apply rowMapOf_entry in HP; destruct HP as (pr & -> & _);
        now apply cellEdits_same_row ]. }
  now rewrite Hins, Hrem, Hedit.
Qed.

(** With equal header rows the scanner never reports column 1: the entry
    of the column mapping for index 0 is the one it skips. *)
Lemma edits_skip_key_column (p c : table) sheet (e : ChangeEvent) :
  tableHeader p = tableHeader c ->
  In e (editedCells p c sheet) ->
  startColumn (affectedRange e) <> 1.
Proof.
  intros Hhdr Hin. unfold editedCells in Hin. apply in_flat_map in Hin.
  destruct Hin as ([k i] & _ & Hin). unfold rowEdits in Hin.
  destruct (JsMap.get (rowMapOf c) k) as [ci|]; [|destruct Hin].
  destruct (nth_error (tableData p) i) as [pr|]; [|destruct Hin].
  destruct (nth_error (tableData c) ci) as [cr|]; [|destruct Hin].
  rewrite (columnMappingOf_same_header _ _ Hhdr) in Hin.
  apply in_flat_map in Hin. destruct Hin as ([h [a b]] & Hmap & Hin).
  apply in_map_iff in Hmap. destruct Hmap as ([h' j] & [= _ Ea Eb] & _).
  subst a b.
  unfold cellEdit in Hin.
  destruct j as [|j]; cbn [Nat.eqb andb] in Hin; [destruct Hin|].
  destruct (String.eqb _ _); [destruct Hin|].
  destruct Hin as [<-|[]]. simpl. lia.
Qed.
End KeyChange.

(** C8, as the code has it.  When the current snapshot is the previous one
    with the primary-key cell of one data row replaced, the cell edit
    scanner reports no [EDIT] in column 1, whatever the keys are.  When
    moreover the old key is non-empty and the key of no other data row, the
    new key is non-empty and the key of no data row of the previous table,
    and the data rows of the two tables are within the engine's bound on
    the arguments of [Math.max], [detectChanges] returns exactly two
    events: the [INSERT_ROW] of the row as it is now, then the
    [REMOVE_ROW] of the row as it was, both at the number of that row. *)
Theorem key_change_is_insert_and_remove {engine : Engine} (A : SheetData) (sheet : string)
  (t : table) (r : nat) (v' : value) :
  (1 <= r ->
   exists evs,
     detectCellEdits (Rows t) (Rows (setCell t r 0 v')) sheet = Ok evs
     /\ forall e, In e evs -> startColumn (affectedRange e) <> 1)
  /\ (forall (old : row) (v : value),
        JsMap.get A sheet = Some t ->
        1 <= r ->
        nth_error t r = Some old ->
        nth_error old 0 = Some v ->
        normalizeValue (Some v) <> "" ->
        normalizeValue (Some v') <> "" ->
        (forall i r', nth_error (tableData t) i = Some r' -> i <> r - 1 ->
                      primaryKey r' <> normalizeValue (Some v)) ->
        (forall r', In r' (tableData t) ->
                    primaryKey r' <> normalizeValue (Some v')) ->
        rowsFit t (setCell t r 0 v') ->
        detectChanges A (JsMap.set A sheet (setCell t r 0 v'))
        = Ok [ {| changeType := INSERT_ROW;
                  sheetName := sheet;
                  affectedRange :=
                    {| startRow := r + 1;
                       endRow := Num (r + 1);
                       startColumn := 1;
                       endColumn :=
                         maxColOf (tableData t) (tableData (setCell t r 0 v'))
                           (replaceNth 0 v' old);
                       a1Notation :=
                         (natToString (r + 1) ++ ":" ++ natToString (r + 1))%string |};
                  cellAddress := None;
                  oldValue := None;
                  newValue := None;
                  rowIndex := Some (r + 1);
                  columnIndex := None;
                  insertedData := Some [replaceNth 0 v' old];
                  deletedData := None |};
               {| changeType := REMOVE_ROW;
                  sheetName := sheet;
                  affectedRange :=
                    {| startRow := r + 1;
                       endRow := Num (r + 1);
                       startColumn := 1;
                       endColumn :=
                         maxColOf (tableData t) (tableData (setCell t r 0 v'))
                           old;
                       a1Notation :=
                         (natToString (r + 1) ++ ":" ++ natToString (r + 1))%string |};
                  cellAddress := None;
                  oldValue := None;
                  newValue := None;
                  rowIndex := Some (r + 1);
                  columnIndex := None;
                  insertedData := None;
                  deletedData := Some [old] |} ]).
Proof.
  split.
  - intros Hr. eexists. split; [apply detectCellEdits_Rows|].
    intros e. apply edits_skip_key_column.
    symmetry. now apply tableHeader_setCell.
  - intros old v Hget Hr Hold Hv Hkold Hknew Huniq Hfresh Hfit.
    destruct (sheetEvents_key_change t sheet r old v v'
                Hr Hold Hv Hkold Hknew Huniq Hfresh)
      as (Hcols & Hrows & Hedits).
    assert (Hev : sheetEvents t (setCell t r 0 v') sheet
                  = [insertRowEvent sheet (r + 1)
                       (maxColOf (tableData t) (tableData (setCell t r 0 v'))
                          (replaceNth 0 v' old))
                       (replaceNth 0 v' old);
                     removeRowEvent sheet (r + 1)
                       (maxColOf (tableData t) (tableData (setCell t r 0 v')) old)
                       old])
      by (unfold sheetEvents; now rewrite Hcols, Hrows, Hedits).
    assert (Hlen : 1 <= List.length (tableData t)).
    { assert (Hold' : nth_error (tableData t) (r - 1) <> None)
        by (rewrite nth_error_tableData by assumption; congruence).
      apply nth_error_Some in Hold'. lia. }
    rewrite (detectChanges_one_sheet A sheet t _ Hget).
    + rewrite Hev. reflexivity.
    + apply sheetWithinLimit_events; [|right; exact Hfit].
      rewrite Hev. unfold rowsFit in Hfit. simpl. lia.
Qed.

Lemma key_change_is_insert_and_remove_witness :
  let engine := exampleEngine in
  let t := [[VStr "id"; VStr "qty"];
            [VStr "a"; VStr "1"]; [VStr "b"; VStr "2"]; [VStr "a"; VStr "3"]] in
  let A := [("Stock", t)] in
  exists ins rem,
    detectChanges A (JsMap.set A "Stock" (setCell t 2 0 (VStr "c")))
    = Ok [ins; rem]
    /\ changeType ins = INSERT_ROW /\ rowIndex ins = Some 3
    /\ insertedData ins = Some [[VStr "c"; VStr "2"]]
    /\ changeType rem = REMOVE_ROW /\ rowIndex rem = Some 3
    /\ deletedData rem = Some [[VStr "b"; VStr "2"]].
Proof.
  intros engine t A.
  assert (Huniq : forall i r', nth_error (tableData t) i = Some r' ->
            i <> 2 - 1 -> primaryKey r' <> normalizeValue (Some (VStr "b"))).
  { intros [|[|[|i]]] r' Hr' Hi.
    - injection Hr' as <-. vm_compute. discriminate.
    - lia.
    - injection Hr' as <-. vm_compute. discriminate.
    - destruct i; discriminate. }
  assert (Hfresh : forall r', In r' (tableData t) ->
            primaryKey r' <> normalizeValue (Some (VStr "c"))).
  { intros r' [<-|[<-|[<-|[]]]]; vm_compute; discriminate. }
  assert (Hold : normalizeValue (Some (VStr "b")) <> "")
    by (vm_compute; discriminate).
  assert (Hnew : normalizeValue (Some (VStr "c")) <> "")
    by (vm_compute; discriminate).
  assert (Hfit : rowsFit t (setCell t 2 0 (VStr "c")))
    by (vm_compute; lia).
  eexists. eexists. split.
  - exact (proj2 (key_change_is_insert_and_remove A "Stock" t 2 (VStr "c"))
             [VStr "b"; VStr "2"] (VStr "b")
             eq_refl (le_S 1 1 (le_n 1)) eq_refl eq_refl
             Hold Hnew Huniq Hfresh Hfit).
  - repeat split; reflexivity.
Defined.

(** C8, as stated, fails in three ways.  A row whose key was empty is
    reported as inserted only; a row whose new key another row carries
    already is reported as removed only; a row whose old key another row
    carries too is reported as inserted only. *)
Lemma key_change_without_its_pair :
  let engine := exampleEngine in
  let t1 := [[VStr "id"]; [VStr "a"]; [VStr ""]] in
  let t2 := [[VStr "id"]; [VStr "a"]; [VStr "b"]] in
  let t3 := [[VStr "id"]; [VStr "a"]; [VStr "a"]] in
  normalizeValue (Some (VStr "")) <> normalizeValue (Some (VStr "z"))
  /\ normalizeValue (Some (VStr "z")) <> ""
  /\ detectChanges [("S", t1)] [("S", setCell t1 2 0 (VStr "z"))]
     = Ok [insertRowEvent "S" 3 1 [VStr "z"]]
  /\ changeType (insertRowEvent "S" 3 1 [VStr "z"]) = INSERT_ROW
  /\ normalizeValue (Some (VStr "b")) <> normalizeValue (Some (VStr "a"))
  /\ normalizeValue (Some (VStr "a")) <> ""
  /\ detectChanges [("S", t2)] [("S", setCell t2 2 0 (VStr "a"))]
     = Ok [removeRowEvent "S" 3 1 [VStr "b"]]
  /\ changeType (removeRowEvent "S" 3 1 [VStr "b"]) = REMOVE_ROW
  /\ detectChanges [("S", t3)] [("S", setCell t3 2 0 (VStr "b"))]
     = Ok [insertRowEvent "S" 3 1 [VStr "b"]].
Proof.
  cbv zeta. repeat split; try (vm_compute; discriminate);
    vm_compute; reflexivity.
Qed.

(* ------------------------------------------------------------------------- *)
(** * Further properties of the change detector *)

(** ** What the two kinds of map record *)

Section FirstOccurrence.
Implicit Types (m : JsMap.t nat) (k : string) (ks : list (option string)).

(** The loop never adds an entry for a key the map holds already. *)
Lemma buildFrom_keeps_present ks : forall i m k j,
  In (k, j) (buildFrom ks i m) -> JsMap.has m k = true -> In (k, j) m.
Proof.
  induction ks as [|ko ks IH]; intros i m k j Hin Hhas; simpl in Hin;
    [exact Hin|].
  apply IH in Hin; [|apply addOpt_has; now left].
  destruct ko as [k'|]; [|exact Hin].
  destruct (JsMap.has m k') eqn:Hk'.
  - now rewrite addOpt_present in Hin.
  - rewrite addOpt_fresh in Hin by assumption. apply in_app_or in Hin.
    destruct Hin as [Hin|[[= -> ->]|[]]]; [exact Hin | congruence].
Qed.

Lemma buildFrom_index_bound ks i m k j :
  In (k, j) (buildFrom ks i m) -> In (k, j) m \/ j < i + List.length ks.
Proof.
  intros H. apply buildFrom_entry in H. destruct H as [H|[Hle Hn]]; [auto|].
  right. assert (j - i < List.length ks) by (apply nth_error_Some; congruence).
  lia.
Qed.

(** The entries of a map built from nothing: a key is recorded with the
    position of its first occurrence, and with no other. *)
Lemma buildFrom_entry_iff ks k j :
  In (k, j) (buildFrom ks 0 [])
  <-> nth_error ks j = Some (Some k)
      /\ forall j', j' < j -> nth_error ks j' <> Some (Some k).
Proof.
  split.
  - intros Hin. pose proof (buildFrom_entry ks 0 [] k j Hin) as [[]|[_ Hn]].
    rewrite Nat.sub_0_r in Hn. split; [exact Hn|].
    intros j' Hlt Hj'.
    destruct (nth_error_split ks j' Hj') as (l1 & l2 & -> & Hlen).
    rewrite buildFrom_app in Hin. cbn [buildFrom] in Hin.
    apply buildFrom_keeps_present in Hin; [|apply addOpt_has; now right].
    change (addOpt (Some k) (0 + List.length l1) (buildFrom l1 0 []))
      with (buildFrom [Some k] (0 + List.length l1) (buildFrom l1 0 [])) in Hin.
    rewrite <- buildFrom_app in Hin.
    apply buildFrom_index_bound in Hin. destruct Hin as [[]|Hin].
    rewrite length_app in Hin. simpl in Hin. lia.
  - intros [Hn Hfirst].
    apply (buildFrom_first ks 0 [] k j Hn Hfirst). reflexivity.
Qed.

Lemma get_iff_In {V} (m : JsMap.t V) k (v : V) :
  NoDup (map fst m) -> (JsMap.get m k = Some v <-> In (k, v) m).
Proof. intros Hnd. split; [apply get_In | now apply get_NoDup]. Qed.
End FirstOccurrence.

Section MapsRecord.
Implicit Types (rows : table) (header : row) (k h : string).

Lemma nth_rowKey_iff rows j k :
  nth_error (map rowKey rows) j = Some (Some k)
  <-> k <> "" /\ exists r, nth_error rows j = Some r /\ primaryKey r = k.
Proof.
  rewrite nth_error_map. split.
  - destruct (nth_error rows j) as [r|]; [|discriminate]. simpl.
    intros [= Hk]. split.
    + apply rowKey_not_empty in Hk as Hne.
      apply rowKey_primaryKey in Hk. congruence.
    + exists r. split; [reflexivity | now apply rowKey_primaryKey].
  - intros (Hne & r & -> & Hk). simpl. f_equal. now apply rowKey_Some.
Qed.

Lemma nth_headerKey_iff header j h :
  nth_error (map headerKey header) j = Some (Some h)
  <-> exists v, nth_error header j = Some v /\ normalizeValue (Some v) = h.
Proof.
  rewrite nth_error_map. unfold headerKey. split.
  - destruct (nth_error header j) as [v|]; [|discriminate]. simpl.
    intros [= Hh]. eauto.
  - intros (v & -> & <-). reflexivity.
Qed.

Lemma buildRowMap_NoDup rows : NoDup (map fst (buildRowMap rows)).
Proof.
  unfold buildRowMap. rewrite forEach_addKey. apply buildFrom_NoDup.
  constructor.
Qed.
End MapsRecord.

Lemma buildRowMap_get_iff (rows : table) (k : string) (i : nat) :
  JsMap.get (buildRowMap rows) k = Some i
  <-> k <> ""
      /\ (exists r, nth_error rows i = Some r /\ primaryKey r = k)
      /\ (forall j r', j < i -> nth_error rows j = Some r' ->
                       primaryKey r' <> k).
Proof.
  rewrite (get_iff_In _ _ _ (buildRowMap_NoDup rows)).
  unfold buildRowMap. rewrite forEach_addKey, buildFrom_entry_iff.
  rewrite nth_rowKey_iff. split.
  - intros ((Hne & Hr) & Hfirst). repeat split; try assumption.
    intros j r' Hlt Hr' Hk. apply (Hfirst j Hlt).
    apply nth_rowKey_iff. eauto.
  - intros (Hne & Hr & Hfirst). repeat split; try assumption.
    intros j Hlt Hj. apply nth_rowKey_iff in Hj.
    destruct Hj as (_ & r' & Hr' & Hk). exact (Hfirst j r' Hlt Hr' Hk).
Qed.

(** X1.  Looking a key up in the map built over the data rows yields the
    index of the first data row whose normalized first cell is that key;
    the empty key is never found, and neither is a key no row carries. *)
Theorem buildRowMap_first_occurrence (rows : table) (k : string) (i : nat) :
  JsMap.get (buildRowMap rows) k = Some i
  <-> k <> ""
      /\ (exists r, nth_error rows i = Some r /\ primaryKey r = k)
      /\ (forall j r', j < i -> nth_error rows j = Some r' ->
                       primaryKey r' <> k).
Proof. apply buildRowMap_get_iff. Qed.

Lemma buildRowMap_first_occurrence_witness :
  JsMap.get (buildRowMap [[VStr ""; VStr "x"]; [VStr " b "]; [VStr "a"];
                          [VStr "b"; VStr "y"]]) "b" = Some 1.
Proof.
  apply (proj2 (buildRowMap_first_occurrence
                  [[VStr ""; VStr "x"]; [VStr " b "]; [VStr "a"];
                   [VStr "b"; VStr "y"]] "b" 1)).
  split; [discriminate|]. split.
  - exists [VStr " b "]. split; reflexivity.
  - intros [|j] r' Hlt Hr'; [|lia]. injection Hr' as <-.
    vm_compute. discriminate.
Defined.

Lemma headerMap_get_iff (header : row) (h : string) (j : nat) :
  JsMap.get (forEach header addHeader 0 JsMap.empty) h = Some j
  <-> (exists v, nth_error header j = Some v /\ normalizeValue (Some v) = h)
      /\ (forall j' v', j' < j -> nth_error header j' = Some v' ->
                        normalizeValue (Some v') <> h).
Proof.
  rewrite forEach_addHeader.
  rewrite get_iff_In by (apply buildFrom_NoDup; constructor).
  rewrite buildFrom_entry_iff, nth_headerKey_iff. split.
  - intros (Hv & Hfirst). split; [assumption|].
    intros j' v' Hlt Hv' Hh. apply (Hfirst j' Hlt).
    apply nth_headerKey_iff. eauto.
  - intros (Hv & Hfirst). split; [assumption|].
    intros j' Hlt Hj'. apply nth_headerKey_iff in Hj'.
    destruct Hj' as (v' & Hv' & Hh). exact (Hfirst j' v' Hlt Hv' Hh).
Qed.

(** X2.  Building a header map fails on [undefined] and on nothing else;
    over a header row it records, for each normalized header text, the
    index of the first column that has it, blank texts included. *)
Theorem buildColMap_first_occurrence (header : row) :
  buildColMap None = Throw TypeError
  /\ exists m,
       buildColMap (Some header) = Ok m
       /\ forall h j,
            JsMap.get m h = Some j
            <-> (exists v, nth_error header j = Some v
                           /\ normalizeValue (Some v) = h)
                /\ (forall j' v', j' < j -> nth_error header j' = Some v' ->
                                  normalizeValue (Some v') <> h).
Proof.
  split; [reflexivity|]. eexists. split; [reflexivity|].
  apply headerMap_get_iff.
Qed.

Lemma buildColMap_first_occurrence_witness :
  exists m,
    buildColMap (Some [VStr "id"; VStr " qty"; VNull; VStr "qty "; VStr ""])
    = Ok m
    /\ JsMap.get m "qty" = Some 1
    /\ JsMap.get m "" = Some 2.
Proof.
  destruct (buildColMap_first_occurrence
              [VStr "id"; VStr " qty"; VNull; VStr "qty "; VStr ""])
    as (_ & m & Hm & Hget).
  exists m. split; [exact Hm|]. split; apply Hget.
  - split; [exists (VStr " qty"); split; reflexivity|].
    intros [|[|j']] v' Hlt Hv'; [| lia | lia].
    injection Hv' as <-. vm_compute. discriminate.
  - split; [exists VNull; split; reflexivity|].
    intros [|[|[|j']]] v' Hlt Hv'; try lia;
      injection Hv' as <-; vm_compute; discriminate.
Defined.

(* ------------------------------------------------------------------------- *)
(** ** Exactly which rows and columns are reported *)

Section Matchers.
Implicit Types (p c t : table) (sheet : string) (e : ChangeEvent).

Lemma rowMapOf_entry_iff t k i :
  In (k, i) (rowMapOf t)
  <-> exists r, firstWithKey (tableData t) i r /\ primaryKey r = k.
Proof.
  rewrite <- (get_iff_In _ _ _ (rowMapOf_NoDup t)).
  unfold rowMapOf. rewrite buildRowMap_get_iff. unfold firstWithKey. split.
  - intros (Hne & (r & Hr & Hk) & Hfirst). exists r. subst k. auto.
  - intros (r & (Hr & Hne & Hfirst) & <-). eauto.
Qed.

Lemma rowMapOf_absent_iff t k :
  k <> "" -> (JsMap.has (rowMapOf t) k = false <-> keyAbsent (tableData t) k).
Proof.
  intros Hne. rewrite has_false_iff, <- has_true_iff, rowMapOf_has.
  rewrite in_map_iff. unfold keyAbsent. split.
  - intros H r' Hin Hk. apply H. exists r'. split; [|assumption].
    now apply rowKey_Some.
  - intros H (r' & Hk & Hin). apply (H r' Hin). now apply rowKey_primaryKey.
Qed.

Lemma colMapOf_entry_iff t h j :
  In (h, j) (colMapOf t)
  <-> exists v, firstWithHeader (tableHeader t) j v
                /\ normalizeValue (Some v) = h.
Proof.
  rewrite <- (get_iff_In _ _ _ (colMapOf_NoDup t)).
  unfold colMapOf. rewrite headerMap_get_iff. unfold firstWithHeader. split.
  - intros ((v & Hv & Hh) & Hfirst). exists v. subst h. auto.
  - intros (v & (Hv & Hfirst) & <-). eauto.
Qed.

Lemma colMapOf_absent_iff t h :
  JsMap.has (colMapOf t) h = false <-> headerAbsent (tableHeader t) h.
Proof.
  unfold headerAbsent. split.
  - intros H v' Hin Hh.
    assert (Ht : JsMap.has (colMapOf t) h = true)
      by (apply colMapOf_has; eauto).
    congruence.
  - intros H. destruct (JsMap.has (colMapOf t) h) eqn:E; [|reflexivity].
    apply colMapOf_has in E. destruct E as (v & Hin & Hh).
    now apply H in Hin.
Qed.

Lemma row_events_iff p c sheet e :
  In e (insertedRows p c sheet ++ removedRows p c sheet)
  <-> (exists i r,
         firstWithKey (tableData c) i r
         /\ keyAbsent (tableData p) (primaryKey r)
         /\ e = insertRowEvent sheet (i + 2)
                  (maxColOf (tableData p) (tableData c) r) r)
      \/ (exists i r,
            firstWithKey (tableData p) i r
            /\ keyAbsent (tableData c) (primaryKey r)
            /\ e = removeRowEvent sheet (i + 2)
                     (maxColOf (tableData p) (tableData c) r) r).
Proof.
  rewrite in_app_iff, insertedRows_In, removedRows_In. split.
  - intros [(k & i & r & Hin & Hhas & Hr & ->)|(k & i & r & Hin & Hhas & Hr & ->)];
      [left|right]; exists i, r;
      apply rowMapOf_entry_iff in Hin; destruct Hin as (r0 & Hfirst & <-);
      assert (r0 = r) by (destruct Hfirst as [H0 _]; congruence); subst r0;
      (split; [exact Hfirst|]); (split; [|reflexivity]);
      destruct Hfirst as (_ & Hne & _);
      exact (proj1 (rowMapOf_absent_iff _ _ Hne) Hhas).
  - intros [(i & r & Hfirst & Habs & ->)|(i & r & Hfirst & Habs & ->)];
      [left|right]; exists (primaryKey r), i, r;
      (split; [apply rowMapOf_entry_iff; eauto|]);
      (split; [|split; [apply Hfirst | reflexivity]]);
      destruct Hfirst as (_ & Hne & _);
      exact (proj2 (rowMapOf_absent_iff _ _ Hne) Habs).
Qed.

Lemma column_events_iff p c sheet e :
  In e (insertedColumns p c sheet ++ removedColumns p c sheet)
  <-> (exists j v,
         firstWithHeader (tableHeader c) j v
         /\ headerAbsent (tableHeader p) (normalizeValue (Some v))
         /\ e = insertColumnEvent sheet j (maxRowOf p c) (columnValues c j))
      \/ (exists j v,
            firstWithHeader (tableHeader p) j v
            /\ headerAbsent (tableHeader c) (normalizeValue (Some v))
            /\ e = removeColumnEvent sheet j (maxRowOf p c) (columnValues p j)).
Proof.
  rewrite in_app_iff, insertedColumns_In, removedColumns_In. split.
  - intros [(h & j & Hin & Hhas & ->)|(h & j & Hin & Hhas & ->)];
      [left|right];
      apply colMapOf_entry_iff in Hin; destruct Hin as (v & Hfirst & <-);
      exists j, v; (split; [exact Hfirst|]); (split; [|reflexivity]);
      now apply colMapOf_absent_iff.
  - intros [(j & v & Hfirst & Habs & ->)|(j & v & Hfirst & Habs & ->)];
      [left|right]; exists (normalizeValue (Some v)), j;
      (split; [apply colMapOf_entry_iff; eauto|]);
      (split; [now apply colMapOf_absent_iff | reflexivity]).
Qed.
End Matchers.

(** *** The order of the entries and of the events *)

Section Increasing.
Implicit Types (p c t : table) (sheet : string)
  (ks : list (option string)) (m : JsMap.t nat).

Lemma StronglySorted_snoc (l : list nat) (i : nat) :
  StronglySorted lt l -> Forall (fun j => j < i) l ->
  StronglySorted lt (l ++ [i]).
Proof.
  induction 1 as [|j l Hl IH Hj]; intros Hb; simpl.
  - repeat constructor.
  - inversion Hb as [|? ? Hji Hb']; subst. constructor; [now apply IH|].
    apply Forall_app. split; [exact Hj | now constructor].
Qed.

(** The loop records increasing indices. *)
Lemma buildFrom_increasing ks : forall i m,
  StronglySorted lt (map snd m) -> Forall (fun j => j < i) (map snd m) ->
  StronglySorted lt (map snd (buildFrom ks i m)).
Proof.
  induction ks as [|ko ks IH]; intros i m Hs Hb; cbn [buildFrom]; [exact Hs|].
  assert (Hstep : StronglySorted lt (map snd (addOpt ko i m))
                  /\ Forall (fun j => j < S i) (map snd (addOpt ko i m))).
  { assert (Hb' : Forall (fun j => j < S i) (map snd m))
      by (eapply Forall_impl; [|exact Hb]; simpl; intros; lia).
    destruct ko as [k|]; [|now split].
    destruct (JsMap.has m k) eqn:E.
    - rewrite addOpt_present by assumption. now split.
    - rewrite addOpt_fresh, map_app by assumption. simpl. split.
      + now apply StronglySorted_snoc.
      + apply Forall_app. split; [exact Hb' | repeat constructor]. }
  apply IH; tauto.
Qed.

Lemma rowMapOf_increasing t : StronglySorted lt (map snd (rowMapOf t)).
Proof. rewrite rowMapOf_eq. apply buildFrom_increasing; constructor. Qed.

Lemma colMapOf_increasing t : StronglySorted lt (map snd (colMapOf t)).
Proof. rewrite colMapOf_eq. apply buildFrom_increasing; constructor. Qed.

(** Events made one per entry at most, each at the place of its entry
    moved by [d], come in increasing order of their places. *)
Lemma flat_map_increasing {E} (pos : E -> nat) (d : nat)
  (f : string * nat -> list E) (l : list (string * nat)) :
  StronglySorted lt (map snd l) ->
  (forall x, In x l -> f x = [] \/ exists e, f x = [e] /\ pos e = snd x + d) ->
  StronglySorted lt (map pos (flat_map f l))
  /\ forall e, In e (flat_map f l) ->
       exists x, In x l /\ pos e = snd x + d.
Proof.
  induction l as [|x l IH]; intros Hs Hf; simpl.
  - split; [constructor | intros e []].
  - inversion Hs as [|? ? Hl Hx]; subst.
    destruct IH as [IHs IHin]; [exact Hl | intros; apply Hf; now right|].
    destruct (Hf x (or_introl eq_refl)) as [->|(e & -> & He)]; simpl.
    + split; [exact IHs|]. intros e He. destruct (IHin e He) as (y & Hy & Hp).
      exists y. auto.
    + split.
      * constructor; [exact IHs|]. apply Forall_forall. intros n Hn.
        apply in_map_iff in Hn. destruct Hn as (e' & <- & He').
        destruct (IHin e' He') as (y & Hy & Hp).
        rewrite Forall_forall in Hx.
        assert (snd x < snd y) by (apply Hx; now apply in_map).
        lia.
      * intros e' [<-|He'].
        -- exists x. auto.
        -- destruct (IHin e' He') as (y & Hy & Hp). exists y. auto.
Qed.

Lemma insertedRows_increasing p c sheet :
  StronglySorted lt
    (map (fun e => startRow (affectedRange e)) (insertedRows p c sheet)).
Proof.
  apply (flat_map_increasing _ 2); [apply rowMapOf_increasing|].
  intros [k i] _. destruct (JsMap.has (rowMapOf p) k); [now left|].
  destruct (nth_error (tableData c) i); [right; eauto | now left].
Qed.

Lemma removedRows_increasing p c sheet :
  StronglySorted lt
    (map (fun e => startRow (affectedRange e)) (removedRows p c sheet)).
Proof.
  apply (flat_map_increasing _ 2); [apply rowMapOf_increasing|].
  intros [k i] _. destruct (JsMap.has (rowMapOf c) k); [now left|].
  destruct (nth_error (tableData p) i); [right; eauto | now left].
Qed.

Lemma insertedColumns_increasing p c sheet :
  StronglySorted lt
    (map (fun e => startColumn (affectedRange e)) (insertedColumns p c sheet)).
Proof.
  apply (flat_map_increasing _ 1); [apply colMapOf_increasing|].
  intros [h i] _. destruct (JsMap.has (colMapOf p) h); [now left|].
  right. eauto.
Qed.

Lemma removedColumns_increasing p c sheet :
  StronglySorted lt
    (map (fun e => startColumn (affectedRange e)) (removedColumns p c sheet)).
Proof.
  apply (flat_map_increasing _ 1); [apply colMapOf_increasing|].
  intros [h i] _. destruct (JsMap.has (colMapOf c) h); [now left|].
  right. eauto.
Qed.

Lemma insertedRows_iff p c sheet e :
  In e (insertedRows p c sheet)
  <-> exists i r,
        firstWithKey (tableData c) i r
        /\ keyAbsent (tableData p) (primaryKey r)
        /\ e = insertRowEvent sheet (i + 2)
                 (maxColOf (tableData p) (tableData c) r) r.
Proof.
  split.
  - intros Hin.
    assert (H : In e (insertedRows p c sheet ++ removedRows p c sheet))
      by (apply in_or_app; now left).
    apply row_events_iff in H. destruct H as [H|(i & r & _ & _ & ->)]; [exact H|].
    apply insertedRows_In in Hin.
    now destruct Hin as (k & j & r' & _ & _ & _ & He).
  - intros H.
    assert (Hin : In e (insertedRows p c sheet ++ removedRows p c sheet))
      by (apply row_events_iff; now left).
    apply in_app_or in Hin. destruct Hin as [Hin|Hin]; [exact Hin|].
    destruct H as (i & r & _ & _ & ->).
    apply removedRows_In in Hin.
    now destruct Hin as (k & j & r' & _ & _ & _ & He).
Qed.

Lemma removedRows_iff p c sheet e :
  In e (removedRows p c sheet)
  <-> exists i r,
        firstWithKey (tableData p) i r
        /\ keyAbsent (tableData c) (primaryKey r)
        /\ e = removeRowEvent sheet (i + 2)
                 (maxColOf (tableData p) (tableData c) r) r.
Proof.
  split.
  - intros Hin.
    assert (H : In e (insertedRows p c sheet ++ removedRows p c sheet))
      by (apply in_or_app; now right).
    apply row_events_iff in H. destruct H as [(i & r & _ & _ & ->)|H]; [|exact H].
    apply removedRows_In in Hin.
    now destruct Hin as (k & j & r' & _ & _ & _ & He).
  - intros H.
    assert (Hin : In e (insertedRows p c sheet ++ removedRows p c sheet))
      by (apply row_events_iff; now right).
    apply in_app_or in Hin. destruct Hin as [Hin|Hin]; [|exact Hin].
    destruct H as (i & r & _ & _ & ->).
    apply insertedRows_In in Hin.
    now destruct Hin as (k & j & r' & _ & _ & _ & He).
Qed.

Lemma insertedColumns_iff p c sheet e :
  In e (insertedColumns p c sheet)
  <-> exists j v,
        firstWithHeader (tableHeader c) j v
        /\ headerAbsent (tableHeader p) (normalizeValue (Some v))
        /\ e = insertColumnEvent sheet j (maxRowOf p c) (columnValues c j).
Proof.
  split.
  - intros Hin.
    assert (H : In e (insertedColumns p c sheet ++ removedColumns p c sheet))
      by (apply in_or_app; now left).
    apply column_events_iff in H.
    destruct H as [H|(j & v & _ & _ & ->)]; [exact H|].
    apply insertedColumns_In in Hin.
    now destruct Hin as (h & i & _ & _ & He).
  - intros H.
    assert (Hin : In e (insertedColumns p c sheet ++ removedColumns p c sheet))
      by (apply column_events_iff; now left).
    apply in_app_or in Hin. destruct Hin as [Hin|Hin]; [exact Hin|].
    destruct H as (j & v & _ & _ & ->).
    apply removedColumns_In in Hin.
    now destruct Hin as (h & i & _ & _ & He).
Qed.

Lemma removedColumns_iff p c sheet e :
  In e (removedColumns p c sheet)
  <-> exists j v,
        firstWithHeader (tableHeader p) j v
        /\ headerAbsent (tableHeader c) (normalizeValue (Some v))
        /\ e = removeColumnEvent sheet j (maxRowOf p c) (columnValues p j).
Proof.
  split.
  - intros Hin.
    assert (H : In e (insertedColumns p c sheet ++ removedColumns p c sheet))
      by (apply in_or_app; now right).
    apply column_events_iff in H.
    destruct H as [(j & v & _ & _ & ->)|H]; [|exact H].
    apply removedColumns_In in Hin.
    now destruct Hin as (h & i & _ & _ & He).
  - intros H.
    assert (Hin : In e (insertedColumns p c sheet ++ removedColumns p c sheet))
      by (apply column_events_iff; now right).
    apply in_app_or in Hin. destruct Hin as [Hin|Hin]; [|exact Hin].
    destruct H as (j & v & _ & _ & ->).
    apply insertedColumns_In in Hin.
    now destruct Hin as (h & i & _ & _ & He).
Qed.
End Increasing.

(** X3.  What the row matcher returns, in full.  For tables whose data
    rows are within the engine's bound on the arguments of [Math.max],
    [detectRowChanges] returns a list of [INSERT_ROW] events followed by a
    list of [REMOVE_ROW] events, each list in strictly increasing order of
    row number, so that no event occurs twice.  An event is among the
    insertions exactly when it is the [INSERT_ROW] written out below for a
    data row of the current table that is the first with its non-empty key,
    no data row of the previous table having that key; among the removals
    exactly when it is the [REMOVE_ROW] written out below for such a row
    of the previous table whose key no data row of the current table
    has. *)
Theorem row_matcher_reports_exactly {engine : Engine} (p c : table) (sheet : string) :
  rowsFit p c ->
  exists ins rem,
    detectRowChanges (Rows p) (Rows c) sheet = Ok (ins ++ rem)
    /\ StronglySorted lt (map (fun e => startRow (affectedRange e)) ins)
    /\ StronglySorted lt (map (fun e => startRow (affectedRange e)) rem)
    /\ (forall e,
          In e ins
          <-> exists i r,
                firstWithKey (tableData c) i r
                /\ keyAbsent (tableData p) (primaryKey r)
                /\ e = {| changeType := INSERT_ROW;
                          sheetName := sheet;
                          affectedRange :=
                            {| startRow := i + 2;
                               endRow := Num (i + 2);
                               startColumn := 1;
                               endColumn :=
                                 mathMax (map (@List.length value) (tableData p)
                                          ++ map (@List.length value) (tableData c)
                                          ++ [List.length r]);
                               a1Notation :=
                                 (natToString (i + 2) ++ ":"
                                  ++ natToString (i + 2))%string |};
                          cellAddress := None;
                          oldValue := None;
                          newValue := None;
                          rowIndex := Some (i + 2);
                          columnIndex := None;
                          insertedData := Some [r];
                          deletedData := None |})
    /\ (forall e,
          In e rem
          <-> exists i r,
                firstWithKey (tableData p) i r
                /\ keyAbsent (tableData c) (primaryKey r)
                /\ e = {| changeType := REMOVE_ROW;
                          sheetName := sheet;
                          affectedRange :=
                            {| startRow := i + 2;
                               endRow := Num (i + 2);
                               startColumn := 1;
                               endColumn :=
                                 mathMax (map (@List.length value) (tableData p)
                                          ++ map (@List.length value) (tableData c)
                                          ++ [List.length r]);
                               a1Notation :=
                                 (natToString (i + 2) ++ ":"
                                  ++ natToString (i + 2))%string |};
                          cellAddress := None;
                          oldValue := None;
                          newValue := None;
                          rowIndex := Some (i + 2);
                          columnIndex := None;
                          insertedData := None;
                          deletedData := Some [r] |}).
Proof.
  intros Hfit.
  exists (insertedRows p c sheet), (removedRows p c sheet).
  split; [now apply detectRowChanges_fit|].
  split; [apply insertedRows_increasing|].
  split; [apply removedRows_increasing|].
  split; intros e; [apply insertedRows_iff | apply removedRows_iff].
Qed.

Lemma row_matcher_reports_exactly_witness :
  let engine := exampleEngine in
  let p := [[VStr "id"]; [VStr "a"]; [VStr "b"]] in
  let c := [[VStr "id"]; [VStr "b"]; [VStr "c"; VStr "1"]; [VStr "c"]] in
  exists ins rem,
    detectRowChanges (Rows p) (Rows c) "S" = Ok (ins ++ rem)
    /\ In (insertRowEvent "S" 3 2 [VStr "c"; VStr "1"]) ins
    /\ ~ In (insertRowEvent "S" 4 2 [VStr "c"]) ins.
Proof.
  intros engine p c.
  assert (Hfit : rowsFit p c) by (vm_compute; lia).
  destruct (row_matcher_reports_exactly p c "S" Hfit)
    as (ins & rem & Hev & _ & _ & Hiff & _).
  exists ins, rem. split; [exact Hev|]. split.
  - apply Hiff. exists 1, [VStr "c"; VStr "1"].
    split; [|split; [|reflexivity]].
    + split; [reflexivity|]. split; [vm_compute; discriminate|].
      intros [|j] r' Hlt Hr'; [|lia]. injection Hr' as <-.
      vm_compute. discriminate.
    + intros r' [<-|[<-|[]]]; vm_compute; discriminate.
  - intros Hin. apply Hiff in Hin.
    destruct Hin as (i & r & Hfirst & _ & He).
    injection He as Hi _ _ Hr. assert (i = 2) by lia. subst i r.
    destruct Hfirst as (_ & _ & Hfirst).
    apply (Hfirst 1 [VStr "c"; VStr "1"]); [lia | reflexivity | reflexivity].
Defined.

(** X4.  What the column matcher returns, in full.  [detectColumnChanges]
    returns a list of [INSERT_COLUMN] events followed by a list of
    [REMOVE_COLUMN] events, each list in strictly increasing order of
    column number, so that no event occurs twice.  An event is among the
    insertions exactly when it is the [INSERT_COLUMN] written out below
    for a column of the current header row that is the first with its
    normalized text, no column of the previous header row having that
    text; among the removals exactly when it is the [REMOVE_COLUMN]
    written out below for such a column of the previous header row whose
    text the current header row lacks. *)
Theorem column_matcher_reports_exactly (p c : table) (sheet : string) :
  exists ins rem,
    detectColumnChanges (Rows p) (Rows c) sheet = Ok (ins ++ rem)
    /\ StronglySorted lt (map (fun e => startColumn (affectedRange e)) ins)
    /\ StronglySorted lt (map (fun e => startColumn (affectedRange e)) rem)
    /\ (forall e,
          In e ins
          <-> exists j v,
                firstWithHeader (tableHeader c) j v
                /\ headerAbsent (tableHeader p) (normalizeValue (Some v))
                /\ e = {| changeType := INSERT_COLUMN;
                          sheetName := sheet;
                          affectedRange :=
                            {| startRow := 1;
                               endRow :=
                                 Num (Nat.max (List.length p) (List.length c));
                               startColumn := j + 1;
                               endColumn := j + 1;
                               a1Notation :=
                                 (columnToLetter (j + 1) ++ "1:"
                                  ++ columnToLetter (j + 1)
                                  ++ natToString
                                       (Nat.max (List.length p) (List.length c)))%string |};
                          cellAddress := None;
                          oldValue := None;
                          newValue := None;
                          rowIndex := None;
                          columnIndex := Some (j + 1);
                          insertedData := Some (columnValues c j);
                          deletedData := None |})
    /\ (forall e,
          In e rem
          <-> exists j v,
                firstWithHeader (tableHeader p) j v
                /\ headerAbsent (tableHeader c) (normalizeValue (Some v))
                /\ e = {| changeType := REMOVE_COLUMN;
                          sheetName := sheet;
                          affectedRange :=
                            {| startRow := 1;
                               endRow :=
                                 Num (Nat.max (List.length p) (List.length c));
                               startColumn := j + 1;
                               endColumn := j + 1;
                               a1Notation :=
                                 (columnToLetter (j + 1) ++ "1:"
                                  ++ columnToLetter (j + 1)
                                  ++ natToString
                                       (Nat.max (List.length p) (List.length c)))%string |};
                          cellAddress := None;
                          oldValue := None;
                          newValue := None;
                          rowIndex := None;
                          columnIndex := Some (j + 1);
                          insertedData := None;
                          deletedData := Some (columnValues p j) |}).
Proof.
  exists (insertedColumns p c sheet), (removedColumns p c sheet).
  split; [apply detectColumnChanges_Rows|].
  split; [apply insertedColumns_increasing|].
  split; [apply removedColumns_increasing|].
  split; intros e; [apply insertedColumns_iff | apply removedColumns_iff].
Qed.

Lemma column_matcher_reports_exactly_witness :
  let p := [[VStr "id"; VStr "old"]; [VStr "a"; VStr "1"]] in
  let c := [[VStr "id"; VStr "new"; VStr " new "]; [VStr "a"; VStr "x"; VStr "y"]] in
  exists ins rem,
    detectColumnChanges (Rows p) (Rows c) "S" = Ok (ins ++ rem)
    /\ In (removeColumnEvent "S" 1 (Num 2) [[VStr "1"]]) rem
    /\ In (insertColumnEvent "S" 1 (Num 2) [[VStr "x"]]) ins.
Proof.
  intros p c.
  destruct (column_matcher_reports_exactly p c "S")
    as (ins & rem & Hev & _ & _ & Hins & Hrem).
  exists ins, rem. split; [exact Hev|]. split.
  - apply Hrem. exists 1, (VStr "old"). split; [|split; [|reflexivity]].
    + split; [reflexivity|]. intros [|j'] v' Hlt Hv'; [|lia].
      injection Hv' as <-. vm_compute. discriminate.
    + intros v' [<-|[<-|[<-|[]]]]; vm_compute; discriminate.
  - apply Hins. exists 1, (VStr "new"). split; [|split; [|reflexivity]].
    + split; [reflexivity|]. intros [|j'] v' Hlt Hv'; [|lia].
      injection Hv' as <-. vm_compute. discriminate.
    + intros v' [<-|[<-|[]]]; vm_compute; discriminate.
Defined.

(* ------------------------------------------------------------------------- *)
(** ** Comparing in the other direction *)

Section Mirror.
Implicit Types (p c : table) (sheet : string).

Lemma map_flat_map {X Y Z} (g : Y -> Z) (f : X -> list Y) (l : list X) :
  map g (flat_map f l) = flat_map (fun x => map g (f x)) l.
Proof.
  induction l as [|x l IH]; simpl; [reflexivity|].
  now rewrite map_app, IH.
Qed.

Lemma mathMax_app (xs ys : list nat) :
  mathMax (xs ++ ys) = Nat.max (mathMax xs) (mathMax ys).
Proof.
  unfold mathMax. induction xs as [|x xs IH]; simpl; [reflexivity|].
  rewrite IH. lia.
Qed.

Lemma maxColOf_comm (d1 d2 : table) (r : row) : maxColOf d1 d2 r = maxColOf d2 d1 r.
Proof. unfold maxColOf, rowLengths. rewrite !mathMax_app. lia. Qed.

Lemma maxRowOf_comm p c : maxRowOf p c = maxRowOf c p.
Proof. unfold maxRowOf. f_equal. lia. Qed.

Lemma insertedColumns_mirror p c sheet :
  insertedColumns c p sheet = map mirror (removedColumns p c sheet).
Proof.
  unfold insertedColumns, removedColumns. rewrite map_flat_map.
  apply flat_map_ext_in. intros [h i] _. rewrite (maxRowOf_comm c p).
  now destruct (JsMap.has (colMapOf c) h).
Qed.

Lemma removedColumns_mirror p c sheet :
  removedColumns c p sheet = map mirror (insertedColumns p c sheet).
Proof.
  unfold insertedColumns, removedColumns. rewrite map_flat_map.
  apply flat_map_ext_in. intros [h i] _. rewrite (maxRowOf_comm c p).
  now destruct (JsMap.has (colMapOf p) h).
Qed.

Lemma insertedRows_mirror p c sheet :
  insertedRows c p sheet = map mirror (removedRows p c sheet).
Proof.
  unfold insertedRows, removedRows. rewrite map_flat_map.
  apply flat_map_ext_in. intros [k i] _.
  destruct (JsMap.has (rowMapOf c) k); [reflexivity|].
  destruct (nth_error (tableData p) i) as [r|]; [|reflexivity].
  now rewrite (maxColOf_comm (tableData c) (tableData p)).
Qed.

Lemma removedRows_mirror p c sheet :
  removedRows c p sheet = map mirror (insertedRows p c sheet).
Proof.
  unfold insertedRows, removedRows. rewrite map_flat_map.
  apply flat_map_ext_in. intros [k i] _.
  destruct (JsMap.has (rowMapOf p) k); [reflexivity|].
  destruct (nth_error (tableData c) i) as [r|]; [|reflexivity].
  now rewrite (maxColOf_comm (tableData c) (tableData p)).
Qed.

Lemma insertedColumns_kind p c sheet :
  Forall (fun e => changeType e = INSERT_COLUMN) (insertedColumns p c sheet).
Proof.
  apply Forall_forall. intros e He. apply insertedColumns_In in He.
  now destruct He as (h & i & _ & _ & ->).
Qed.

Lemma removedColumns_kind p c sheet :
  Forall (fun e => changeType e = REMOVE_COLUMN) (removedColumns p c sheet).
Proof.
  apply Forall_forall. intros e He. apply removedColumns_In in He.
  now destruct He as (h & i & _ & _ & ->).
Qed.

Lemma insertedRows_kind p c sheet :
  Forall (fun e => changeType e = INSERT_ROW) (insertedRows p c sheet).
Proof.
  apply Forall_forall. intros e He. apply insertedRows_In in He.
  now destruct He as (k & i & r & _ & _ & _ & ->).
Qed.

Lemma removedRows_kind p c sheet :
  Forall (fun e => changeType e = REMOVE_ROW) (removedRows p c sheet).
Proof.
  apply Forall_forall. intros e He. apply removedRows_In in He.
  now destruct He as (k & i & r & _ & _ & _ & ->).
Qed.
End Mirror.

(** X5.  Swapping the two tables mirrors the column and the row matcher:
    what one direction reports as inserted, with its data, range and
    index, the other reports as removed, and conversely; in either
    direction the insertions come first.  For the row matcher the data
    rows are within the engine's bound on the arguments of [Math.max]. *)
Theorem matchers_mirror {engine : Engine} (p c : table) (sheet : string) :
  (exists ins rem,
     detectColumnChanges (Rows p) (Rows c) sheet = Ok (ins ++ rem)
     /\ Forall (fun e => changeType e = INSERT_COLUMN) ins
     /\ Forall (fun e => changeType e = REMOVE_COLUMN) rem
     /\ detectColumnChanges (Rows c) (Rows p) sheet
        = Ok (map mirror rem ++ map mirror ins))
  /\ (rowsFit p c ->
      exists ins rem,
        detectRowChanges (Rows p) (Rows c) sheet = Ok (ins ++ rem)
        /\ Forall (fun e => changeType e = INSERT_ROW) ins
        /\ Forall (fun e => changeType e = REMOVE_ROW) rem
        /\ detectRowChanges (Rows c) (Rows p) sheet
           = Ok (map mirror rem ++ map mirror ins)).
Proof.
  split.
  - exists (insertedColumns p c sheet), (removedColumns p c sheet).
    rewrite !detectColumnChanges_Rows.
    rewrite (insertedColumns_mirror p c), (removedColumns_mirror p c).
    repeat split; auto using insertedColumns_kind, removedColumns_kind.
  - intros Hfit.
    assert (Hfit' : rowsFit c p) by (unfold rowsFit in *; lia).
    exists (insertedRows p c sheet), (removedRows p c sheet).
    rewrite (detectRowChanges_fit p c sheet Hfit),
      (detectRowChanges_fit c p sheet Hfit').
    rewrite (insertedRows_mirror p c), (removedRows_mirror p c).
    repeat split; auto using insertedRows_kind, removedRows_kind.
Qed.

Lemma matchers_mirror_witness :
  let engine := exampleEngine in
  let p := [[VStr "id"]; [VStr "a"]; [VStr "b"]] in
  let c := [[VStr "id"]; [VStr "b"]; [VStr "c"]] in
  exists ins rem,
    detectRowChanges (Rows p) (Rows c) "S" = Ok (ins ++ rem)
    /\ detectRowChanges (Rows c) (Rows p) "S"
       = Ok (map mirror rem ++ map mirror ins)
    /\ ins ++ rem = [insertRowEvent "S" 3 1 [VStr "c"];
                     removeRowEvent "S" 2 1 [VStr "a"]].
Proof.
  intros engine p c.
  assert (Hfit : rowsFit p c) by (vm_compute; lia).
  destruct (proj2 (matchers_mirror p c "S") Hfit)
    as (ins & rem & Hev & _ & _ & Hback).
  exists ins, rem. split; [exact Hev|]. split; [exact Hback|].
  assert (E : Ok (ins ++ rem)
              = Ok [insertRowEvent "S" 3 1 [VStr "c"];
                    removeRowEvent "S" 2 1 [VStr "a"]])
    by (rewrite <- Hev; vm_compute; reflexivity).
  now injection E.
Defined.

(* ------------------------------------------------------------------------- *)
(** ** Exactly which cells are reported *)

Section Scanner.
Implicit Types (p c : table) (sheet : string) (e : ChangeEvent).

Lemma columnMappingOf_In p c h pj cj :
  In (h, (pj, cj)) (columnMappingOf p c)
  <-> In (h, pj) (colMapOf p) /\ JsMap.get (colMapOf c) h = Some cj.
Proof.
  unfold columnMappingOf. rewrite in_flat_map. split.
  - intros ([h' i] & Hin & He).
    destruct (JsMap.get (colMapOf c) h') as [ci|] eqn:E; [|destruct He].
    destruct He as [[= <- <- <-]|[]]. auto.
  - intros [Hin Hget]. exists (h, pj). split; [assumption|].
    rewrite Hget. now left.
Qed.

Lemma cellEdit_In sheet (prevRow currRow : row) n h pj cj e :
  In e (cellEdit sheet prevRow currRow n (h, (pj, cj)))
  <-> ~ (pj = 0 /\ cj = 0)
      /\ normalizeValue (Some (definedOrEmpty (nth_error prevRow pj)))
         <> normalizeValue (Some (definedOrEmpty (nth_error currRow cj)))
      /\ e = editEvent sheet n cj (definedOrEmpty (nth_error prevRow pj))
               (definedOrEmpty (nth_error currRow cj)).
Proof.
  unfold cellEdit.
  destruct (Nat.eqb_spec pj 0) as [Hp|Hp], (Nat.eqb_spec cj 0) as [Hc|Hc];
    cbn [andb].
  1:{ split; [intros [] | intros (H & _); exfalso; apply H; auto]. }
  all: destruct (String.eqb_spec
                   (normalizeValue (Some (definedOrEmpty (nth_error prevRow pj))))
                   (normalizeValue (Some (definedOrEmpty (nth_error currRow cj)))))
         as [E|E];
    (split;
     [ intros Hin; try destruct Hin as [<-|[]]; try destruct Hin;
       repeat split; try assumption; intros [? ?]; contradiction
     | intros (_ & Hne & ->); try contradiction; now left ]).
Qed.

Lemma edits_iff p c sheet e :
  In e (editedCells p c sheet)
  <-> exists pi ci prevRow currRow pj cj hp hc,
        firstWithKey (tableData p) pi prevRow
        /\ firstWithKey (tableData c) ci currRow
        /\ primaryKey prevRow = primaryKey currRow
        /\ firstWithHeader (tableHeader p) pj hp
        /\ firstWithHeader (tableHeader c) cj hc
        /\ normalizeValue (Some hp) = normalizeValue (Some hc)
        /\ ~ (pj = 0 /\ cj = 0)
        /\ normalizeValue (Some (definedOrEmpty (nth_error prevRow pj)))
           <> normalizeValue (Some (definedOrEmpty (nth_error currRow cj)))
        /\ e = editEvent sheet (ci + 2) cj
                 (definedOrEmpty (nth_error prevRow pj))
                 (definedOrEmpty (nth_error currRow cj)).
Proof.
  unfold editedCells. rewrite in_flat_map. split.
  - intros ([k pi] & Hrow & He). unfold rowEdits in He.
    destruct (JsMap.get (rowMapOf c) k) as [ci|] eqn:Hci; [|destruct He].
    apply get_In in Hci.
    apply rowMapOf_entry_iff in Hrow, Hci.
    destruct Hrow as (pr & Hpr & Hkp), Hci as (cr & Hcr & Hkc).
    rewrite (proj1 Hpr), (proj1 Hcr) in He.
    apply in_flat_map in He. destruct He as ([h [pj cj]] & Hmap & He).
    apply columnMappingOf_In in Hmap. destruct Hmap as [Hpj Hcj].
    apply get_In in Hcj. apply colMapOf_entry_iff in Hpj, Hcj.
    destruct Hpj as (hp & Hhp & Ehp), Hcj as (hc & Hhc & Ehc).
    apply cellEdit_In in He. destruct He as (Hnot & Hne & ->).
    exists pi, ci, pr, cr, pj, cj, hp, hc. repeat split; try tauto;
      try apply Hpr; try apply Hcr; try apply Hhp; try apply Hhc; congruence.
  - intros (pi & ci & pr & cr & pj & cj & hp & hc
            & Hpr & Hcr & Hk & Hhp & Hhc & Hh & Hnot & Hne & ->).
    exists (primaryKey pr, pi). split; [apply rowMapOf_entry_iff; eauto|].
    unfold rowEdits.
    assert (Hci : In (primaryKey pr, ci) (rowMapOf c))
      by (apply rowMapOf_entry_iff; eauto).
    rewrite (get_NoDup _ _ _ (rowMapOf_NoDup c) Hci).
    rewrite (proj1 Hpr), (proj1 Hcr). apply in_flat_map.
    exists (normalizeValue (Some hp), (pj, cj)). split.
    + apply columnMappingOf_In. split; [apply colMapOf_entry_iff; eauto|].
      apply get_NoDup; [apply colMapOf_NoDup|].
      apply colMapOf_entry_iff. eauto.
    + apply cellEdit_In. auto.
Qed.
(** The cell an event is placed at. *)
Lemma NoDup_flat_map_at {X Y P} (pos : Y -> P) (f : X -> list Y) (l : list X) :
  NoDup l ->
  (forall x, In x l -> NoDup (map pos (f x))) ->
  (forall x y (a b : Y), In x l -> In y l -> In a (f x) -> In b (f y) ->
                         pos a = pos b -> x = y) ->
  NoDup (map pos (flat_map f l)).
Proof.
  induction l as [|x l IH]; intros Hnd Hf Hdisj; simpl; [constructor|].
  inversion Hnd as [|? ? Hx Hl]; subst. rewrite map_app.
  apply NoDup_app.
  - apply Hf. now left.
  - apply IH; [exact Hl | intros; apply Hf; now right |].
    intros y z a b Hy Hz. apply Hdisj; now right.
  - intros q Ha Ha'. apply in_map_iff in Ha, Ha'.
    destruct Ha as (a & <- & He), Ha' as (b & Hpos & He').
    apply in_flat_map in He'. destruct He' as (y & Hy & He').
    assert (x = y)
      by (apply (Hdisj x y a b); auto; [now left | now right]).
    subst y. contradiction.
Qed.

Lemma NoDup_entries {V} (m : JsMap.t V) : NoDup (map fst m) -> NoDup m.
Proof. apply NoDup_map_inv. Qed.

Lemma columnMappingOf_NoDup p c : NoDup (columnMappingOf p c).
Proof.
  rewrite <- (map_id (columnMappingOf p c)). unfold columnMappingOf.
  apply NoDup_flat_map_at.
  - apply NoDup_entries, colMapOf_NoDup.
  - intros [h i] _. destruct (JsMap.get (colMapOf c) h); repeat constructor.
    intros [].
  - intros [h i] [h' i'] a b Hx Hy He He' Heq. unfold id in Heq. subst b.
    destruct (JsMap.get (colMapOf c) h) as [ci|]; [|destruct He].
    destruct (JsMap.get (colMapOf c) h') as [ci'|]; [|destruct He'].
    destruct He as [<-|[]]. destruct He' as [[= -> -> ->]|[]]. reflexivity.
Qed.

Lemma rowEdits_NoDup p c sheet entry :
  NoDup (map (fun e => (startRow (affectedRange e),
                        startColumn (affectedRange e)))
           (rowEdits p c sheet entry)).
Proof.
  destruct entry as [k pi]. unfold rowEdits.
  destruct (JsMap.get (rowMapOf c) k) as [ci|]; [|constructor].
  destruct (nth_error (tableData p) pi) as [pr|]; [|constructor].
  destruct (nth_error (tableData c) ci) as [cr|]; [|constructor].
  apply NoDup_flat_map_at.
  - apply columnMappingOf_NoDup.
  - intros [h [pj cj]] _. unfold cellEdit.
    destruct ((pj =? 0) && (cj =? 0)); [constructor|].
    destruct (String.eqb _ _); repeat constructor. intros [].
  - intros [h [pj cj]] [h' [pj' cj']] e e' Hx Hy He He' Heq.
    apply cellEdit_In in He, He'.
    destruct He as (_ & _ & ->), He' as (_ & _ & ->).
    simpl in Heq. assert (cj' = cj) by (injection Heq; lia). subst cj'.
    apply columnMappingOf_In in Hx, Hy.
    destruct Hx as [Hpj Hcj], Hy as [Hpj' Hcj'].
    apply get_In in Hcj, Hcj'.
    assert (h' = h) by (eapply colMapOf_index_key; eassumption). subst h'.
    apply (get_NoDup _ _ _ (colMapOf_NoDup p)) in Hpj, Hpj'.
    congruence.
Qed.

(** No cell is reported twice. *)
Lemma editedCells_NoDup p c sheet :
  NoDup (map (fun e => (startRow (affectedRange e),
                        startColumn (affectedRange e)))
           (editedCells p c sheet)).
Proof.
  unfold editedCells. apply NoDup_flat_map_at.
  - apply NoDup_entries, rowMapOf_NoDup.
  - intros entry _. apply rowEdits_NoDup.
  - intros [k pi] [k' pi'] e e' Hx Hy He He' Heq. unfold rowEdits in He, He'.
    destruct (JsMap.get (rowMapOf c) k) as [ci|] eqn:Hci; [|destruct He].
    destruct (JsMap.get (rowMapOf c) k') as [ci'|] eqn:Hci'; [|destruct He'].
    destruct (nth_error (tableData p) pi) as [pr|]; [|destruct He].
    destruct (nth_error (tableData c) ci) as [cr|]; [|destruct He].
    destruct (nth_error (tableData p) pi') as [pr'|]; [|destruct He'].
    destruct (nth_error (tableData c) ci') as [cr'|]; [|destruct He'].
    apply in_flat_map in He, He'.
    destruct He as ([h [pj cj]] & _ & He), He' as ([h' [pj' cj']] & _ & He').
    apply cellEdit_In in He, He'.
    destruct He as (_ & _ & ->), He' as (_ & _ & ->).
    simpl in Heq. assert (ci' = ci) by (injection Heq; lia). subst ci'.
    apply get_In in Hci, Hci'.
    assert (k' = k) by (eapply rowMapOf_index_key; eassumption). subst k'.
    apply (get_NoDup _ _ _ (rowMapOf_NoDup p)) in Hx, Hy.
    congruence.
Qed.
End Scanner.

(** X6.  What the cell edit scanner returns, in full.
    [detectCellEdits] returns a list in which no two events are placed at
    the same cell.  An event is in the list exactly when it is the [EDIT]
    written out below for a pair of a row matched by key (the first data
    row with a non-empty key on either side) and a column matched by
    header text (the first column with that text on either side), the
    column not being column 0 on both sides, whose two cells, a missing
    cell read as the empty string, normalize differently.  The event is
    placed at the current position of the row and the column, counted from
    1 with the header row as row 1; its [oldValue] is the previous cell and
    its [newValue] the current cell, both as they are. *)
Theorem cell_scanner_reports_exactly (p c : table) (sheet : string) :
  exists evs,
    detectCellEdits (Rows p) (Rows c) sheet = Ok evs
    /\ NoDup (map (fun e => (startRow (affectedRange e),
                             startColumn (affectedRange e))) evs)
    /\ forall e,
         In e evs
         <-> exists pi ci prevRow currRow pj cj hp hc,
               firstWithKey (tableData p) pi prevRow
               /\ firstWithKey (tableData c) ci currRow
               /\ primaryKey prevRow = primaryKey currRow
               /\ firstWithHeader (tableHeader p) pj hp
               /\ firstWithHeader (tableHeader c) cj hc
               /\ normalizeValue (Some hp) = normalizeValue (Some hc)
               /\ ~ (pj = 0 /\ cj = 0)
               /\ normalizeValue (Some (definedOrEmpty (nth_error prevRow pj)))
                  <> normalizeValue
                       (Some (definedOrEmpty (nth_error currRow cj)))
               /\ e = {| changeType := EDIT;
                         sheetName := sheet;
                         affectedRange :=
                           {| startRow := ci + 2;
                              endRow := Num (ci + 2);
                              startColumn := cj + 1;
                              endColumn := cj + 1;
                              a1Notation :=
                                (columnToLetter (cj + 1)
                                 ++ natToString (ci + 2))%string |};
                         cellAddress :=
                           Some (columnToLetter (cj + 1)
                                 ++ natToString (ci + 2))%string;
                         oldValue :=
                           Some (definedOrEmpty (nth_error prevRow pj));
                         newValue :=
                           Some (definedOrEmpty (nth_error currRow cj));
                         rowIndex := None;
                         columnIndex := None;
                         insertedData := None;
                         deletedData := None |}.
Proof.
  exists (editedCells p c sheet). split; [apply detectCellEdits_Rows|].
  split; [apply editedCells_NoDup|]. intros e. apply edits_iff.
Qed.

Lemma cell_scanner_reports_exactly_witness :
  let p := [[VStr "id"; VStr "qty"; VStr "note"];
            [VStr "a"; VStr "1"; VStr "x"]; [VStr "b"; VStr "2"; VStr "y"]] in
  let c := [[VStr "id"; VStr "note"; VStr "qty"];
            [VStr "b"; VStr "y"; VStr "3"]; [VStr "a"; VStr " x"; VNum 1]] in
  exists evs,
    detectCellEdits (Rows p) (Rows c) "S" = Ok evs
    /\ In (editEvent "S" 2 2 (VStr "2") (VStr "3")) evs
    /\ List.length evs = 1.
Proof.
  intros p c.
  destruct (cell_scanner_reports_exactly p c "S") as (evs & Hev & _ & Hiff).
  exists evs. split; [exact Hev|]. split.
  - apply Hiff.
    exists 1, 0, [VStr "b"; VStr "2"; VStr "y"], [VStr "b"; VStr "y"; VStr "3"],
           1, 2, (VStr "qty"), (VStr "qty").
    split; [|split; [|split; [|split; [|split; [|split; [|split; [|split]]]]]]].
    + split; [reflexivity|]. split; [vm_compute; discriminate|].
      intros [|j] r' Hlt Hr'; [|lia]. injection Hr' as <-.
      vm_compute. discriminate.
    + split; [reflexivity|]. split; [vm_compute; discriminate|].
      intros j r' Hlt. lia.
    + reflexivity.
    + split; [reflexivity|].
      intros [|j'] v' Hlt Hv'; [|lia]. injection Hv' as <-.
      vm_compute. discriminate.
    + split; [reflexivity|].
      intros [|[|j']] v' Hlt Hv'; try lia; injection Hv' as <-;
        vm_compute; discriminate.
    + reflexivity.
    + intros [H _]. discriminate.
    + vm_compute. discriminate.
    + reflexivity.
  - assert (E : Ok evs = Ok [editEvent "S" 2 2 (VStr "2") (VStr "3")])
      by (rewrite <- Hev; vm_compute; reflexivity).
    injection E as ->. reflexivity.
Defined.

(* ------------------------------------------------------------------------- *)
(** ** The coordinates of the events *)

Section Coordinates.
Implicit Types (p c t : table) (sheet : string) (e : ChangeEvent).

Lemma mathMax_ge (xs : list nat) x : In x xs -> x <= mathMax xs.
Proof.
  unfold mathMax. induction xs as [|y xs IH]; simpl; [tauto|].
  intros [->|H]; [lia|]. apply IH in H. lia.
Qed.

Lemma maxColOf_ge_row (d1 d2 : table) (r : row) :
  List.length r <= maxColOf d1 d2 r.
Proof.
  unfold maxColOf, rowLengths. apply mathMax_ge. rewrite !in_app_iff.
  simpl. tauto.
Qed.

Lemma keyed_row_not_empty (r : row) : primaryKey r <> "" -> 1 <= List.length r.
Proof. destruct r; simpl; [intros H; now elim H | lia]. Qed.

Lemma colMapOf_entry_table t h j : In (h, j) (colMapOf t) -> 1 <= List.length t.
Proof.
  intros H. apply colMapOf_entry in H. destruct H as (v & Hv & _).
  destruct t; simpl in *; [destruct j; discriminate | lia].
Qed.

Lemma columns_wellPlaced p c sheet :
  Forall wellPlaced (insertedColumns p c sheet ++ removedColumns p c sheet).
Proof.
  apply Forall_forall. intros e He. apply in_app_or in He.
  destruct He as [He|He];
    [apply insertedColumns_In in He | apply removedColumns_In in He];
    destruct He as (h & j & Hin & _ & ->);
    apply colMapOf_entry_table in Hin;
    unfold wellPlaced; simpl;
    (repeat split; try lia; try reflexivity);
    eexists; (split; [reflexivity | lia]).
Qed.

Lemma rows_wellPlaced p c sheet :
  Forall wellPlaced (insertedRows p c sheet ++ removedRows p c sheet).
Proof.
  apply Forall_forall. intros e He. apply in_app_or in He.
  destruct He as [He|He];
    [apply insertedRows_In in He | apply removedRows_In in He];
    destruct He as (k & i & r & Hin & _ & Hr & ->);
    apply rowMapOf_entry in Hin; destruct Hin as (r' & Hr' & Hk);
    assert (r' = r) by congruence; subst r';
    apply rowKey_not_empty, keyed_row_not_empty in Hk;
    pose proof (maxColOf_ge_row (tableData p) (tableData c) r);
    unfold wellPlaced; simpl;
    (repeat split; try lia; try reflexivity);
    eexists; (split; [reflexivity | lia]).
Qed.

Lemma edits_wellPlaced p c sheet : Forall wellPlaced (editedCells p c sheet).
Proof.
  apply Forall_forall. intros e He. apply edits_iff in He.
  destruct He as (pi & ci & pr & cr & pj & cj & hp & hc & _ & _ & _ & _ & _
                  & _ & _ & _ & ->).
  unfold wellPlaced. simpl. repeat split; try lia; try reflexivity.
  eexists. split; [reflexivity | lia].
Qed.

Lemma sheetEvents_wellPlaced p c sheet : Forall wellPlaced (sheetEvents p c sheet).
Proof.
  unfold sheetEvents. rewrite !Forall_app. repeat split.
  - apply (proj1 (proj1 (Forall_app _ _ _) (columns_wellPlaced p c sheet))).
  - apply (proj2 (proj1 (Forall_app _ _ _) (columns_wellPlaced p c sheet))).
  - apply (proj1 (proj1 (Forall_app _ _ _) (rows_wellPlaced p c sheet))).
  - apply (proj2 (proj1 (Forall_app _ _ _) (rows_wellPlaced p c sheet))).
  - apply edits_wellPlaced.
Qed.
End Coordinates.

(** X7.  When every sheet name reads as an array of rows in both
    snapshots and the two tables under it are of sizes the engine's bound
    allows, [detectChanges] returns and every event it returns is one of
    the five
    kinds the detector makes and has coordinates that count from 1: a row
    event or an edit lies in row 2 or below, a row event starts in column
    1 and reaches at least the width of its row, a column event starts in
    row 1 and ends in the last row of the longer table, an edit spans one
    cell, and the notation, [rowIndex], [columnIndex] and [cellAddress]
    agree with the numbers. *)
Theorem events_well_placed {engine : Engine} (A B : SheetData) :
  (forall sheet, In sheet (allSheetNames A B) ->
     readsRows A sheet = true /\ readsRows B sheet = true
     /\ tableFits (tableOf A sheet) (tableOf B sheet)) ->
  exists evs, detectChanges A B = Ok evs /\ Forall wellPlaced evs.
Proof.
  intros H. rewrite (detectChanges_rows A B).
  2:{ intros sheet Hin. destruct (H sheet Hin) as (HA & HB & Hfit).
      split; [exact HA|]. split; [exact HB|]. now apply tableFits_within. }
  eexists. split; [reflexivity|].
  apply Forall_forall. intros e He. apply in_flat_map in He.
  destruct He as (sheet & _ & He).
  exact (proj1 (Forall_forall _ _) (sheetEvents_wellPlaced _ _ sheet) e He).
Qed.

Lemma events_well_placed_witness :
  let engine := exampleEngine in
  let A := [("S", [[VStr "id"; VStr "qty"]; [VStr "a"; VStr "1"]])] in
  let B := [("S", [[VStr "id"; VStr "qty"; VStr "n"];
                   [VStr "a"; VStr "2"]; [VStr "b"]])] in
  exists evs,
    detectChanges A B = Ok evs /\ Forall wellPlaced evs
    /\ map (fun e => a1Notation (affectedRange e)) evs = ["C1:C3"; "3:3"; "B2"].
Proof.
  intros engine A B. destruct (events_well_placed A B) as (evs & Hev & Hwp).
  - intros sheet Hin.
    assert (Hnames : allSheetNames A B = ["S"]) by (vm_compute; reflexivity).
    rewrite Hnames in Hin. destruct Hin as [<-|[]].
    split; [vm_compute; reflexivity|]. split; [vm_compute; reflexivity|].
    repeat split; vm_compute; lia.
  - exists evs. split; [exact Hev|]. split; [exact Hwp|].
    assert (E : option_map (map (fun e => a1Notation (affectedRange e)))
                  (match detectChanges A B with
                   | Ok l => Some l
                   | Throw _ => None
                   end)
                = Some ["C1:C3"; "3:3"; "B2"])
      by (vm_compute; reflexivity).
    rewrite Hev in E. simpl in E. now injection E.
Defined.

(* ------------------------------------------------------------------------- *)
(** ** Inserting or removing one row *)

Section RowInsertion.
Implicit Types (m : JsMap.t nat) (k : string) (ks : list (option string))
  (sheet : string).

Lemma shiftEntry_S i (ext : list (string * nat)) :
  map (shiftEntry i) (map (shiftEntry 1) ext) = map (shiftEntry (S i)) ext.
Proof.
  rewrite map_map. apply map_ext. intros [k j]. unfold shiftEntry. simpl.
  f_equal. lia.
Qed.

Lemma shiftEntry_0 i k : shiftEntry i (k, 0) = (k, i).
Proof. unfold shiftEntry. simpl. f_equal. lia. Qed.

Lemma shiftEntry_bound (ext : list (string * nat)) n :
  (forall k j, In (k, j) ext -> j < n) ->
  forall k j, In (k, j) (map (shiftEntry 1) ext) -> j < S n.
Proof.
  intros Hb k j Hin. apply in_map_iff in Hin.
  destruct Hin as ([k' j'] & [= <- <-] & Hin). apply Hb in Hin. simpl. lia.
Qed.

(** What a run of the loop appends, up to the index it starts from. *)
Lemma buildFrom_shift ks : forall i i' m m',
  (forall k, In (Some k) ks -> JsMap.has m k = JsMap.has m' k) ->
  exists ext,
    buildFrom ks i m = m ++ map (shiftEntry i) ext
    /\ buildFrom ks i' m' = m' ++ map (shiftEntry i') ext
    /\ forall k j, In (k, j) ext -> j < List.length ks.
Proof.
  induction ks as [|[k|] ks IH]; intros i i' m m' Hagree.
  - exists []. simpl. rewrite !app_nil_r. repeat split. intros k j [].
  - assert (Hk : JsMap.has m k = JsMap.has m' k) by (apply Hagree; now left).
    destruct (JsMap.has m k) eqn:Hm; cbn [buildFrom].
    + rewrite !addOpt_present by congruence.
      destruct (IH (S i) (S i') m m') as (ext & E1 & E2 & Hb).
      { intros; apply Hagree; now right. }
      exists (map (shiftEntry 1) ext). rewrite E1, E2, !shiftEntry_S.
      repeat split. now apply shiftEntry_bound.
    + rewrite !addOpt_fresh by congruence.
      destruct (IH (S i) (S i') (m ++ [(k, i)]) (m' ++ [(k, i')]))
        as (ext & E1 & E2 & Hb).
      { intros k' Hin. rewrite !has_app, !has_single. f_equal.
        apply Hagree. now right. }
      exists ((k, 0) :: map (shiftEntry 1) ext).
      rewrite E1, E2, <- !app_assoc. cbn [map app]. rewrite !shiftEntry_S.
      rewrite !shiftEntry_0. repeat split.
      intros k' j [[= <- <-]|Hin]; [simpl; lia|].
      now apply (shiftEntry_bound ext (List.length ks) Hb k').
  - cbn [buildFrom addOpt].
    destruct (IH (S i) (S i') m m') as (ext & E1 & E2 & Hb).
    { intros; apply Hagree; now right. }
    exists (map (shiftEntry 1) ext). rewrite E1, E2, !shiftEntry_S.
    repeat split. now apply shiftEntry_bound.
Qed.

(** The two maps, without and with a key that occurs once, at position
    [length ks1]: the entries before it agree, the entries after it agree
    up to their index, which is one more on the side that has the key. *)
Lemma buildFrom_insert ks1 ks2 k :
  ~ In (Some k) (ks1 ++ ks2) ->
  exists m1 ext,
    buildFrom (ks1 ++ ks2) 0 []
    = m1 ++ map (shiftEntry (List.length ks1)) ext
    /\ buildFrom (ks1 ++ Some k :: ks2) 0 []
       = m1 ++ (k, List.length ks1)
            :: map (shiftEntry (S (List.length ks1))) ext
    /\ (forall k' j, In (k', j) m1 -> j < List.length ks1)
    /\ (forall k' j, In (k', j) ext -> j < List.length ks2).
Proof.
  intros Hk. rewrite in_app_iff in Hk.
  rewrite !buildFrom_app. cbn [buildFrom]. set (m1 := buildFrom ks1 0 []).
  assert (Hm1 : JsMap.has m1 k = false).
  { destruct (JsMap.has m1 k) eqn:E; [|reflexivity].
    apply buildFrom_has in E. destruct E as [E|E]; [discriminate | tauto]. }
  rewrite addOpt_fresh by assumption.
  destruct (buildFrom_shift ks2 (0 + List.length ks1) (S (0 + List.length ks1))
              m1 (m1 ++ [(k, 0 + List.length ks1)])) as (ext & E1 & E2 & Hb).
  { intros k' Hin. rewrite has_app, has_single.
    destruct (String.eqb_spec k k') as [->|_]; [tauto|].
    now rewrite orb_false_r. }
  exists m1, ext. rewrite E1, E2, <- app_assoc. simpl. repeat split; auto.
  intros k' j Hin. apply buildFrom_index_bound in Hin.
  destruct Hin as [[]|Hin]. exact Hin.
Qed.

(** The three phases between a table and the same table with one more
    data row, whose key is not empty and is the key of no other row. *)
Lemma sheetEvents_row_inserted (h : row) (d1 d2 : table) (r : row) sheet :
  primaryKey r <> "" ->
  keyAbsent (d1 ++ d2) (primaryKey r) ->
  let p := h :: d1 ++ d2 in
  let c := h :: d1 ++ r :: d2 in
  sheetEvents p c sheet
  = [insertRowEvent sheet (List.length d1 + 2)
       (maxColOf (d1 ++ d2) (d1 ++ r :: d2) r) r]
  /\ sheetEvents c p sheet
     = [removeRowEvent sheet (List.length d1 + 2)
          (maxColOf (d1 ++ r :: d2) (d1 ++ d2) r) r].
Proof.
  intros Hne Habs p c. set (k := primaryKey r). set (n := List.length d1).
  assert (Hrk : rowKey r = Some k) by now apply rowKey_Some.
  assert (Hfresh : ~ In (Some k) (map rowKey d1 ++ map rowKey d2)).
  { rewrite <- map_app, in_map_iff. intros (r' & Hk' & Hin).
    apply (Habs r' Hin). now apply rowKey_primaryKey. }
  destruct (buildFrom_insert (map rowKey d1) (map rowKey d2) k Hfresh)
    as (m1 & ext & EP & EC & Hb1 & Hb2).
  rewrite length_map in EP, EC, Hb1. rewrite length_map in Hb2. fold n in EP, EC, Hb1.
  assert (HP : rowMapOf p = m1 ++ map (shiftEntry n) ext).
  { rewrite rowMapOf_eq. unfold p, tableData. simpl. now rewrite map_app. }
  assert (HC : rowMapOf c = m1 ++ (k, n) :: map (shiftEntry (S n)) ext).
  { rewrite rowMapOf_eq. unfold c, tableData. simpl.
    rewrite map_app. simpl. now rewrite Hrk. }
  assert (Hdp : tableData p = d1 ++ d2) by reflexivity.
  assert (Hdc : tableData c = d1 ++ r :: d2) by reflexivity.
  assert (Hhdr : tableHeader p = tableHeader c) by reflexivity.
  (* rows at corresponding indices are the same rows *)
  assert (Hlow : forall j, j < n ->
            nth_error (d1 ++ d2) j = nth_error (d1 ++ r :: d2) j).
  { intros j Hj. now rewrite !nth_error_app1 by exact Hj. }
  assert (Hhigh : forall j,
            nth_error (d1 ++ d2) (n + j) = nth_error (d1 ++ r :: d2) (S n + j)).
  { intros j. rewrite !nth_error_app2 by (unfold n; lia).
    replace (n + j - List.length d1) with j by (unfold n; lia).
    replace (S n + j - List.length d1) with (S j) by (unfold n; lia).
    reflexivity. }
  assert (HPk : JsMap.has (rowMapOf p) k = false).
  { apply has_false_iff. rewrite <- has_true_iff, rowMapOf_has, Hdp, map_app.
    exact Hfresh. }
  assert (HCk : JsMap.has (rowMapOf c) k = true).
  { apply (has_In _ k n). rewrite HC. apply in_or_app. right. now left. }
  (* every entry of the smaller map has its counterpart in the larger *)
  assert (Hpair : forall k' pi, In (k', pi) (rowMapOf p) ->
            exists ci, In (k', ci) (rowMapOf c)
                       /\ nth_error (d1 ++ r :: d2) ci = nth_error (d1 ++ d2) pi).
  { intros k' pi Hin. rewrite HP in Hin. apply in_app_or in Hin.
    destruct Hin as [Hin|Hin].
    - exists pi. split; [rewrite HC; apply in_or_app; now left|].
      symmetry. apply Hlow. eapply Hb1; eassumption.
    - apply in_map_iff in Hin. destruct Hin as ([k'' j] & [= Ek Ej] & Hin).
      subst k'' pi.
      exists (S n + j). split; [|symmetry; apply Hhigh].
      rewrite HC. apply in_or_app. right. right.
      apply in_map_iff. exists (k', j). auto. }
  assert (Hpair' : forall k' ci, In (k', ci) (rowMapOf c) -> k' <> k ->
            exists pi, In (k', pi) (rowMapOf p)
                       /\ nth_error (d1 ++ r :: d2) ci = nth_error (d1 ++ d2) pi).
  { intros k' ci Hin Hk'. rewrite HC in Hin. apply in_app_or in Hin.
    destruct Hin as [Hin|[[= Ek Ej]|Hin]]; [| congruence |].
    - exists ci. split; [rewrite HP; apply in_or_app; now left|].
      symmetry. apply Hlow. eapply Hb1; eassumption.
    - apply in_map_iff in Hin. destruct Hin as ([k'' j] & [= Ek Ej] & Hin).
      subst k'' ci.
      exists (n + j). split; [|symmetry; apply Hhigh].
      rewrite HP. apply in_or_app. right.
      apply in_map_iff. exists (k', j). auto. }
  assert (Hcn : nth_error (tableData c) n = Some r).
  { rewrite Hdc, nth_error_app2 by (unfold n; lia).
    replace (n - List.length d1) with 0 by (unfold n; lia). reflexivity. }
  assert (Hsplit : forall k' j, In (k', j) (m1 ++ map (shiftEntry (S n)) ext) ->
            JsMap.has (rowMapOf p) k' = true).
  { intros k' j Hin. apply has_true_iff. rewrite HP, map_app, in_app_iff.
    apply in_app_or in Hin. destruct Hin as [Hin|Hin].
    - left. apply (in_map fst) in Hin. exact Hin.
    - right. apply in_map_iff in Hin. destruct Hin as ([k'' j'] & [= Ek Ej] & Hin).
      subst k'' j.
      rewrite map_map. apply in_map_iff. exists (k', j'). auto. }
  split.
  - (* from the table without the row to the table with it *)
    unfold sheetEvents.
    rewrite (columns_same_header p c sheet Hhdr). cbn [app].
    assert (Hins : insertedRows p c sheet
                   = [insertRowEvent sheet (n + 2)
                        (maxColOf (d1 ++ d2) (d1 ++ r :: d2) r) r]).
    { unfold insertedRows. rewrite HC, flat_map_single.
      - now rewrite HPk, Hcn.
      - intros [k' j] Hin. rewrite (Hsplit k' j); [reflexivity|].
        apply in_or_app. now left.
      - intros [k' j] Hin. rewrite (Hsplit k' j); [reflexivity|].
        apply in_or_app. now right. }
    assert (Hrem : removedRows p c sheet = []).
    { unfold removedRows. apply flat_map_nil. intros [k' pi] Hin.
      destruct (Hpair k' pi Hin) as (ci & Hci & _).
      now rewrite (has_In _ _ _ Hci). }
    assert (Hed : editedCells p c sheet = []).
    { unfold editedCells. apply flat_map_nil. intros [k' pi] Hin.
      unfold rowEdits. destruct (Hpair k' pi Hin) as (ci & Hci & Hrow).
      rewrite (get_NoDup _ _ _ (rowMapOf_NoDup c) Hci).
      rewrite Hdp, Hdc, Hrow.
      destruct (nth_error (d1 ++ d2) pi) as [pr|]; [|reflexivity].
      now apply cellEdits_same_row. }
    now rewrite Hins, Hrem, Hed.
  - (* and back *)
    unfold sheetEvents.
    rewrite (columns_same_header c p sheet (eq_sym Hhdr)). cbn [app].
    assert (Hins : insertedRows c p sheet = []).
    { unfold insertedRows. apply flat_map_nil. intros [k' pi] Hin.
      destruct (Hpair k' pi Hin) as (ci & Hci & _).
      now rewrite (has_In _ _ _ Hci). }
    assert (Hrem : removedRows c p sheet
                   = [removeRowEvent sheet (n + 2)
                        (maxColOf (d1 ++ r :: d2) (d1 ++ d2) r) r]).
    { unfold removedRows. rewrite HC, flat_map_single.
      - now rewrite HPk, Hcn.
      - intros [k' j] Hin. rewrite (Hsplit k' j); [reflexivity|].
        apply in_or_app. now left.
      - intros [k' j] Hin. rewrite (Hsplit k' j); [reflexivity|].
        apply in_or_app. now right. }
    assert (Hed : editedCells c p sheet = []).
    { unfold editedCells. apply flat_map_nil. intros [k' ci] Hin.
      unfold rowEdits.
      destruct (String.eqb_spec k' k) as [->|Hk'].
      - unfold JsMap.has in HPk.
        destruct (JsMap.get (rowMapOf p) k); [discriminate | reflexivity].
      - destruct (Hpair' k' ci Hin Hk') as (pi & Hpi & Hrow).
        rewrite (get_NoDup _ _ _ (rowMapOf_NoDup p) Hpi).
        rewrite Hdp, Hdc, Hrow.
        destruct (nth_error (d1 ++ d2) pi) as [pr|]; [|reflexivity].
        apply cellEdits_same_row. now symmetry. }
    now rewrite Hins, Hrem, Hed.
Qed.
End RowInsertion.

(** X8.  Inserting one data row anywhere below the header, with a
    non-empty key that no other data row has, yields exactly one event
    whatever else the table holds (duplicate or empty keys, ragged rows),
    when the data rows of the two tables are within the engine's bound on
    the arguments of [Math.max]: the [INSERT_ROW] of that row at its
    position, spanning columns 1 to the width of the widest data row and
    carrying the row as it is.  The rows it pushes down are matched by key
    and give neither row events nor edits. *)
Theorem row_insertion_reported {engine : Engine} (A : SheetData) (sheet : string) (h : row)
  (d1 d2 : table) (r : row) :
  JsMap.get A sheet = Some (h :: d1 ++ d2) ->
  primaryKey r <> "" ->
  keyAbsent (d1 ++ d2) (primaryKey r) ->
  rowsFit (h :: d1 ++ d2) (h :: d1 ++ r :: d2) ->
  detectChanges A (JsMap.set A sheet (h :: d1 ++ r :: d2))
  = Ok [ {| changeType := INSERT_ROW;
            sheetName := sheet;
            affectedRange :=
              {| startRow := List.length d1 + 2;
                 endRow := Num (List.length d1 + 2);
                 startColumn := 1;
                 endColumn :=
                   mathMax (map (@List.length value) (d1 ++ d2)
                            ++ map (@List.length value) (d1 ++ r :: d2)
                            ++ [List.length r]);
                 a1Notation :=
                   (natToString (List.length d1 + 2) ++ ":"
                    ++ natToString (List.length d1 + 2))%string |};
            cellAddress := None;
            oldValue := None;
            newValue := None;
            rowIndex := Some (List.length d1 + 2);
            columnIndex := None;
            insertedData := Some [r];
            deletedData := None |} ].
Proof.
  intros Hget Hne Habs Hfit.
  pose proof (proj1 (sheetEvents_row_inserted h d1 d2 r sheet Hne Habs)) as Hev.
  cbv zeta in Hev.
  rewrite (detectChanges_one_sheet A sheet _ _ Hget).
  - rewrite Hev. reflexivity.
  - apply sheetWithinLimit_events; [|right; exact Hfit].
    rewrite Hev. unfold rowsFit in Hfit. simpl. lia.
Qed.

Lemma row_insertion_reported_witness :
  let engine := exampleEngine in
  let A := [("S", [[VStr "id"; VStr "v"]; [VStr "a"; VStr "1"];
                   [VStr ""; VStr "2"]; [VStr "a"; VStr "3"]])] in
  exists e,
    detectChanges A
      (JsMap.set A "S" [[VStr "id"; VStr "v"]; [VStr "a"; VStr "1"];
                        [VStr "b"; VStr "9"; VStr "x"];
                        [VStr ""; VStr "2"]; [VStr "a"; VStr "3"]])
    = Ok [e]
    /\ changeType e = INSERT_ROW
    /\ rowIndex e = Some 3
    /\ endColumn (affectedRange e) = 3
    /\ insertedData e = Some [[VStr "b"; VStr "9"; VStr "x"]].
Proof.
  intros engine A. eexists. split.
  - apply (row_insertion_reported A "S" [VStr "id"; VStr "v"]
             [[VStr "a"; VStr "1"]] [[VStr ""; VStr "2"]; [VStr "a"; VStr "3"]]
             [VStr "b"; VStr "9"; VStr "x"]).
    + reflexivity.
    + vm_compute. discriminate.
    + intros r' [<-|[<-|[<-|[]]]]; vm_compute; discriminate.
    + vm_compute. lia.
  - repeat split; reflexivity.
Defined.

(** X9.  Removing one data row whose non-empty key no other data row has
    yields exactly one event, when the data rows of the two tables are
    within the engine's bound on the arguments of [Math.max]: the
    [REMOVE_ROW] of that row at the position it had, carrying the row as
    it was.  The rows that move up are matched by key and give neither
    row events nor edits. *)
Theorem row_removal_reported {engine : Engine} (A : SheetData) (sheet : string) (h : row)
  (d1 d2 : table) (r : row) :
  JsMap.get A sheet = Some (h :: d1 ++ r :: d2) ->
  primaryKey r <> "" ->
  keyAbsent (d1 ++ d2) (primaryKey r) ->
  rowsFit (h :: d1 ++ r :: d2) (h :: d1 ++ d2) ->
  detectChanges A (JsMap.set A sheet (h :: d1 ++ d2))
  = Ok [ {| changeType := REMOVE_ROW;
            sheetName := sheet;
            affectedRange :=
              {| startRow := List.length d1 + 2;
                 endRow := Num (List.length d1 + 2);
                 startColumn := 1;
                 endColumn :=
                   mathMax (map (@List.length value) (d1 ++ r :: d2)
                            ++ map (@List.length value) (d1 ++ d2)
                            ++ [List.length r]);
                 a1Notation :=
                   (natToString (List.length d1 + 2) ++ ":"
                    ++ natToString (List.length d1 + 2))%string |};
            cellAddress := None;
            oldValue := None;
            newValue := None;
            rowIndex := Some (List.length d1 + 2);
            columnIndex := None;
            insertedData := None;
            deletedData := Some [r] |} ].
Proof.
  intros Hget Hne Habs Hfit.
  pose proof (proj2 (sheetEvents_row_inserted h d1 d2 r sheet Hne Habs)) as Hev.
  cbv zeta in Hev.
  rewrite (detectChanges_one_sheet A sheet _ _ Hget).
  - rewrite Hev. reflexivity.
  - apply sheetWithinLimit_events; [|right; exact Hfit].
    rewrite Hev. unfold rowsFit in Hfit. simpl. lia.
Qed.

Lemma row_removal_reported_witness :
  let engine := exampleEngine in
  let A := [("S", [[VStr "id"; VStr "v"]; [VStr "b"; VStr "9"; VStr "x"];
                   [VStr "a"; VStr "1"]; [VStr "c"; VStr "2"]])] in
  exists e,
    detectChanges A
      (JsMap.set A "S" [[VStr "id"; VStr "v"];
                        [VStr "a"; VStr "1"]; [VStr "c"; VStr "2"]])
    = Ok [e]
    /\ changeType e = REMOVE_ROW
    /\ rowIndex e = Some 2
    /\ deletedData e = Some [[VStr "b"; VStr "9"; VStr "x"]].
Proof.
  intros engine A. eexists. split.
  - apply (row_removal_reported A "S" [VStr "id"; VStr "v"] []
             [[VStr "a"; VStr "1"]; [VStr "c"; VStr "2"]]
             [VStr "b"; VStr "9"; VStr "x"]).
    + reflexivity.
    + vm_compute. discriminate.
    + intros r' [<-|[<-|[]]]; vm_compute; discriminate.
    + vm_compute. lia.
  - repeat split; reflexivity.
Defined.

(* ------------------------------------------------------------------------- *)
(** ** Reordering the rows *)

Section RowOrder.
Implicit Types (d : table) (sheet : string).

Lemma sheetEvents_rows_permuted (h : row) d d' sheet :
  Permutation d d' ->
  (forall r1 r2, In r1 d -> In r2 d -> primaryKey r1 <> "" ->
                 primaryKey r1 = primaryKey r2 -> r1 = r2) ->
  sheetEvents (h :: d) (h :: d') sheet = [].
Proof.
  intros Hperm Huniq. set (p := h :: d). set (c := h :: d').
  assert (Hkeys : forall k, JsMap.has (rowMapOf p) k = JsMap.has (rowMapOf c) k).
  { intros k. apply eq_true_iff_eq. rewrite !rowMapOf_has.
    change (tableData p) with d. change (tableData c) with d'.
    split; apply Permutation_in, Permutation_map;
      [exact Hperm | now apply Permutation_sym]. }
  unfold sheetEvents.
  rewrite (columns_same_header p c sheet eq_refl). cbn [app].
  assert (Hins : insertedRows p c sheet = []).
  { unfold insertedRows. apply flat_map_nil. intros [k i] Hin.
    now rewrite Hkeys, (has_In _ _ _ Hin). }
  assert (Hrem : removedRows p c sheet = []).
  { unfold removedRows. apply flat_map_nil. intros [k i] Hin.
    now rewrite <- Hkeys, (has_In _ _ _ Hin). }
  rewrite Hins, Hrem. cbn [app].
  unfold editedCells. apply flat_map_nil. intros [k pi] Hin.
  unfold rowEdits.
  destruct (JsMap.get (rowMapOf c) k) as [ci|] eqn:Hci; [|reflexivity].
  apply get_In in Hci. apply rowMapOf_entry in Hin, Hci.
  destruct Hin as (pr & Hpr & Hkp), Hci as (cr & Hcr & Hkc).
  rewrite Hpr, Hcr.
  assert (pr = cr).
  { apply Huniq.
    - eapply nth_error_In. exact Hpr.
    - apply (Permutation_in _ (Permutation_sym Hperm)).
      eapply nth_error_In. exact Hcr.
    - eapply rowKey_not_empty. exact Hkp.
    - apply rowKey_primaryKey in Hkp, Hkc. congruence. }
  subst cr. now apply cellEdits_same_row.
Qed.
End RowOrder.

(** X10.  The order of the data rows does not matter: when the data rows
    of a sheet are rearranged, and no two different rows of the sheet had
    the same non-empty key, [detectChanges] returns no event at all. *)
Theorem row_order_is_ignored {engine : Engine} (A : SheetData) (sheet : string) (h : row)
  (d d' : table) :
  JsMap.get A sheet = Some (h :: d) ->
  Permutation d d' ->
  (forall r1 r2, In r1 d -> In r2 d -> primaryKey r1 <> "" ->
                 primaryKey r1 = primaryKey r2 -> r1 = r2) ->
  detectChanges A (JsMap.set A sheet (h :: d')) = Ok [].
Proof.
  intros Hget Hperm Huniq.
  apply (detectChanges_one_sheet_nil A sheet _ _ Hget).
  now apply sheetEvents_rows_permuted.
Qed.

Lemma row_order_is_ignored_witness :
  let engine := exampleEngine in
  let ra := [VStr "a"; VStr "1"] in
  let rb := [VStr "b"; VStr "2"] in
  let rc := [VStr "c"] in
  let A := [("S", [[VStr "id"; VStr "v"]; ra; rb; rc])] in
  detectChanges A (JsMap.set A "S" [[VStr "id"; VStr "v"]; rc; ra; rb])
  = Ok [].
Proof.
  intros engine ra rb rc A.
  apply (row_order_is_ignored A "S" [VStr "id"; VStr "v"]
           [ra; rb; rc] [rc; ra; rb]).
  - reflexivity.
  - apply Permutation_sym.
    apply (Permutation_cons_app [ra; rb] [] rc). rewrite app_nil_r.
    apply Permutation_refl.
  - intros r1 r2 [<-|[<-|[<-|[]]]] [<-|[<-|[<-|[]]]] _ H;
      try reflexivity; vm_compute in H; discriminate.
Defined.

(* ------------------------------------------------------------------------- *)
(** ** Inserting or removing one column *)

Section ColumnInsertion.
Implicit Types (sheet : string).

Lemma Forall2_nth_error {X Y} (R : X -> Y -> Prop) (l : list X) (l' : list Y) :
  Forall2 R l l' ->
  forall i, match nth_error l i, nth_error l' i with
            | Some x, Some y => R x y
            | None, None => True
            | _, _ => False
            end.
Proof.
  induction 1 as [|x y l l' Hxy _ IH]; intros [|i]; simpl; auto.
  apply IH.
Qed.

Lemma cellEdit_equal_cells sheet (r1 r2 : row) n h i1 i2 :
  nth_error r1 i1 = nth_error r2 i2 ->
  cellEdit sheet r1 r2 n (h, (i1, i2)) = [].
Proof.
  intros E. unfold cellEdit. destruct ((i1 =? 0) && (i2 =? 0)); [reflexivity|].
  rewrite E. now rewrite String.eqb_refl.
Qed.

(** The three phases between a table and the same table with one more
    column, at an index other than 0, under a header text that no other
    column has. *)
Lemma sheetEvents_column_inserted (h1 h2 : row) (hv : value) (dp dc : table)
  sheet :
  1 <= List.length h1 ->
  headerAbsent (h1 ++ h2) (normalizeValue (Some hv)) ->
  Forall2 (columnInsertedInRow (List.length h1)) dp dc ->
  let p := (h1 ++ h2) :: dp in
  let c := (h1 ++ hv :: h2) :: dc in
  sheetEvents p c sheet
  = [insertColumnEvent sheet (List.length h1) (Num (S (List.length dp)))
       (columnValues c (List.length h1))]
  /\ sheetEvents c p sheet
     = [removeColumnEvent sheet (List.length h1) (Num (S (List.length dp)))
          (columnValues c (List.length h1))].
Proof.
  intros Hn Habs Hrows p c. set (n := List.length h1) in *.
  set (hn := normalizeValue (Some hv)) in *.
  assert (Hfresh : ~ In (Some hn) (map headerKey h1 ++ map headerKey h2)).
  { rewrite <- map_app, in_map_iff. intros (v' & Hk & Hin).
    apply (Habs v' Hin). unfold headerKey in Hk. now injection Hk. }
  destruct (buildFrom_insert (map headerKey h1) (map headerKey h2) hn Hfresh)
    as (m1 & ext & EP & EC & Hb1 & _).
  rewrite length_map in EP, EC, Hb1. fold n in EP, EC, Hb1.
  assert (HP : colMapOf p = m1 ++ map (shiftEntry n) ext).
  { rewrite colMapOf_eq. unfold p. simpl. now rewrite map_app. }
  assert (HC : colMapOf c = m1 ++ (hn, n) :: map (shiftEntry (S n)) ext).
  { rewrite colMapOf_eq. unfold c. simpl. now rewrite map_app. }
  assert (Hlen : List.length dc = List.length dp)
    by (symmetry; eapply Forall2_length; eassumption).
  assert (Hmax : maxRowOf p c = Num (S (List.length dp))).
  { unfold maxRowOf, p, c. simpl. rewrite Hlen. f_equal. lia. }
  assert (Hmax' : maxRowOf c p = Num (S (List.length dp)))
    by now rewrite <- maxRowOf_comm.
  (* every column of the narrower table is found in the wider, shifted *)
  assert (Hto : forall h' pj, In (h', pj) (colMapOf p) ->
                  In (h', shiftIndex n pj) (colMapOf c)).
  { intros h' pj Hin. rewrite HP in Hin. rewrite HC. apply in_app_or in Hin.
    apply in_or_app. destruct Hin as [Hin|Hin].
    - left. unfold shiftIndex.
      destruct (Nat.ltb_spec pj n) as [_|Hge]; [exact Hin|].
      apply Hb1 in Hin. lia.
    - right. right. apply in_map_iff in Hin.
      destruct Hin as ([h'' j] & [= Eh Ej] & Hin). subst h'' pj.
      unfold shiftIndex. destruct (Nat.ltb_spec (n + j) n) as [Hlt|_]; [lia|].
      apply in_map_iff. exists (h', j). auto. }
  assert (Hfrom : forall h' cj, In (h', cj) (colMapOf c) -> h' <> hn ->
                    exists pj, In (h', pj) (colMapOf p) /\ cj = shiftIndex n pj).
  { intros h' cj Hin Hh'. rewrite HC in Hin. apply in_app_or in Hin.
    destruct Hin as [Hin|[[= Eh Ej]|Hin]]; [| congruence |].
    - exists cj. split; [rewrite HP; apply in_or_app; now left|].
      unfold shiftIndex. destruct (Nat.ltb_spec cj n) as [_|Hge]; [reflexivity|].
      apply Hb1 in Hin. lia.
    - apply in_map_iff in Hin.
      destruct Hin as ([h'' j] & [= Eh Ej] & Hin). subst h'' cj.
      exists (n + j). split.
      + rewrite HP. apply in_or_app. right.
        apply in_map_iff. exists (h', j). auto.
      + unfold shiftIndex.
        destruct (Nat.ltb_spec (n + j) n) as [Hlt|_]; [lia | reflexivity]. }
  assert (HPh : JsMap.has (colMapOf p) hn = false).
  { apply has_false_iff. rewrite <- has_true_iff, colMapOf_has.
    intros (v' & Hin & Hv'). exact (Habs v' Hin Hv'). }
  (* the keys of the rows are untouched *)
  assert (Hkeys : map rowKey (tableData p) = map rowKey (tableData c)).
  { change (tableData p) with dp. change (tableData c) with dc.
    clear - Hrows Hn. induction Hrows as [|pr cr dp dc Hrow _ IH];
      [reflexivity|].
    simpl. rewrite IH. f_equal. unfold rowKey, primaryKey.
    specialize (Hrow 0). unfold shiftIndex in Hrow.
    destruct (Nat.ltb_spec 0 n) as [_|Hge]; [|lia]. now rewrite Hrow. }
  pose proof (rowMapOf_keys _ _ Hkeys) as Hmaps.
  assert (Hrow : forall i pr cr,
            nth_error dp i = Some pr -> nth_error dc i = Some cr ->
            columnInsertedInRow n pr cr).
  { intros i pr cr Hpr Hcr. pose proof (Forall2_nth_error _ _ _ Hrows i) as H.
    now rewrite Hpr, Hcr in H. }
  split.
  - unfold sheetEvents. rewrite (rows_same_keys p c sheet Hkeys).
    assert (Hins : insertedColumns p c sheet
                   = [insertColumnEvent sheet n (Num (S (List.length dp)))
                        (columnValues c n)]).
    { unfold insertedColumns. rewrite HC, flat_map_single.
      - now rewrite HPh, Hmax.
      - intros [h' j] Hin.
        assert (Hc : In (h', j) (colMapOf c))
          by (rewrite HC; apply in_or_app; now left).
        destruct (String.eqb_spec h' hn) as [->|Hne].
        + exfalso. pose proof (colMapOf_NoDup c) as Hnd.
          rewrite HC, map_app in Hnd. simpl in Hnd.
          apply NoDup_remove_2 in Hnd. apply Hnd, in_or_app. left.
          apply (in_map fst) in Hin. exact Hin.
        + destruct (Hfrom h' j Hc Hne) as (pj & Hpj & _).
          now rewrite (has_In _ _ _ Hpj).
      - intros [h' j] Hin.
        assert (Hc : In (h', j) (colMapOf c))
          by (rewrite HC; apply in_or_app; right; now right).
        destruct (String.eqb_spec h' hn) as [->|Hne].
        + exfalso. pose proof (colMapOf_NoDup c) as Hnd.
          rewrite HC, map_app in Hnd. simpl in Hnd.
          apply NoDup_remove_2 in Hnd. apply Hnd, in_or_app. right.
          apply (in_map fst) in Hin. exact Hin.
        + destruct (Hfrom h' j Hc Hne) as (pj & Hpj & _).
          now rewrite (has_In _ _ _ Hpj). }
    assert (Hrem : removedColumns p c sheet = []).
    { unfold removedColumns. apply flat_map_nil. intros [h' pj] Hin.
      now rewrite (has_In _ _ _ (Hto h' pj Hin)). }
    assert (Hed : editedCells p c sheet = []).
    { unfold editedCells. apply flat_map_nil. intros [k i] Hin.
      unfold rowEdits. rewrite <- Hmaps.
      rewrite (get_NoDup _ _ _ (rowMapOf_NoDup p) Hin).
      change (tableData p) with dp. change (tableData c) with dc.
      destruct (nth_error dp i) as [pr|] eqn:Hpr; [|reflexivity].
      destruct (nth_error dc i) as [cr|] eqn:Hcr; [|reflexivity].
      apply flat_map_nil. intros [h' [pj cj]] Hmap.
      apply columnMappingOf_In in Hmap. destruct Hmap as [Hpj Hcj].
      apply Hto in Hpj.
      rewrite (get_NoDup _ _ _ (colMapOf_NoDup c) Hpj) in Hcj.
      injection Hcj as <-. apply cellEdit_equal_cells.
      symmetry. apply (Hrow i pr cr Hpr Hcr). }
    now rewrite Hins, Hrem, Hed.
  - unfold sheetEvents. rewrite (rows_same_keys c p sheet (eq_sym Hkeys)).
    assert (Hins : insertedColumns c p sheet = []).
    { unfold insertedColumns. apply flat_map_nil. intros [h' pj] Hin.
      now rewrite (has_In _ _ _ (Hto h' pj Hin)). }
    assert (Hrem : removedColumns c p sheet
                   = [removeColumnEvent sheet n (Num (S (List.length dp)))
                        (columnValues c n)]).
    { unfold removedColumns. rewrite HC, flat_map_single.
      - now rewrite HPh, Hmax'.
      - intros [h' j] Hin.
        assert (Hc : In (h', j) (colMapOf c))
          by (rewrite HC; apply in_or_app; now left).
        destruct (String.eqb_spec h' hn) as [->|Hne].
        + exfalso. pose proof (colMapOf_NoDup c) as Hnd.
          rewrite HC, map_app in Hnd. simpl in Hnd.
          apply NoDup_remove_2 in Hnd. apply Hnd, in_or_app. left.
          apply (in_map fst) in Hin. exact Hin.
        + destruct (Hfrom h' j Hc Hne) as (pj & Hpj & _).
          now rewrite (has_In _ _ _ Hpj).
      - intros [h' j] Hin.
        assert (Hc : In (h', j) (colMapOf c))
          by (rewrite HC; apply in_or_app; right; now right).
        destruct (String.eqb_spec h' hn) as [->|Hne].
        + exfalso. pose proof (colMapOf_NoDup c) as Hnd.
          rewrite HC, map_app in Hnd. simpl in Hnd.
          apply NoDup_remove_2 in Hnd. apply Hnd, in_or_app. right.
          apply (in_map fst) in Hin. exact Hin.
        + destruct (Hfrom h' j Hc Hne) as (pj & Hpj & _).
          now rewrite (has_In _ _ _ Hpj). }
    assert (Hed : editedCells c p sheet = []).
    { unfold editedCells. apply flat_map_nil. intros [k i] Hin.
      unfold rowEdits. rewrite <- Hmaps in Hin.
      rewrite (get_NoDup _ _ _ (rowMapOf_NoDup p) Hin).
      change (tableData p) with dp. change (tableData c) with dc.
      destruct (nth_error dc i) as [cr|] eqn:Hcr; [|reflexivity].
      destruct (nth_error dp i) as [pr|] eqn:Hpr; [|reflexivity].
      apply flat_map_nil. intros [h' [cj pj]] Hmap.
      apply columnMappingOf_In in Hmap. destruct Hmap as [Hcj Hpj].
      apply get_In, Hto in Hpj.
      assert (cj = shiftIndex n pj).
      { pose proof (get_NoDup _ _ _ (colMapOf_NoDup c) Hcj) as G1.
        pose proof (get_NoDup _ _ _ (colMapOf_NoDup c) Hpj) as G2.
        congruence. }
      subst cj. apply cellEdit_equal_cells. apply (Hrow i pr cr Hpr Hcr). }
    now rewrite Hins, Hrem, Hed.
Qed.
End ColumnInsertion.

(** X11.  Inserting one column anywhere but in front of the key column,
    under a header text that no other column has, yields exactly one
    event: the [INSERT_COLUMN] at its position, spanning the header and
    all data rows.  The cells it pushes to the right are matched by header
    text and give no edits, and no row event arises.  The engine is one
    that passes at least one argument to [push]. *)
Theorem column_insertion_reported {engine : Engine} (A : SheetData) (sheet : string)
  (h1 h2 : row) (hv : value) (dp dc : table) :
  1 <= argumentLimit ->
  JsMap.get A sheet = Some ((h1 ++ h2) :: dp) ->
  1 <= List.length h1 ->
  headerAbsent (h1 ++ h2) (normalizeValue (Some hv)) ->
  Forall2 (columnInsertedInRow (List.length h1)) dp dc ->
  detectChanges A (JsMap.set A sheet ((h1 ++ hv :: h2) :: dc))
  = Ok [ {| changeType := INSERT_COLUMN;
          sheetName := sheet;
          affectedRange :=
            {| startRow := 1;
               endRow := Num (S (List.length dp));
               startColumn := List.length h1 + 1;
               endColumn := List.length h1 + 1;
               a1Notation :=
                 (columnToLetter (List.length h1 + 1) ++ "1:"
                  ++ columnToLetter (List.length h1 + 1)
                  ++ natToString (S (List.length dp)))%string |};
          cellAddress := None;
          oldValue := None;
          newValue := None;
          rowIndex := None;
          columnIndex := Some (List.length h1 + 1);
          insertedData := Some (columnValues ((h1 ++ hv :: h2) :: dc) (List.length h1));
          deletedData := None |} ].
Proof.
  intros Hlimit Hget Hn Habs Hrows.
  apply (detectChanges_one_sheet_short A sheet _ _ _ Hget).
  - apply (sheetEvents_column_inserted h1 h2 hv dp dc sheet Hn Habs Hrows).
  - repeat constructor.
  - exact Hlimit.
Qed.

Lemma column_insertion_reported_witness :
  let engine := exampleEngine in
  let A := [("S", [[VStr "id"; VStr "qty"];
                   [VStr "a"; VStr "1"]; [VStr "b"]])] in
  detectChanges A
    (JsMap.set A "S" [[VStr "id"; VStr "note"; VStr "qty"];
                      [VStr "a"; VStr "x"; VStr "1"]; [VStr "b"; VStr "y"]])
  = Ok [insertColumnEvent "S" 1 (Num 3) [[VStr "x"]; [VStr "y"]]].
Proof.
  intros engine A.
  apply (column_insertion_reported A "S" [VStr "id"] [VStr "qty"]
           (VStr "note") [[VStr "a"; VStr "1"]; [VStr "b"]]
           [[VStr "a"; VStr "x"; VStr "1"]; [VStr "b"; VStr "y"]]).
  - vm_compute. lia.
  - reflexivity.
  - simpl. lia.
  - intros v' [<-|[<-|[]]]; vm_compute; discriminate.
  - repeat constructor; intros [|[|[|j]]]; reflexivity.
Defined.

(** X12.  Removing one column other than the key column, whose header
    text no other column has, yields exactly one event: the
    [REMOVE_COLUMN] at the position it had, carrying the truthy cells it
    held.  The cells that move to the left give no edits.  The engine is
    one that passes at least one argument to [push]. *)
Theorem column_removal_reported {engine : Engine} (A : SheetData) (sheet : string)
  (h1 h2 : row) (hv : value) (dp dc : table) :
  1 <= argumentLimit ->
  JsMap.get A sheet = Some ((h1 ++ hv :: h2) :: dc) ->
  1 <= List.length h1 ->
  headerAbsent (h1 ++ h2) (normalizeValue (Some hv)) ->
  Forall2 (columnInsertedInRow (List.length h1)) dp dc ->
  detectChanges A (JsMap.set A sheet ((h1 ++ h2) :: dp))
  = Ok [ {| changeType := REMOVE_COLUMN;
          sheetName := sheet;
          affectedRange :=
            {| startRow := 1;
               endRow := Num (S (List.length dp));
               startColumn := List.length h1 + 1;
               endColumn := List.length h1 + 1;
               a1Notation :=
                 (columnToLetter (List.length h1 + 1) ++ "1:"
                  ++ columnToLetter (List.length h1 + 1)
                  ++ natToString (S (List.length dp)))%string |};
          cellAddress := None;
          oldValue := None;
          newValue := None;
          rowIndex := None;
          columnIndex := Some (List.length h1 + 1);
          insertedData := None;
          deletedData := Some (columnValues ((h1 ++ hv :: h2) :: dc) (List.length h1)) |} ].
Proof.
  intros Hlimit Hget Hn Habs Hrows.
  apply (detectChanges_one_sheet_short A sheet _ _ _ Hget).
  - apply (sheetEvents_column_inserted h1 h2 hv dp dc sheet Hn Habs Hrows).
  - repeat constructor.
  - exact Hlimit.
Qed.

Lemma column_removal_reported_witness :
  let engine := exampleEngine in
  let A := [("S", [[VStr "id"; VStr "note"; VStr "qty"];
                   [VStr "a"; VStr "x"; VStr "1"]; [VStr "b"; VStr ""]])] in
  detectChanges A
    (JsMap.set A "S" [[VStr "id"; VStr "qty"]; [VStr "a"; VStr "1"]; [VStr "b"]])
  = Ok [removeColumnEvent "S" 1 (Num 3) [[VStr "x"]]].
Proof.
  intros engine A.
  apply (column_removal_reported A "S" [VStr "id"] [VStr "qty"]
           (VStr "note") [[VStr "a"; VStr "1"]; [VStr "b"]]
           [[VStr "a"; VStr "x"; VStr "1"]; [VStr "b"; VStr ""]]).
  - vm_compute. lia.
  - reflexivity.
  - simpl. lia.
  - intros v' [<-|[<-|[]]]; vm_compute; discriminate.
  - repeat constructor; intros [|[|[|j]]]; reflexivity.
Defined.

(* ------------------------------------------------------------------------- *)
(** ** Adding or removing a sheet *)

Section SheetAdded.
Implicit Types (A : SheetData) (sheet : string) (t : table).

Lemma set_keys_In {V} (m : JsMap.t V) k (v : V) k' :
  In k' (map fst (JsMap.set m k v)) <-> In k' (map fst m) \/ k' = k.
Proof.
  rewrite <- !has_true_iff. unfold JsMap.has.
  destruct (String.eqb_spec k' k) as [->|Hne].
  - rewrite get_set_same. split; auto.
  - rewrite get_set_other by assumption. split; [auto | intros [H|H]; tauto].
Qed.

Lemma tableOf_set_same A sheet t : tableOf (JsMap.set A sheet t) sheet = t.
Proof. apply tableOf_get, get_set_same. Qed.

(** Assigning the rows of one sheet, new or not: the result is what that
    sheet contributes, in either direction. *)
Lemma detectChanges_set_sheet {engine : Engine} A sheet t :
  readsRows A sheet = true ->
  sheetWithinLimit (tableOf A sheet) t sheet ->
  sheetWithinLimit t (tableOf A sheet) sheet ->
  detectChanges A (JsMap.set A sheet t)
  = Ok (sheetEvents (tableOf A sheet) t sheet)
  /\ detectChanges (JsMap.set A sheet t) A
     = Ok (sheetEvents t (tableOf A sheet) sheet).
Proof.
  intros Hreads Hfit Hfit'. set (B := JsMap.set A sheet t).
  assert (HB : forall name, In name (map fst B) -> readsRows B name = true)
    by (intros; now apply readsRows_own).
  assert (HA : forall name, In name (map fst A) \/ In name (map fst B) ->
                 readsRows A name = true /\ readsRows B name = true).
  { intros name Hname.
    assert (Hcases : In name (map fst A) \/ name = sheet).
    { destruct Hname as [H|H]; [auto|]. now apply set_keys_In in H. }
    assert (HinB : In name (map fst B))
      by (apply set_keys_In; exact Hcases).
    split; [|now apply HB].
    destruct Hcases as [H| ->]; [now apply readsRows_own | exact Hreads]. }
  assert (Hother : forall name, name <> sheet ->
            sheetEvents (tableOf A name) (tableOf B name) name = []
            /\ sheetEvents (tableOf B name) (tableOf A name) name = []).
  { intros name Hne. unfold B. rewrite tableOf_set_other by assumption.
    split; apply sheetEvents_same. }
  assert (HsB : In sheet (map fst B)) by (apply set_keys_In; now right).
  assert (Hlimit : forall name,
            sheetWithinLimit (tableOf A name) (tableOf B name) name
            /\ sheetWithinLimit (tableOf B name) (tableOf A name) name).
  { intros name. destruct (String.eqb_spec name sheet) as [->|Hne].
    - unfold B. rewrite tableOf_set_same. now split.
    - destruct (Hother name Hne). split; now apply sheetWithinLimit_nil. }
  split.
  - rewrite detectChanges_rows.
    2:{ intros name Hname. apply allSheetNames_In in Hname.
        destruct (HA name Hname) as [H1 H2].
        split; [exact H1|]. split; [exact H2 | apply Hlimit]. }
    f_equal.
    assert (Hnames : In sheet (allSheetNames A B))
      by (apply allSheetNames_In; now right).
    pose proof (JsSet_ofList_NoDup (map fst A ++ map fst B)) as Hnd.
    fold (allSheetNames A B) in Hnd.
    apply in_split in Hnames. destruct Hnames as (l1 & l2 & Hsplit).
    rewrite Hsplit in Hnd |- *. apply NoDup_remove_2 in Hnd.
    rewrite flat_map_single.
    + unfold B. now rewrite tableOf_set_same.
    + intros name Hname. apply Hother. intros ->.
      apply Hnd, in_or_app. now left.
    + intros name Hname. apply Hother. intros ->.
      apply Hnd, in_or_app. now right.
  - rewrite detectChanges_rows.
    2:{ intros name Hname. apply allSheetNames_In in Hname.
        destruct (HA name) as [H1 H2]; [tauto|].
        split; [exact H2|]. split; [exact H1 | apply Hlimit]. }
    f_equal.
    assert (Hnames : In sheet (allSheetNames B A))
      by (apply allSheetNames_In; now left).
    pose proof (JsSet_ofList_NoDup (map fst B ++ map fst A)) as Hnd.
    fold (allSheetNames B A) in Hnd.
    apply in_split in Hnames. destruct Hnames as (l1 & l2 & Hsplit).
    rewrite Hsplit in Hnd |- *. apply NoDup_remove_2 in Hnd.
    rewrite flat_map_single.
    + unfold B. now rewrite tableOf_set_same.
    + intros name Hname. apply Hother. intros ->.
      apply Hnd, in_or_app. now left.
    + intros name Hname. apply Hother. intros ->.
      apply Hnd, in_or_app. now right.
Qed.

Lemma tableOf_absent A sheet :
  JsMap.get A sheet = None -> JsMap.has objectPrototype sheet = false ->
  tableOf A sheet = [].
Proof.
  intros Hget Hproto. unfold tableOf, sheetOrEmpty, getProperty.
  rewrite Hget. unfold JsMap.has in Hproto.
  now destruct (JsMap.get objectPrototype sheet).
Qed.

Lemma flat_map_singletons {X Y} (f : X -> list Y) (l : list X) :
  (forall x, In x l -> exists y, f x = [y]) ->
  List.length (flat_map f l) = List.length l.
Proof.
  induction l as [|x l IH]; intros H; simpl; [reflexivity|].
  destruct (H x (or_introl eq_refl)) as (y & ->). simpl. f_equal.
  apply IH. intros; apply H; now right.
Qed.

Lemma sheetEvents_from_nothing t sheet :
  sheetEvents [] t sheet = insertedColumns [] t sheet ++ insertedRows [] t sheet
  /\ List.length (insertedColumns [] t sheet) = List.length (colMapOf t)
  /\ List.length (insertedRows [] t sheet) = List.length (rowMapOf t).
Proof.
  split; [|split].
  - unfold sheetEvents, removedColumns, removedRows, editedCells. simpl.
    now rewrite !app_nil_r.
  - unfold insertedColumns. apply flat_map_singletons. intros [h j] _.
    simpl. eauto.
  - unfold insertedRows. apply flat_map_singletons. intros [k i] Hin.
    apply rowMapOf_entry in Hin. destruct Hin as (r & -> & _). simpl. eauto.
Qed.

Lemma sheetEvents_to_nothing t sheet :
  sheetEvents t [] sheet = removedColumns t [] sheet ++ removedRows t [] sheet
  /\ List.length (removedColumns t [] sheet) = List.length (colMapOf t)
  /\ List.length (removedRows t [] sheet) = List.length (rowMapOf t).
Proof.
  split; [|split].
  - assert (Hed : editedCells t [] sheet = []).
    { unfold editedCells. apply flat_map_nil. now intros [k i] _. }
    unfold sheetEvents. rewrite Hed, app_nil_r. reflexivity.
  - unfold removedColumns. apply flat_map_singletons. intros [h j] _.
    simpl. eauto.
  - unfold removedRows. apply flat_map_singletons. intros [k i] Hin.
    apply rowMapOf_entry in Hin. destruct Hin as (r & -> & _). simpl. eauto.
Qed.

Lemma editedCells_to_nothing t sheet : editedCells t [] sheet = [].
Proof. unfold editedCells. apply flat_map_nil. now intros [k i] _. Qed.

(** Two duplicate-free lists with the same elements are equally long. *)
Lemma NoDup_same_length (l l' : list string) :
  NoDup l -> NoDup l' -> (forall x, In x l <-> In x l') ->
  List.length l = List.length l'.
Proof.
  intros Hl Hl' Hiff. apply Nat.le_antisymm; apply NoDup_incl_length;
    try assumption; intros x Hx; now apply Hiff.
Qed.

(** The header map has one entry for each distinct normalized text. *)
Lemma colMapOf_count t :
  List.length (colMapOf t)
  = List.length (nodup string_dec
                   (map (fun v => normalizeValue (Some v)) (tableHeader t))).
Proof.
  rewrite <- (length_map fst (colMapOf t)).
  apply NoDup_same_length; [apply colMapOf_NoDup | apply NoDup_nodup|].
  intros h. rewrite nodup_In, <- has_true_iff, colMapOf_has, in_map_iff.
  split; intros (v & H1 & H2); exists v; auto.
Qed.

(** The key map has one entry for each distinct non-empty key. *)
Lemma rowMapOf_count t :
  List.length (rowMapOf t)
  = List.length (nodup string_dec
                   (filter (fun k => negb (k =? "")%string)
                      (map primaryKey (tableData t)))).
Proof.
  rewrite <- (length_map fst (rowMapOf t)).
  apply NoDup_same_length; [apply rowMapOf_NoDup | apply NoDup_nodup|].
  intros k. rewrite nodup_In, <- has_true_iff, rowMapOf_has, filter_In.
  rewrite !in_map_iff. split.
  - intros (r & Hk & Hin). split.
    + exists r. split; [now apply rowKey_primaryKey | exact Hin].
    + pose proof (rowKey_not_empty _ _ Hk) as Hne.
      apply rowKey_primaryKey in Hk. subst k.
      now destruct (String.eqb_spec (primaryKey r) "").
  - intros [(r & <- & Hin) Hne]. exists r. split; [|exact Hin].
    apply rowKey_Some; [reflexivity|].
    now destruct (String.eqb_spec (primaryKey r) "").
Qed.

(** The spread calls for a sheet compared with no rows at all. *)
Lemma sheetWithinLimit_from_nothing {engine : Engine} t sheet :
  List.length (tableData t) + 1 <= argumentLimit ->
  List.length (tableHeader t) <= argumentLimit ->
  sheetWithinLimit [] t sheet /\ sheetWithinLimit t [] sheet.
Proof.
  intros Hrows Hcols.
  pose proof (columnEvents_length [] t sheet) as Hc1.
  pose proof (rowEvents_length [] t sheet) as Hr1.
  pose proof (columnEvents_length t [] sheet) as Hc2.
  pose proof (rowEvents_length t [] sheet) as Hr2.
  pose proof (editedCells_length [] t sheet) as He1.
  simpl in Hc1, Hr1, Hc2, Hr2, He1.
  unfold sheetWithinLimit, rowsFit. rewrite editedCells_to_nothing. simpl.
  repeat split; try lia; right; lia.
Qed.
End SheetAdded.

(** X13.  A sheet that appears, under a name [Object.prototype] does not
    know, is reported by insertions alone: one [INSERT_COLUMN] for each
    distinct normalized header text followed by one [INSERT_ROW] for each
    distinct non-empty key, all under its name, and nothing for the other
    sheets.  A sheet that disappears is reported the same way by
    removals alone.  The data rows of the sheet and one more, and the
    columns of its header row, are within the engine's bound. *)
Theorem sheet_added_or_removed {engine : Engine} (A : SheetData) (sheet : string) (t : table) :
  JsMap.get A sheet = None ->
  JsMap.has objectPrototype sheet = false ->
  List.length (tableData t) + 1 <= argumentLimit ->
  List.length (tableHeader t) <= argumentLimit ->
  let texts := nodup string_dec
                 (map (fun v => normalizeValue (Some v)) (tableHeader t)) in
  let keys := nodup string_dec
                (filter (fun k => negb (k =? "")%string)
                   (map primaryKey (tableData t))) in
  (exists cols rows,
     detectChanges A (JsMap.set A sheet t) = Ok (cols ++ rows)
     /\ Forall (fun e => changeType e = INSERT_COLUMN /\ sheetName e = sheet) cols
     /\ Forall (fun e => changeType e = INSERT_ROW /\ sheetName e = sheet) rows
     /\ List.length cols = List.length texts
     /\ List.length rows = List.length keys)
  /\ (exists cols rows,
        detectChanges (JsMap.set A sheet t) A = Ok (cols ++ rows)
        /\ Forall (fun e => changeType e = REMOVE_COLUMN /\ sheetName e = sheet) cols
        /\ Forall (fun e => changeType e = REMOVE_ROW /\ sheetName e = sheet) rows
        /\ List.length cols = List.length texts
        /\ List.length rows = List.length keys).
Proof.
  intros Hget Hproto Hrows Hcols texts keys.
  destruct (sheetWithinLimit_from_nothing t sheet Hrows Hcols) as [Hfit Hfit'].
  pose proof (tableOf_absent A sheet Hget Hproto) as Hnone.
  rewrite <- Hnone in Hfit, Hfit'.
  destruct (detectChanges_set_sheet A sheet t
              (readsRows_not_inherited A sheet Hproto) Hfit Hfit')
    as [Hadd Hdel].
  rewrite Hnone in Hadd, Hdel.
  destruct (sheetEvents_from_nothing t sheet) as (E1 & L1 & L2).
  destruct (sheetEvents_to_nothing t sheet) as (E2 & L3 & L4).
  rewrite colMapOf_count in L1, L3. rewrite rowMapOf_count in L2, L4.
  split.
  - exists (insertedColumns [] t sheet), (insertedRows [] t sheet).
    rewrite Hadd, E1. repeat split; try assumption.
    + apply Forall_forall. intros e He. apply insertedColumns_In in He.
      destruct He as (h & j & _ & _ & ->). auto.
    + apply Forall_forall. intros e He. apply insertedRows_In in He.
      destruct He as (k & i & r & _ & _ & _ & ->). auto.
  - exists (removedColumns t [] sheet), (removedRows t [] sheet).
    rewrite Hdel, E2. repeat split; try assumption.
    + apply Forall_forall. intros e He. apply removedColumns_In in He.
      destruct He as (h & j & _ & _ & ->). auto.
    + apply Forall_forall. intros e He. apply removedRows_In in He.
      destruct He as (k & i & r & _ & _ & _ & ->). auto.
Qed.

Lemma sheet_added_or_removed_witness :
  let engine := exampleEngine in
  let A := [("Old", [[VStr "id"]; [VStr "a"]])] in
  let t := [[VStr "id"; VStr "qty"; VStr "id "];
            [VStr "a"; VStr "1"]; [VStr ""; VStr "2"]; [VStr "a"; VStr "3"]] in
  exists cols rows,
    detectChanges A (JsMap.set A "New" t) = Ok (cols ++ rows)
    /\ List.length cols = 2 /\ List.length rows = 1.
Proof.
  intros engine A t.
  assert (Hrows : List.length (tableData t) + 1 <= argumentLimit)
    by (vm_compute; lia).
  assert (Hcols : List.length (tableHeader t) <= argumentLimit)
    by (vm_compute; lia).
  destruct (sheet_added_or_removed A "New" t eq_refl eq_refl Hrows Hcols)
    as ((cols & rows & Hev & _ & _ & Hc & Hr) & _).
  exists cols, rows. split; [exact Hev|]. split.
  - rewrite Hc. vm_compute. reflexivity.
  - rewrite Hr. vm_compute. reflexivity.
Defined.

(* ------------------------------------------------------------------------- *)
(** ** Differences that normalization erases *)

Section Normalized.
Local Open Scope string_scope.

Lemma trimStart_fixed (s : string) :
  startsWithWhiteSpace s = false -> trimStart s = s.
Proof. destruct s as [|ch s]; simpl; [reflexivity|]. now intros ->. Qed.

Lemma trimEnd_fixed (s : string) :
  endsWithWhiteSpace s = false -> trimEnd s = s.
Proof.
  induction s as [|ch s IH]; simpl; [reflexivity|].
  destruct s as [|ch' s].
  - simpl. now intros ->.
  - intros H. now rewrite IH.
Qed.

Lemma trim_idempotent (s : string) : trim (trim s) = trim s.
Proof.
  destruct (trim_spec s) as (l & r & _ & _ & _ & Hstart & Hend).
  unfold trim at 1. now rewrite trimStart_fixed, trimEnd_fixed.
Qed.

Lemma normalizeValue_undefined_or_empty (v : option value) :
  normalizeValue (Some (definedOrEmpty v)) = normalizeValue v.
Proof. now destruct v. Qed.
End Normalized.

(** X14.  Normalizing is idempotent: the normalized text of a value,
    taken as a cell value itself, normalizes to itself; so a key stored in
    a map is in the form under which it is looked up. *)
Theorem normalizeValue_idempotent (v : option value) :
  normalizeValue (Some (VStr (normalizeValue v))) = normalizeValue v.
Proof.
  destruct v as [[| | |]|]; try reflexivity;
    cbn [normalizeValue ToString]; apply trim_idempotent.
Qed.

Section Invisible.
Implicit Types (p c : table) (sheet : string).

Lemma columns_same_maps p c sheet :
  colMapOf p = colMapOf c ->
  insertedColumns p c sheet ++ removedColumns p c sheet = [].
Proof.
  intros H. unfold insertedColumns, removedColumns. rewrite H.
  rewrite !flat_map_nil; [reflexivity | |];
    intros [h i] Hin; now rewrite (has_In _ _ _ Hin).
Qed.

Lemma columnMappingOf_same_maps p c h pj cj :
  colMapOf p = colMapOf c ->
  In (h, (pj, cj)) (columnMappingOf p c) -> cj = pj.
Proof.
  intros H Hin. apply columnMappingOf_In in Hin. destruct Hin as [Hp Hc].
  rewrite <- H in Hc.
  rewrite (get_NoDup _ _ _ (colMapOf_NoDup p) Hp) in Hc. now injection Hc.
Qed.

Lemma headerKeys_sameNormalized (h1 h2 : row) :
  Forall2 sameNormalized h1 h2 -> map headerKey h1 = map headerKey h2.
Proof.
  induction 1 as [|a b h1 h2 Hab _ IH]; [reflexivity|].
  simpl. rewrite IH. unfold headerKey. now rewrite Hab.
Qed.

Lemma rowKeys_sameNormalized (d1 d2 : table) :
  Forall2 sameNormalizedRow d1 d2 -> map rowKey d1 = map rowKey d2.
Proof.
  induction 1 as [|pr cr d1 d2 Hrow _ IH]; [reflexivity|].
  simpl. rewrite IH. f_equal. unfold rowKey, primaryKey.
  specialize (Hrow 0). rewrite !normalizeValue_undefined_or_empty in Hrow.
  now rewrite Hrow.
Qed.

Lemma sheetEvents_sameNormalized (hp hc : row) (dp dc : table) sheet :
  Forall2 sameNormalized hp hc ->
  Forall2 sameNormalizedRow dp dc ->
  sheetEvents (hp :: dp) (hc :: dc) sheet = [].
Proof.
  intros Hh Hd. set (p := hp :: dp). set (c := hc :: dc).
  assert (Hcols : colMapOf p = colMapOf c).
  { rewrite !colMapOf_eq. unfold p, c. simpl.
    now rewrite (headerKeys_sameNormalized _ _ Hh). }
  assert (Hkeys : map rowKey (tableData p) = map rowKey (tableData c))
    by (apply rowKeys_sameNormalized; exact Hd).
  pose proof (rowMapOf_keys _ _ Hkeys) as Hrows.
  unfold sheetEvents.
  rewrite (columns_same_maps p c sheet Hcols), (rows_same_keys p c sheet Hkeys).
  cbn [app]. unfold editedCells. apply flat_map_nil. intros [k i] Hin.
  unfold rowEdits. rewrite <- Hrows.
  rewrite (get_NoDup _ _ _ (rowMapOf_NoDup p) Hin).
  change (tableData p) with dp. change (tableData c) with dc.
  pose proof (Forall2_nth_error _ _ _ Hd i) as Hrow.
  destruct (nth_error dp i) as [pr|]; [|reflexivity].
  destruct (nth_error dc i) as [cr|]; [|reflexivity].
  apply flat_map_nil. intros [h [pj cj]] Hmap.
  apply (columnMappingOf_same_maps p c h pj cj Hcols) in Hmap. subst cj.
  unfold cellEdit. destruct ((pj =? 0) && (pj =? 0)); [reflexivity|].
  rewrite (Hrow pj). now rewrite String.eqb_refl.
Qed.
End Invisible.

(** X15.  Differences that normalization erases are not reported.  When
    the header cells of a sheet keep their normalized texts and every data
    row keeps, column by column, its normalized cells (a missing cell
    counting as an empty one), [detectChanges] returns no event: white
    space around a value, a number or boolean in place of its spelling,
    [null] or a missing cell in place of an empty string all go unseen. *)
Theorem normalized_differences_unseen {engine : Engine} (A : SheetData) (sheet : string)
  (hp hc : row) (dp dc : table) :
  JsMap.get A sheet = Some (hp :: dp) ->
  Forall2 sameNormalized hp hc ->
  Forall2 sameNormalizedRow dp dc ->
  detectChanges A (JsMap.set A sheet (hc :: dc)) = Ok [].
Proof.
  intros Hget Hh Hd.
  apply (detectChanges_one_sheet_nil A sheet _ _ Hget).
  now apply sheetEvents_sameNormalized.
Qed.

Lemma normalized_differences_unseen_witness :
  let engine := exampleEngine in
  let A := [("S", [[VStr "id"; VStr "qty"; VStr "note"];
                   [VStr "a"; VStr "30"; VStr ""];
                   [VStr "b"; VStr "true"]])] in
  detectChanges A
    (JsMap.set A "S" [[VStr " id"; VStr "qty "; VStr "note"];
                      [VStr "a "; VNum 30];
                      [VStr "b"; VBool true; VNull; VStr "  "]])
  = Ok [].
Proof.
  intros engine A.
  apply (normalized_differences_unseen A "S"
           [VStr "id"; VStr "qty"; VStr "note"]
           [VStr " id"; VStr "qty "; VStr "note"]
           [[VStr "a"; VStr "30"; VStr ""]; [VStr "b"; VStr "true"]]
           [[VStr "a "; VNum 30]; [VStr "b"; VBool true; VNull; VStr "  "]]).
  - reflexivity.
  - constructor; [reflexivity|]. constructor; [reflexivity|].
    constructor; [reflexivity|]. constructor.
  - constructor; [intros [|[|[|[|j]]]]; try reflexivity; destruct j; reflexivity|].
    constructor; [intros [|[|[|[|j]]]]; try reflexivity; destruct j; reflexivity|].
    constructor.
Defined.

(* ------------------------------------------------------------------------- *)
(** ** When the comparison throws *)

Section Throws.
Implicit Types (A B : SheetData) (o : sheetRef) (sheet : string).

Lemma forOf_total {X St} (body : X -> St -> result St) (xs : list X) :
  (forall x s, In x xs -> exists s', body x s = Ok s') ->
  forall s, exists s', forOf xs body s = Ok s'.
Proof.
  induction xs as [|x xs IH]; intros Hbody s; simpl; [eauto|].
  destruct (Hbody x s (or_introl eq_refl)) as (s1 & ->). simpl.
  apply IH. intros; apply Hbody; now right.
Qed.

(** A loop with a turn that throws, whatever the state, throws. *)
Lemma forOf_throws {X St} (body : X -> St -> result St) (xs : list X) x :
  In x xs -> (forall s, exists e, body x s = Throw e) ->
  forall s, exists e, forOf xs body s = Throw e.
Proof.
  induction xs as [|y xs IH]; intros Hin Hbody s; [contradiction|].
  simpl. destruct Hin as [->|Hin].
  - destruct (Hbody s) as (e & ->). simpl. eauto.
  - destruct (body y s) as [s1|e]; simpl; [now apply IH | eauto].
Qed.

(** A loop throws what one of its turns throws. *)
Lemma forOf_thrown {X St} (body : X -> St -> result St) (xs : list X) e :
  forall s, forOf xs body s = Throw e ->
  exists x s0, In x xs /\ body x s0 = Throw e.
Proof.
  induction xs as [|y xs IH]; intros s H; simpl in H; [discriminate|].
  destruct (body y s) as [s1|e1] eqn:E; simpl in H.
  - destruct (IH s1 H) as (x & s0 & Hin & Hx). exists x, s0.
    split; [now right | exact Hx].
  - injection H as ->. exists y, s. split; [now left | exact E].
Qed.

Lemma headerOf_asTable o :
  wantsArguments o = false -> headerOf o = Some (tableHeader (asTable o)).
Proof.
  destruct o as [t|[|a]|]; try discriminate; intros _;
    [apply headerOf_Rows | |]; reflexivity.
Qed.

Lemma dataRowsOf_asTable o :
  wantsArguments o = false -> dataRowsOf o = Ok (tableData (asTable o)).
Proof.
  destruct o as [t|[|a]|]; try discriminate; intros _;
    [apply dataRowsOf_Rows | |]; reflexivity.
Qed.

Lemma columnData_asTable o idx :
  wantsArguments o = false -> columnData o idx = Ok (columnValues (asTable o) idx).
Proof.
  destruct o as [t|[|a]|]; try discriminate; intros _;
    [apply columnData_Rows | |]; reflexivity.
Qed.

(** The column matcher on two answers that are no such functions: it
    returns, and no more events than the two header rows have columns. *)
Lemma detectColumnChanges_total o1 o2 sheet :
  wantsArguments o1 = false -> wantsArguments o2 = false ->
  exists evs,
    detectColumnChanges o1 o2 sheet = Ok evs
    /\ List.length evs
       <= List.length (tableHeader (asTable o1))
          + List.length (tableHeader (asTable o2)).
Proof.
  intros H1 H2. unfold detectColumnChanges.
  rewrite (headerOf_asTable o1 H1), (headerOf_asTable o2 H2).
  cbn [buildColMap bind]. fold (colMapOf (asTable o1)). fold (colMapOf (asTable o2)).
  unfold JsMap.entries.
  set (maxRow := mathMax2 (lengthOf o1) (lengthOf o2)).
  rewrite forOf_emit with
    (f := fun '(h, i) =>
            if JsMap.has (colMapOf (asTable o1)) h then []
            else [insertColumnEvent sheet i maxRow (columnValues (asTable o2) i)]).
  2:{ intros [h i] s _. destruct (JsMap.has (colMapOf (asTable o1)) h); simpl.
      - now rewrite app_nil_r.
      - now rewrite (columnData_asTable o2 i H2). }
  cbn [bind].
  rewrite forOf_emit with
    (f := fun '(h, i) =>
            if JsMap.has (colMapOf (asTable o2)) h then []
            else [removeColumnEvent sheet i maxRow (columnValues (asTable o1) i)]).
  2:{ intros [h i] s _. destruct (JsMap.has (colMapOf (asTable o2)) h); simpl.
      - now rewrite app_nil_r.
      - now rewrite (columnData_asTable o1 i H1). }
  cbn [bind app]. eexists. split; [reflexivity|].
  rewrite length_app.
  pose proof (colMapOf_length (asTable o1)). pose proof (colMapOf_length (asTable o2)).
  match goal with
  | |- List.length (flat_map ?f1 ?l1) + List.length (flat_map ?f2 ?l2) <= _ =>
      assert (List.length (flat_map f1 l1) <= List.length l1);
      [|assert (List.length (flat_map f2 l2) <= List.length l2)]
  end.
  - apply flat_map_length_le1. intros [h i] _.
    destruct (JsMap.has (colMapOf (asTable o1)) h); simpl; lia.
  - apply flat_map_length_le1. intros [h i] _.
    destruct (JsMap.has (colMapOf (asTable o2)) h); simpl; lia.
  - lia.
Qed.

Lemma detectRowChanges_asTable {engine : Engine} o1 o2 sheet :
  wantsArguments o1 = false -> wantsArguments o2 = false ->
  detectRowChanges o1 o2 sheet
  = detectRowChanges (Rows (asTable o1)) (Rows (asTable o2)) sheet.
Proof.
  intros H1 H2. unfold detectRowChanges.
  now rewrite (dataRowsOf_asTable o1 H1), (dataRowsOf_asTable o2 H2),
    !dataRowsOf_Rows.
Qed.

Lemma detectCellEdits_asTable o1 o2 sheet :
  wantsArguments o1 = false -> wantsArguments o2 = false ->
  detectCellEdits o1 o2 sheet
  = detectCellEdits (Rows (asTable o1)) (Rows (asTable o2)) sheet.
Proof.
  intros H1 H2. unfold detectCellEdits.
  now rewrite (dataRowsOf_asTable o1 H1), (dataRowsOf_asTable o2 H2),
    (headerOf_asTable o1 H1), (headerOf_asTable o2 H2),
    !dataRowsOf_Rows, !headerOf_Rows.
Qed.

(** The row matcher on two arrays of rows throws nothing but what
    [Math.max] throws. *)
Lemma detectRowChanges_no_TypeError {engine : Engine} (p c : table) sheet :
  detectRowChanges (Rows p) (Rows c) sheet <> Throw TypeError.
Proof.
  unfold detectRowChanges. rewrite !dataRowsOf_Rows. cbn [bind].
  unfold JsMap.entries. fold (rowMapOf p). fold (rowMapOf c).
  assert (Hcall : forall (r : row) (k : nat -> result (list ChangeEvent)),
            (forall n, k n <> Throw TypeError) ->
            bind (spreadCall mathMax (rowLengths (tableData p) (tableData c) r)) k
            <> Throw TypeError).
  { intros r k Hk. unfold spreadCall.
    destruct (_ <=? _); simpl; [apply Hk | discriminate]. }
  match goal with
  | |- bind (forOf ?xs ?body ?s0) _ <> _ =>
      destruct (forOf xs body s0) as [ch1|e1] eqn:E1
  end; cbn [bind].
  - match goal with
    | |- bind (forOf ?xs ?body ?s0) _ <> _ =>
        destruct (forOf xs body s0) as [ch2|e2] eqn:E2
    end; cbn [bind]; [discriminate|].
    intros [= ->]. apply forOf_thrown in E2.
    destruct E2 as ([k i] & s0 & Hin & Hb). revert Hb.
    destruct (negb (JsMap.has (rowMapOf c) k)); [|discriminate].
    apply rowMapOf_entry in Hin. destruct Hin as (r & -> & _).
    apply Hcall. discriminate.
  - intros [= ->]. apply forOf_thrown in E1.
    destruct E1 as ([k i] & s0 & Hin & Hb). revert Hb.
    destruct (negb (JsMap.has (rowMapOf p) k)); [|discriminate].
    apply rowMapOf_entry in Hin. destruct Hin as (r & -> & _).
    apply Hcall. discriminate.
Qed.

(** One sheet whose name neither snapshot answers with such a function:
    nothing is thrown but what a spread call throws. *)
Lemma detectSheet_no_TypeError {engine : Engine} A B sheet changes :
  wantsArguments (sheetOrEmpty A sheet) = false ->
  wantsArguments (sheetOrEmpty B sheet) = false ->
  detectSheet A B sheet changes <> Throw TypeError.
Proof.
  intros H1 H2. unfold detectSheet.
  destruct (isZero _ && isZero _); [discriminate|].
  destruct (detectColumnChanges_total _ _ sheet H1 H2) as (cols & -> & _).
  cbn [bind]. unfold pushAll at 1, spreadCall.
  destruct (_ <=? _); cbn [bind]; [|discriminate].
  rewrite (detectRowChanges_asTable _ _ sheet H1 H2).
  destruct (detectRowChanges _ _ sheet) as [rows|[]] eqn:Er; cbn [bind];
    [| now apply detectRowChanges_no_TypeError in Er | discriminate].
  unfold pushAll at 1, spreadCall.
  destruct (_ <=? _); cbn [bind]; [|discriminate].
  rewrite (detectCellEdits_asTable _ _ sheet H1 H2), detectCellEdits_Rows.
  cbn [bind]. unfold pushAll, spreadCall.
  destruct (_ <=? _); cbn [bind]; discriminate.
Qed.

(** One such sheet whose tables are of sizes the bound allows. *)
Lemma detectSheet_total {engine : Engine} A B sheet changes :
  wantsArguments (sheetOrEmpty A sheet) = false ->
  wantsArguments (sheetOrEmpty B sheet) = false ->
  tableFits (tableOf A sheet) (tableOf B sheet) ->
  exists changes', detectSheet A B sheet changes = Ok changes'.
Proof.
  intros H1 H2 Hfit. unfold detectSheet.
  destruct (isZero _ && isZero _); [eauto|].
  destruct (detectColumnChanges_total _ _ sheet H1 H2) as (cols & -> & Hcols).
  change (asTable (sheetOrEmpty A sheet)) with (tableOf A sheet) in *.
  change (asTable (sheetOrEmpty B sheet)) with (tableOf B sheet) in *.
  set (p := tableOf A sheet) in *. set (c := tableOf B sheet) in *.
  destruct Hfit as (Hrows & Hhdr & Hcells).
  pose proof (rowEvents_length p c sheet).
  pose proof (editedCells_length p c sheet).
  cbn [bind]. rewrite pushAll_passes by lia. cbn [bind].
  rewrite (detectRowChanges_asTable _ _ sheet H1 H2).
  change (asTable (sheetOrEmpty A sheet)) with p.
  change (asTable (sheetOrEmpty B sheet)) with c.
  rewrite (detectRowChanges_fit p c sheet Hrows). cbn [bind].
  unfold rowsFit in Hrows. rewrite pushAll_passes by lia. cbn [bind].
  rewrite (detectCellEdits_asTable _ _ sheet H1 H2).
  change (asTable (sheetOrEmpty A sheet)) with p.
  change (asTable (sheetOrEmpty B sheet)) with c.
  rewrite detectCellEdits_Rows. cbn [bind].
  rewrite pushAll_passes by lia. cbn [bind]. eauto.
Qed.

Lemma detectSheet_throws {engine : Engine} A B sheet changes :
  wantsArguments (sheetOrEmpty A sheet) = true
  \/ wantsArguments (sheetOrEmpty B sheet) = true ->
  detectSheet A B sheet changes = Throw TypeError.
Proof.
  unfold detectSheet.
  destruct (sheetOrEmpty A sheet) as [p|[|a]|] eqn:EA;
    destruct (sheetOrEmpty B sheet) as [c|[|b]|] eqn:EB;
    intros [H|H]; try discriminate H; clear H;
    try reflexivity.
  all: rewrite andb_false_r; unfold detectColumnChanges;
    try rewrite headerOf_Rows; reflexivity.
Qed.

Lemma wantsArguments_names A sheet :
  wantsArguments (sheetOrEmpty A sheet) = true
  <-> JsMap.get A sheet = None
      /\ In sheet ["constructor"; "__defineGetter__"; "__defineSetter__";
                   "hasOwnProperty"; "__lookupGetter__"; "__lookupSetter__";
                   "isPrototypeOf"; "propertyIsEnumerable"]%string.
Proof.
  unfold sheetOrEmpty, getProperty. split.
  - destruct (JsMap.get A sheet) as [t|]; [discriminate|].
    destruct (JsMap.get objectPrototype sheet) as [o|] eqn:E; [|discriminate].
    intros Hw. split; [reflexivity|].
    apply get_In in E. unfold objectPrototype in E.
    repeat (destruct E as [E|E];
            [injection E as <- <-; first [discriminate Hw | simpl; tauto]|]).
    destruct E.
  - intros [-> Hin]. simpl in Hin.
    repeat (destruct Hin as [<-|Hin]; [vm_compute; reflexivity|]).
    destruct Hin.
Qed.

Lemma detectChanges_throws {engine : Engine} A B sheet :
  In sheet (allSheetNames A B) ->
  wantsArguments (sheetOrEmpty A sheet) = true
  \/ wantsArguments (sheetOrEmpty B sheet) = true ->
  exists e, detectChanges A B = Throw e.
Proof.
  intros Hin Hw. unfold detectChanges.
  apply forOf_throws with (x := sheet); [exact Hin|].
  intros s. exists TypeError. now apply detectSheet_throws.
Qed.
End Throws.

(** X16.  Which sheet names make [detectChanges] throw.  A snapshot
    answers a name with a function that declares parameters exactly when
    it does not own the name and the name is one of [constructor],
    [hasOwnProperty], [isPrototypeOf], [propertyIsEnumerable] and the four
    [__define/lookup Getter/Setter__].  When some sheet name of the two
    snapshots is answered so by one of them, [detectChanges] throws; a
    [TypeError] is thrown in that case only.  When no name is, and the
    tables under every name are of sizes the engine's bound allows, a
    list of events is returned: the names [toString], [valueOf],
    [toLocaleString] and [__proto__] do no harm. *)
Theorem detectChanges_throws_exactly {engine : Engine} (A B : SheetData) :
  ((exists sheet, In sheet (allSheetNames A B)
      /\ (wantsArguments (sheetOrEmpty A sheet) = true
          \/ wantsArguments (sheetOrEmpty B sheet) = true))
   -> exists e, detectChanges A B = Throw e)
  /\ (detectChanges A B = Throw TypeError
      -> exists sheet, In sheet (allSheetNames A B)
           /\ (wantsArguments (sheetOrEmpty A sheet) = true
               \/ wantsArguments (sheetOrEmpty B sheet) = true))
  /\ ((forall sheet, In sheet (allSheetNames A B) ->
         wantsArguments (sheetOrEmpty A sheet) = false
         /\ wantsArguments (sheetOrEmpty B sheet) = false
         /\ tableFits (tableOf A sheet) (tableOf B sheet))
      -> exists evs, detectChanges A B = Ok evs)
  /\ (forall (D : SheetData) sheet,
        wantsArguments (sheetOrEmpty D sheet) = true
        <-> JsMap.get D sheet = None
            /\ In sheet ["constructor"; "__defineGetter__"; "__defineSetter__";
                         "hasOwnProperty"; "__lookupGetter__";
                         "__lookupSetter__"; "isPrototypeOf";
                         "propertyIsEnumerable"]%string).
Proof.
  split; [|split; [|split]].
  - intros (sheet & Hin & Hw). now apply detectChanges_throws with (sheet := sheet).
  - intros Hthrow. unfold detectChanges in Hthrow.
    apply forOf_thrown in Hthrow. destruct Hthrow as (sheet & s0 & Hin & Hb).
    exists sheet. split; [exact Hin|].
    destruct (wantsArguments (sheetOrEmpty A sheet)) eqn:HA; [now left|].
    destruct (wantsArguments (sheetOrEmpty B sheet)) eqn:HB; [now right|].
    exfalso. revert Hb. now apply detectSheet_no_TypeError.
  - intros H. unfold detectChanges. apply forOf_total.
    intros sheet s Hin. destruct (H sheet Hin) as (HA & HB & Hfit).
    now apply detectSheet_total.
  - intros D sheet. apply wantsArguments_names.
Qed.

Lemma detectChanges_throws_exactly_witness :
  let engine := exampleEngine in
  let t := [[VStr "id"]; [VStr "a"]] in
  (exists e,
     detectChanges [("Sheet1", t)] [("Sheet1", t); ("isPrototypeOf", t)]
     = Throw e)
  /\ exists evs,
       detectChanges [("Sheet1", t)] [("Sheet1", t); ("valueOf", t)] = Ok evs.
Proof.
  intros engine t. split.
  - apply (proj1 (detectChanges_throws_exactly
                    [("Sheet1", t)]
                    [("Sheet1", t); ("isPrototypeOf", t)])).
    exists "isPrototypeOf"%string. split.
    + vm_compute. right. left. reflexivity.
    + left. reflexivity.
  - apply (proj1 (proj2 (proj2 (detectChanges_throws_exactly
                                  [("Sheet1", t)]
                                  [("Sheet1", t); ("valueOf", t)])))).
    intros sheet Hin.
    assert (Hnames : allSheetNames [("Sheet1", t)]
                       [("Sheet1", t); ("valueOf", t)]
                     = ["Sheet1"; "valueOf"]%string)
      by (vm_compute; reflexivity).
    rewrite Hnames in Hin.
    destruct Hin as [<-|[<-|[]]];
      (split; [reflexivity|]); (split; [reflexivity|]);
      repeat split; vm_compute; lia.
Defined.

(* ------------------------------------------------------------------------- *)
(** ** The monitor's runs *)

Section Monitor.
Implicit Types (st : monitorState) (D : SheetData) (sheet : string).

Lemma detectChanges_same {engine : Engine} D : detectChanges D D = Ok [].
Proof.
  rewrite detectChanges_rows.
  - f_equal. apply flat_map_nil. intros sheet _. apply sheetEvents_same.
  - intros sheet Hin. apply allSheetNames_In in Hin.
    assert (H : In sheet (map fst D)) by tauto.
    split; [now apply readsRows_own|]. split; [now apply readsRows_own|].
    apply sheetWithinLimit_nil, sheetEvents_same.
Qed.

Lemma processChange_throwing {engine : Engine} st D sheet :
  isInitialized st = true ->
  wantsArguments (sheetOrEmpty (previousSheetData st) sheet) = true ->
  In sheet (map fst D) ->
  processChange st (Fetched D) = (st, None).
Proof.
  intros Hinit Hw Hin. unfold processChange. rewrite Hinit.
  assert (Hthrow : exists e, detectChanges (previousSheetData st) D = Throw e).
  { apply detectChanges_throws with (sheet := sheet); [|now left].
    apply allSheetNames_In. now right. }
  destruct Hthrow as (e & ->). reflexivity.
Qed.
End Monitor.

(** X17.  Once a run of [processChange] has taken a snapshot as the
    stored one, a further run that fetches the same snapshot shows nothing
    and leaves the state as it is.  The first run takes the snapshot when
    the monitor is not yet initialized or the comparison returns. *)
Theorem processChange_settles {engine : Engine} (st : monitorState) (D : SheetData) :
  (isInitialized st = true ->
   exists evs, detectChanges (previousSheetData st) D = Ok evs) ->
  let st1 := fst (processChange st (Fetched D)) in
  st1 = mkMonitor D true
  /\ processChange st1 (Fetched D) = (st1, None).
Proof.
  intros Hok.
  assert (E : fst (processChange st (Fetched D)) = mkMonitor D true).
  { unfold processChange. destruct (isInitialized st); [|reflexivity].
    destruct (Hok eq_refl) as (evs & ->). reflexivity. }
  cbv zeta. rewrite E. split; [reflexivity|].
  unfold processChange. cbn [isInitialized previousSheetData].
  now rewrite detectChanges_same.
Qed.

Lemma processChange_settles_witness :
  let engine := exampleEngine in
  let st := mkMonitor [("S", [[VStr "id"]; [VStr "a"]])] true in
  let D := [("S", [[VStr "id"]; [VStr "a"]; [VStr "b"]])] in
  snd (processChange st (Fetched D))
  = Some [insertRowEvent "S" 3 1 [VStr "b"]]
  /\ fst (processChange st (Fetched D)) = mkMonitor D true
  /\ processChange (fst (processChange st (Fetched D))) (Fetched D)
     = (fst (processChange st (Fetched D)), None).
Proof.
  intros engine st D. split; [vm_compute; reflexivity|].
  apply (processChange_settles st D).
  intros _. eexists. vm_compute. reflexivity.
Defined.

(** X18.  A throwing comparison is caught before the stored snapshot is
    replaced, so it repeats.  When the monitor is initialized and its
    stored snapshot answers a sheet name with a function that declares
    parameters (the name is [constructor], [hasOwnProperty], ... and the
    stored snapshot has no such sheet), then through any sequence of runs
    whose fetches fail or return a snapshot owning that sheet, nothing is
    shown and the state never changes. *)
Theorem monitor_stays_stuck {engine : Engine} (st : monitorState) (sheet : string)
  (fs : list fetched) :
  isInitialized st = true ->
  wantsArguments (sheetOrEmpty (previousSheetData st) sheet) = true ->
  Forall (ownsIfFetched sheet) fs ->
  processChanges st fs = (st, map (fun _ => None) fs).
Proof.
  intros Hinit Hw Hfs. induction Hfs as [|f fs Hf _ IH]; [reflexivity|].
  cbn [processChanges map].
  assert (E : processChange st f = (st, None)).
  { destruct f as [D|]; [|reflexivity].
    now apply processChange_throwing with (sheet := sheet). }
  now rewrite E, IH.
Qed.

Lemma monitor_stays_stuck_witness :
  let engine := exampleEngine in
  let t := [[VStr "id"]; [VStr "a"]] in
  let st := mkMonitor [("Sheet1", t)] true in
  processChanges st
    [Fetched [("Sheet1", t); ("constructor", t)];
     FetchFailed;
     Fetched [("Sheet1", [[VStr "id"]; [VStr "a"]; [VStr "b"]]);
              ("constructor", [])]]
  = (st, [None; None; None]).
Proof.
  intros engine t st.
  apply (monitor_stays_stuck st "constructor").
  - reflexivity.
  - vm_compute. reflexivity.
  - constructor; [right; left; reflexivity|].
    constructor; [exact I|].
    constructor; [right; left; reflexivity|]. constructor.
Defined.

(* ------------------------------------------------------------------------- *)
(** ** Column letters read back *)

Section LettersBack.
Local Open Scope string_scope.

Lemma lettersValue_app (a b : string) : forall acc,
  lettersValue acc (a ++ b) = lettersValue (lettersValue acc a) b.
Proof. induction a as [|ch a IH]; intros acc; simpl; [reflexivity | apply IH]. Qed.

Lemma lettersValue_letter (acc r : nat) :
  1 <= r <= 26 -> lettersValue acc (letter r) = 26 * acc + r.
Proof.
  intros Hr. unfold letter. cbn [lettersValue].
  rewrite nat_ascii_embedding by lia. lia.
Qed.

Lemma columnOfLetters_columnToLetter (n : nat) :
  columnOfLetters (columnToLetter n) = n.
Proof.
  unfold columnOfLetters.
  induction n as [n IH] using lt_wf_ind.
  destruct (Nat.eq_dec n 0) as [->|Hn];
    [now rewrite columnToLetter_zero|].
  destruct (columnToLetter_positive n) as (q & r & Hr & -> & Hq); [lia|].
  rewrite columnToLetter_step, lettersValue_app, IH by assumption.
  now apply lettersValue_letter.
Qed.

Lemma columnToLetter_lettersValue (s : string) : forall acc,
  upperCase s = true ->
  columnToLetter (lettersValue acc s) = columnToLetter acc ++ s.
Proof.
  induction s as [|ch s IH]; intros acc Hup.
  - cbn [lettersValue]. clear. induction (columnToLetter acc) as [|c x IHx];
      simpl; [reflexivity | now rewrite <- IHx].
  - cbn [upperCase] in Hup. apply andb_true_iff in Hup. destruct Hup as [Hch Hs].
    apply andb_true_iff in Hch. destruct Hch as [Hlo Hhi].
    apply Nat.leb_le in Hlo, Hhi.
    cbn [lettersValue]. rewrite (IH _ Hs).
    rewrite columnToLetter_step by lia. unfold letter.
    replace (64 + (nat_of_ascii ch - 64)) with (nat_of_ascii ch) by lia.
    rewrite ascii_nat_embedding. rewrite append_assoc. reflexivity.
Qed.
End LettersBack.

(** X19.  [columnToLetter] and the reading of letters in bijective
    base 26 undo each other: reading the letters of a column number gives
    the number back, and every string of letters A..Z is the name of the
    column number it reads as.  So every such string names exactly one
    column. *)
Theorem columnToLetter_round_trip :
  (forall n, columnOfLetters (columnToLetter n) = n)
  /\ (forall s, upperCase s = true ->
        columnToLetter (columnOfLetters s) = s).
Proof.
  split; [apply columnOfLetters_columnToLetter|].
  intros s Hup. unfold columnOfLetters.
  rewrite (columnToLetter_lettersValue s 0 Hup).
  now rewrite columnToLetter_zero.
Qed.

Lemma columnToLetter_round_trip_witness :
  columnOfLetters "ZZ" = 702
  /\ columnToLetter (columnOfLetters "ZZ") = "ZZ"%string.
Proof.
  split; [vm_compute; reflexivity|].
  apply (proj2 columnToLetter_round_trip "ZZ"%string).
  vm_compute. reflexivity.
Defined.

(* ------------------------------------------------------------------------- *)
(** ** Renaming a header *)

Section HeaderRename.
Implicit Types (sheet : string).

(** The two maps built over a list of keys that differ in the key at one
    position, neither key occurring elsewhere: they differ in that entry. *)
Lemma buildFrom_replace (ks1 ks2 : list (option string)) (k k' : string) :
  ~ In (Some k) (ks1 ++ ks2) ->
  ~ In (Some k') (ks1 ++ ks2) ->
  exists m1 m2,
    buildFrom (ks1 ++ Some k :: ks2) 0 [] = m1 ++ (k, List.length ks1) :: m2
    /\ buildFrom (ks1 ++ Some k' :: ks2) 0 [] = m1 ++ (k', List.length ks1) :: m2.
Proof.
  intros Hk Hk'. rewrite in_app_iff in Hk, Hk'.
  rewrite !buildFrom_app. cbn [buildFrom]. set (m1 := buildFrom ks1 0 []).
  assert (Hm1 : forall x, ~ In (Some x) ks1 -> JsMap.has m1 x = false).
  { intros x Hx. destruct (JsMap.has m1 x) eqn:E; [|reflexivity].
    apply buildFrom_has in E. destruct E as [E|E]; [discriminate | tauto]. }
  rewrite !addOpt_fresh by (apply Hm1; tauto).
  destruct (buildFrom_shift ks2 (S (0 + List.length ks1)) (S (0 + List.length ks1))
              (m1 ++ [(k, 0 + List.length ks1)])
              (m1 ++ [(k', 0 + List.length ks1)])) as (ext & E1 & E2 & _).
  { intros x Hin. rewrite !has_app, !has_single.
    destruct (String.eqb_spec k x) as [->|_]; [tauto|].
    destruct (String.eqb_spec k' x) as [->|_]; [tauto | reflexivity]. }
  exists m1, (map (shiftEntry (S (List.length ks1))) ext).
  rewrite E1, E2, <- !app_assoc. simpl. auto.
Qed.

(** The three phases between a table and the same table with one header
    cell replaced, the old and the new text being those of no other
    column. *)
Lemma sheetEvents_header_renamed (h1 h2 : row) (old new : value) (d : table)
  sheet :
  normalizeValue (Some old) <> normalizeValue (Some new) ->
  headerAbsent (h1 ++ h2) (normalizeValue (Some old)) ->
  headerAbsent (h1 ++ h2) (normalizeValue (Some new)) ->
  let p := (h1 ++ old :: h2) :: d in
  let c := (h1 ++ new :: h2) :: d in
  sheetEvents p c sheet
  = [insertColumnEvent sheet (List.length h1) (Num (S (List.length d)))
       (columnValues c (List.length h1));
     removeColumnEvent sheet (List.length h1) (Num (S (List.length d)))
       (columnValues p (List.length h1))].
Proof.
  intros Hne Hold Hnew p c. set (n := List.length h1).
  set (ko := normalizeValue (Some old)) in *.
  set (kn := normalizeValue (Some new)) in *.
  assert (Hfresh : forall k, headerAbsent (h1 ++ h2) k ->
            ~ In (Some k) (map headerKey h1 ++ map headerKey h2)).
  { intros k Habs. rewrite <- map_app, in_map_iff. intros (v' & Hk & Hin).
    apply (Habs v' Hin). unfold headerKey in Hk. now injection Hk. }
  destruct (buildFrom_replace (map headerKey h1) (map headerKey h2) ko kn
              (Hfresh ko Hold) (Hfresh kn Hnew)) as (m1 & m2 & EP & EC).
  rewrite length_map in EP, EC. fold n in EP, EC.
  assert (HP : colMapOf p = m1 ++ (ko, n) :: m2).
  { rewrite colMapOf_eq. unfold p. simpl. now rewrite map_app. }
  assert (HC : colMapOf c = m1 ++ (kn, n) :: m2).
  { rewrite colMapOf_eq. unfold c. simpl. now rewrite map_app. }
  assert (Hmax : maxRowOf p c = Num (S (List.length d))).
  { unfold maxRowOf, p, c. simpl. now rewrite Nat.max_id. }
  (* the keys of the other columns, on either side *)
  assert (HndP : ~ In ko (map fst (m1 ++ m2))).
  { pose proof (colMapOf_NoDup p) as Hnd. rewrite HP, map_app in Hnd.
    simpl in Hnd. apply NoDup_remove_2 in Hnd. now rewrite map_app. }
  assert (HndC : ~ In kn (map fst (m1 ++ m2))).
  { pose proof (colMapOf_NoDup c) as Hnd. rewrite HC, map_app in Hnd.
    simpl in Hnd. apply NoDup_remove_2 in Hnd. now rewrite map_app. }
  assert (Hother : forall h j, In (h, j) (m1 ++ m2) ->
            In (h, j) (colMapOf p) /\ In (h, j) (colMapOf c)).
  { intros h j Hin. rewrite HP, HC. apply in_app_or in Hin.
    split; apply in_or_app; destruct Hin; auto; right; now right. }
  assert (HPn : JsMap.has (colMapOf p) kn = false).
  { apply has_false_iff. rewrite HP, map_app. simpl. rewrite in_app_iff.
    rewrite map_app, in_app_iff in HndC. simpl. intros [H|[H|H]]; tauto. }
  assert (HCo : JsMap.has (colMapOf c) ko = false).
  { apply has_false_iff. rewrite HC, map_app. simpl. rewrite in_app_iff.
    rewrite map_app, in_app_iff in HndP. simpl.
    intros [H|[H|H]]; [tauto | congruence | tauto]. }
  unfold sheetEvents.
  assert (Hins : insertedColumns p c sheet
                 = [insertColumnEvent sheet n (Num (S (List.length d)))
                      (columnValues c n)]).
  { unfold insertedColumns. rewrite HC at 1. rewrite flat_map_single.
    - now rewrite HPn, Hmax.
    - intros [h j] Hin.
      assert (H : In (h, j) (m1 ++ m2)) by (apply in_or_app; now left).
      now rewrite (has_In _ _ _ (proj1 (Hother h j H))).
    - intros [h j] Hin.
      assert (H : In (h, j) (m1 ++ m2)) by (apply in_or_app; now right).
      now rewrite (has_In _ _ _ (proj1 (Hother h j H))). }
  assert (Hrem : removedColumns p c sheet
                 = [removeColumnEvent sheet n (Num (S (List.length d)))
                      (columnValues p n)]).
  { unfold removedColumns. rewrite HP at 1. rewrite flat_map_single.
    - now rewrite HCo, Hmax.
    - intros [h j] Hin.
      assert (H : In (h, j) (m1 ++ m2)) by (apply in_or_app; now left).
      now rewrite (has_In _ _ _ (proj2 (Hother h j H))).
    - intros [h j] Hin.
      assert (H : In (h, j) (m1 ++ m2)) by (apply in_or_app; now right).
      now rewrite (has_In _ _ _ (proj2 (Hother h j H))). }
  assert (Hkeys : map rowKey (tableData p) = map rowKey (tableData c))
    by reflexivity.
  assert (Hed : editedCells p c sheet = []).
  { unfold editedCells. apply flat_map_nil. intros [k i] Hin.
    unfold rowEdits. change (rowMapOf c) with (rowMapOf p).
    rewrite (get_NoDup _ _ _ (rowMapOf_NoDup p) Hin).
    change (tableData p) with d. change (tableData c) with d.
    destruct (nth_error d i) as [r|]; [|reflexivity].
    apply flat_map_nil. intros [h [pj cj]] Hmap.
    apply columnMappingOf_In in Hmap. destruct Hmap as [Hpj Hcj].
    assert (Hin' : In (h, pj) (m1 ++ m2)).
    { rewrite HP in Hpj. apply in_app_or in Hpj. apply in_or_app.
      destruct Hpj as [H|[[= Eh Ej]|H]]; [now left | | now right].
      exfalso. subst h. apply get_has in Hcj. congruence. }
    rewrite (get_NoDup _ _ _ (colMapOf_NoDup c) (proj2 (Hother h pj Hin'))) in Hcj.
    injection Hcj as <-. now apply cellEdit_equal_cells. }
  rewrite Hins, Hrem, (rows_same_keys p c sheet Hkeys), Hed. reflexivity.
Qed.
End HeaderRename.

(** X20.  Renaming a header is reported as a column inserted and a
    column removed at the same index, and as nothing else.  When a header
    cell of a sheet is replaced by one with another normalized text, the
    old and the new text being those of no other column,
    [detectChanges] returns one [INSERT_COLUMN] event followed by one
    [REMOVE_COLUMN] event for that column and no [EDIT] event, although
    no data cell has changed.  The engine is one that passes at least two
    arguments to [push]. *)
Theorem header_rename_reported {engine : Engine} (A : SheetData) (sheet : string)
  (h1 h2 : row) (old new : value) (d : table) :
  2 <= argumentLimit ->
  JsMap.get A sheet = Some ((h1 ++ old :: h2) :: d) ->
  normalizeValue (Some old) <> normalizeValue (Some new) ->
  headerAbsent (h1 ++ h2) (normalizeValue (Some old)) ->
  headerAbsent (h1 ++ h2) (normalizeValue (Some new)) ->
  detectChanges A (JsMap.set A sheet ((h1 ++ new :: h2) :: d))
  = Ok [ {| changeType := INSERT_COLUMN;
          sheetName := sheet;
          affectedRange :=
            {| startRow := 1;
               endRow := Num (S (List.length d));
               startColumn := List.length h1 + 1;
               endColumn := List.length h1 + 1;
               a1Notation :=
                 (columnToLetter (List.length h1 + 1) ++ "1:"
                  ++ columnToLetter (List.length h1 + 1)
                  ++ natToString (S (List.length d)))%string |};
          cellAddress := None;
          oldValue := None;
          newValue := None;
          rowIndex := None;
          columnIndex := Some (List.length h1 + 1);
          insertedData := Some (columnValues ((h1 ++ new :: h2) :: d) (List.length h1));
          deletedData := None |};
       {| changeType := REMOVE_COLUMN;
          sheetName := sheet;
          affectedRange :=
            {| startRow := 1;
               endRow := Num (S (List.length d));
               startColumn := List.length h1 + 1;
               endColumn := List.length h1 + 1;
               a1Notation :=
                 (columnToLetter (List.length h1 + 1) ++ "1:"
                  ++ columnToLetter (List.length h1 + 1)
                  ++ natToString (S (List.length d)))%string |};
          cellAddress := None;
          oldValue := None;
          newValue := None;
          rowIndex := None;
          columnIndex := Some (List.length h1 + 1);
          insertedData := None;
          deletedData := Some (columnValues ((h1 ++ old :: h2) :: d) (List.length h1)) |} ].
Proof.
  intros Hlimit Hget Hne Hold Hnew.
  apply (detectChanges_one_sheet_short A sheet _ _ _ Hget).
  - apply (sheetEvents_header_renamed h1 h2 old new d sheet Hne Hold Hnew).
  - repeat constructor.
  - exact Hlimit.
Qed.

Lemma header_rename_reported_witness :
  let engine := exampleEngine in
  let A := [("S", [[VStr "id"; VStr "qty"; VStr "note"];
                   [VStr "a"; VNum 1; VStr "x"];
                   [VStr "b"; VNum 2]])] in
  detectChanges A
    (JsMap.set A "S" [[VStr "id"; VStr "amount"; VStr "note"];
                      [VStr "a"; VNum 1; VStr "x"];
                      [VStr "b"; VNum 2]])
  = Ok [insertColumnEvent "S" 1 (Num 3) [[VNum 1]; [VNum 2]];
        removeColumnEvent "S" 1 (Num 3) [[VNum 1]; [VNum 2]]].
Proof.
  intros engine A.
  apply (header_rename_reported A "S" [VStr "id"] [VStr "note"]
           (VStr "qty") (VStr "amount")
           [[VStr "a"; VNum 1; VStr "x"]; [VStr "b"; VNum 2]]).
  - vm_compute. lia.
  - reflexivity.
  - vm_compute. discriminate.
  - intros v' [<-|[<-|[]]]; vm_compute; discriminate.
  - intros v' [<-|[<-|[]]]; vm_compute; discriminate.
Defined.

(* ------------------------------------------------------------------------- *)
(** ** Rows that neither key map holds *)

Section Unmatched.
Implicit Types (sheet : string).

Lemma nth_error_beside {X} (l1 l2 : list X) (x y : X) i :
  i <> List.length l1 ->
  nth_error (l1 ++ x :: l2) i = nth_error (l1 ++ y :: l2) i.
Proof.
  intros Hi. destruct (Nat.lt_ge_cases i (List.length l1)) as [Hlt|Hge].
  - now rewrite !nth_error_app1.
  - rewrite !nth_error_app2 by assumption.
    destruct (i - List.length l1) as [|m] eqn:E; [lia | reflexivity].
Qed.

(** The three phases between a table and the same table with one data
    row replaced by a row of the same key, when that key is empty or is
    the key of a row above. *)
Lemma sheetEvents_unmatched_row (h : row) (d1 d2 : table) (r r' : row) sheet :
  primaryKey r' = primaryKey r ->
  primaryKey r = ""%string
  \/ (exists r0, In r0 d1 /\ primaryKey r0 = primaryKey r) ->
  sheetEvents (h :: d1 ++ r :: d2) (h :: d1 ++ r' :: d2) sheet = [].
Proof.
  intros Hk Hshadow.
  set (p := h :: d1 ++ r :: d2). set (c := h :: d1 ++ r' :: d2).
  assert (Hkeys : map rowKey (tableData p) = map rowKey (tableData c)).
  { change (tableData p) with (d1 ++ r :: d2).
    change (tableData c) with (d1 ++ r' :: d2).
    assert (E : rowKey r' = rowKey r) by (unfold rowKey; now rewrite Hk).
    rewrite !map_app. cbn [map]. now rewrite E. }
  pose proof (rowMapOf_keys _ _ Hkeys) as Hrows.
  assert (Hhead : tableHeader p = tableHeader c) by reflexivity.
  unfold sheetEvents.
  rewrite (columns_same_header p c sheet Hhead), (rows_same_keys p c sheet Hkeys).
  cbn [app]. unfold editedCells. apply flat_map_nil. intros [k i] Hin.
  unfold rowEdits. rewrite <- Hrows.
  rewrite (get_NoDup _ _ _ (rowMapOf_NoDup p) Hin).
  apply rowMapOf_entry_iff in Hin.
  destruct Hin as (r1 & (Hr1 & Hne & Hfirst) & _).
  change (tableData p) with (d1 ++ r :: d2) in *.
  change (tableData c) with (d1 ++ r' :: d2).
  assert (Hi : i <> List.length d1).
  { intros ->. rewrite nth_error_app2, Nat.sub_diag in Hr1 by lia.
    injection Hr1 as <-.
    destruct Hshadow as [Hempty|(r0 & Hr0 & Hsame)]; [contradiction|].
    apply In_nth_error in Hr0. destruct Hr0 as (j & Hj).
    assert (Hlt : j < List.length d1) by (apply nth_error_Some; congruence).
    apply (Hfirst j r0 Hlt); [|exact Hsame].
    now rewrite nth_error_app1. }
  rewrite <- (nth_error_beside d1 d2 r r' i Hi).
  destruct (nth_error (d1 ++ r :: d2) i) as [row|]; [|reflexivity].
  now apply cellEdits_same_row.
Qed.
End Unmatched.

(** X21.  A data row that neither key map holds is never looked at.
    When the key of a data row is empty, or is the key of a data row above
    it, replacing the row by any row of the same key (other cells changed,
    added or dropped) is not reported: [detectChanges] returns no event. *)
Theorem unmatched_row_changes_unseen {engine : Engine} (A : SheetData) (sheet : string)
  (h : row) (d1 d2 : table) (r r' : row) :
  JsMap.get A sheet = Some (h :: d1 ++ r :: d2) ->
  primaryKey r' = primaryKey r ->
  primaryKey r = ""%string
  \/ (exists r0, In r0 d1 /\ primaryKey r0 = primaryKey r) ->
  detectChanges A (JsMap.set A sheet (h :: d1 ++ r' :: d2)) = Ok [].
Proof.
  intros Hget Hk Hshadow.
  apply (detectChanges_one_sheet_nil A sheet _ _ Hget).
  now apply sheetEvents_unmatched_row.
Qed.

Lemma unmatched_row_changes_unseen_witness :
  let engine := exampleEngine in
  let A := [("S", [[VStr "id"; VStr "qty"];
                   [VStr "a"; VNum 1];
                   [VStr "a"; VNum 2];
                   [VStr ""; VNum 3]])] in
  detectChanges A
    (JsMap.set A "S" [[VStr "id"; VStr "qty"];
                      [VStr "a"; VNum 1];
                      [VStr " a"; VNum 20; VStr "more"];
                      [VStr ""; VNum 3]])
  = Ok [].
Proof.
  intros engine A.
  apply (unmatched_row_changes_unseen A "S" [VStr "id"; VStr "qty"]
           [[VStr "a"; VNum 1]] [[VStr ""; VNum 3]]
           [VStr "a"; VNum 2] [VStr " a"; VNum 20; VStr "more"]).
  - reflexivity.
  - reflexivity.
  - right. exists [VStr "a"; VNum 1]. split; [now left | reflexivity].
Defined.
